(** * OBookLLM: retrieval, citation and provider core

    A shallow embedding of the Python backend
    ([backend/src/rag.py], [backend/src/chains/rag_chain.py],
    [backend/src/providers/*.py]) together with the properties of its
    retrieval-and-citation core and of its provider registry.

    Conventions of the embedding:
    - a Python [str] is a [string], one [ascii] per character; [len] is
      [String.length] and a slice [s[i:j]] is [Py.slice s i j];
    - a Python [int] is a [Z]; list positions and lengths are [nat]; the
      true division [a / b] of two [int]s followed by [int] is
      [Py.int_truediv], the correctly rounded binary64 quotient truncated
      towards zero;
    - a [dict] that is only looked up is a [gmap]; a [dict] whose insertion
      order is observable (it is serialised) is an insertion-ordered
      association list with [Py.od_set];
    - a call that may raise returns a [Py.Result]; objects that are mutated
      in place are threaded explicitly;
    - an (async) generator is the list of fragments it yields together with
      the way it ends ([Py.Gen]). *)

From Stdlib Require Import ZArith Lia String Ascii List.
From stdpp Require Import base option list list_numbers gmap strings pretty.

Local Open Scope string_scope.
Local Open Scope list_scope.

(** ** Python primitives *)

Module Py.

(** Exceptions: the classes the code raises or catches.  Every one of
    them derives from [Exception]; [str(e)] is the message. *)
Inductive exception : Type :=
  | ValueError (msg : string)
  | NotImplementedError (msg : string)
  | IndexError (msg : string)
  | KeyError (msg : string)
  | TypeError (msg : string)
  | OverflowError (msg : string)
  | ZeroDivisionError (msg : string)
  | OtherException (msg : string).

Definition str_of_exception (e : exception) : string :=
  match e with
  | ValueError m | NotImplementedError m | IndexError m
  | KeyError m | TypeError m | OverflowError m | ZeroDivisionError m
  | OtherException m => m
  end.

Definition is_ValueError (e : exception) : bool :=
  match e with ValueError _ => true | _ => false end.

Inductive Result (A : Type) : Type :=
  | Ok (a : A)
  | Raise (e : exception).
Arguments Ok {A} a.
Arguments Raise {A} e.

Global Instance Result_ret : MRet Result := fun A a => Ok a.

Global Instance Result_bind : MBind Result := fun A B k r =>
  match r with
  | Ok a => k a
  | Raise e => Raise e
  end.

(** *** True division of integers

    [a / b] on two [int]s is the binary64 number nearest to the exact
    quotient (ties to the even mantissa), [ZeroDivisionError] for
    [b = 0] and [OverflowError] when that number would be 2^1024 or
    more; [int(x)] truncates towards zero.  A positive binary64 number
    is [m * 2^e] with [m <= 2^53] and [e >= -1074]. *)

(** [num / den] rounded to the nearest integer, ties to even. *)
Definition round_half_even (num den : Z) : Z :=
  let q := (num / den)%Z in
  let r := (num mod den)%Z in
  if (2 * r <? den)%Z then q
  else if (den <? 2 * r)%Z then (q + 1)%Z
  else if Z.even q then q else (q + 1)%Z.

(** The exponent of the unit in the last place for the quotient of the
    positive integers [a] and [b]: [E - 52] for
    [2^E <= a / b < 2^(E + 1)], and -1074 for the subnormal numbers. *)
Definition ulp_exponent (a b : Z) : Z :=
  let d := (Z.log2 a - Z.log2 b)%Z in
  let E :=
    if (a * 2 ^ Z.max 0 (- d) <? b * 2 ^ Z.max 0 d)%Z then (d - 1)%Z else d in
  Z.max (E - 52) (-1074).

(** [int(a / b)]. *)
Definition int_truediv (a b : Z) : Result Z :=
  if (b =? 0)%Z then Raise (ZeroDivisionError "division by zero")
  else if (a =? 0)%Z then Ok 0%Z
  else
    let s := (Z.sgn a * Z.sgn b)%Z in
    let x := Z.abs a in
    let y := Z.abs b in
    let e := ulp_exponent x y in
    let m := round_half_even (x * 2 ^ Z.max 0 (- e)) (y * 2 ^ Z.max 0 e) in
    if (0 <=? e)%Z then
      if (2 ^ 1024 <=? m * 2 ^ e)%Z then
        Raise (OverflowError "integer division result too large for a float")
      else Ok (s * (m * 2 ^ e))%Z
    else Ok (s * (m / 2 ^ (- e)))%Z.

(** A generator run to its end: the fragments it yielded, and [None] when
    it finished or [Some e] when [e] escaped from it. *)
Definition Gen : Type := (list string * option exception)%type.

(** Truthiness of the values the code tests with [if x:]. *)
Definition truthy_str (s : string) : bool :=
  match s with EmptyString => false | _ => true end.

Definition truthy_opt_str (s : option string) : bool :=
  match s with Some s => truthy_str s | None => false end.

Definition truthy_opt_list {A} (l : option (list A)) : bool :=
  match l with Some (_ :: _) => true | _ => false end.

(** [a or b] on optional strings. *)
Definition or_else (a b : option string) : option string :=
  if truthy_opt_str a then a else b.

(** The line feed of ["\n"]. *)
Definition nl : string := String "010"%char EmptyString.

(** The double quote character. *)
Definition dq : string := String "034"%char EmptyString.

(** Slices with non-negative bounds: [s[i:j]]; bounds past the end clamp. *)
Fixpoint str_take (n : nat) (s : string) : string :=
  match n, s with
  | S n', String c s' => String c (str_take n' s')
  | _, _ => EmptyString
  end.

Fixpoint str_drop (n : nat) (s : string) : string :=
  match n, s with
  | S n', String _ s' => str_drop n' s'
  | _, _ => s
  end.

Definition slice (s : string) (i j : nat) : string :=
  str_take (j - i) (str_drop i s).

(** [range(start, stop, step)] for a positive [step]: the loop variable
    starts at [start] and is advanced by [step] while it is below [stop].
    The fuel [stop - start] is never exhausted before the test fails
    (see [range_from_fuel]). *)
Fixpoint range_from (fuel i stop step : nat) : list nat :=
  match fuel with
  | O => []
  | S fuel' =>
      if (i <? stop)%nat then i :: range_from fuel' (i + step) stop step
      else []
  end.

Definition range (start stop step : nat) : list nat :=
  range_from (stop - start) start stop step.

(** [enumerate(l)]. *)
Definition enumerate {A} (l : list A) : list (Z * A) :=
  imap (fun i x => (Z.of_nat i, x)) l.

(** Insertion-ordered dictionaries. *)
Section odict.
Context {K V : Type} `{EqDecision K}.

Fixpoint od_get (k : K) (d : list (K * V)) : option V :=
  match d with
  | [] => None
  | (k', v) :: d' => if decide (k = k') then Some v else od_get k d'
  end.

(** [d[k] = v]: an existing key keeps its position. *)
Fixpoint od_set (k : K) (v : V) (d : list (K * V)) : list (K * V) :=
  match d with
  | [] => [(k, v)]
  | (k', v') :: d' =>
      if decide (k = k') then (k', v) :: d' else (k', v') :: od_set k v d'
  end.

Definition od_keys (d : list (K * V)) : list K := fst <$> d.

(** A dict comprehension or a sequence of assignments. *)
Definition od_of_list (l : list (K * V)) : list (K * V) :=
  fold_left (fun d kv => od_set kv.1 kv.2 d) l [].
End odict.

(** The values [json.dumps] is applied to. *)
#[local] Unset Elimination Schemes.
Inductive json : Type :=
  | JStr (s : string)
  | JList (l : list json)
  | JDict (d : list (string * json)).
#[local] Set Elimination Schemes.

End Py.

Import Py.

(** ** Provider adapters ([providers/base.py] and the four adapters) *)

Module Providers.

Inductive ProviderClass : Type :=
  | OllamaProvider
  | GeminiProvider
  | AnthropicProvider
  | OpenAIProvider.

Global Instance ProviderClass_eq_dec : EqDecision ProviderClass.
Proof. solve_decision. Defined.

Record ProviderCapabilities : Type := {
  supports_chat : bool;
  supports_streaming : bool;
  supports_embeddings : bool;
  supports_vision : bool;
  supports_function_calling : bool;
  max_context_length : Z;
  available_chat_models : list string;
  available_embedding_models : list string
}.

(** The attributes [BaseProvider.__init__] and the subclasses set. *)
Record Provider : Type := {
  cls : ProviderClass;
  api_key : option string;
  base_url : option string;
  _chat_model : option string;
  _embedding_model : option string
}.

Definition name (p : Provider) : string :=
  match cls p with
  | OllamaProvider => "ollama"
  | GeminiProvider => "gemini"
  | AnthropicProvider => "anthropic"
  | OpenAIProvider => "openai"
  end.

Definition capabilities_of (c : ProviderClass) : ProviderCapabilities :=
  match c with
  | OllamaProvider =>
      {| supports_chat := true; supports_streaming := true;
         supports_embeddings := true; supports_vision := true;
         supports_function_calling := false; max_context_length := 8192;
         available_chat_models := []; available_embedding_models := [] |}
  | GeminiProvider =>
      {| supports_chat := true; supports_streaming := true;
         supports_embeddings := true; supports_vision := true;
         supports_function_calling := true; max_context_length := 1048576;
         available_chat_models :=
           ["gemini-2.5-pro"; "gemini-3-flash-preview"; "gemini-3-pro-preview"];
         available_embedding_models := ["gemini-embedding-001"] |}
  | AnthropicProvider =>
      {| supports_chat := true; supports_streaming := true;
         supports_embeddings := false; supports_vision := true;
         supports_function_calling := true; max_context_length := 200000;
         available_chat_models :=
           ["claude-sonnet-4-5-20250929"; "claude-haiku-4-5-20251001";
            "claude-3-5-sonnet-latest"; "claude-3-5-haiku-latest";
            "claude-3-opus-latest"; "claude-3-sonnet-20240229";
            "claude-3-haiku-20240307"];
         available_embedding_models := [] |}
  | OpenAIProvider =>
      {| supports_chat := true; supports_streaming := true;
         supports_embeddings := true; supports_vision := true;
         supports_function_calling := true; max_context_length := 128000;
         available_chat_models :=
           ["gpt-5"; "gpt-5-nano"; "gpt-4.1"; "gpt-4.1-mini"; "gpt-4o";
            "gpt-4o-mini"; "gpt-4-turbo"; "gpt-4"; "gpt-3.5-turbo"; "o1";
            "o1-mini"];
         available_embedding_models :=
           ["text-embedding-3-small"; "text-embedding-3-large";
            "text-embedding-ada-002"] |}
  end.

(** The [capabilities] property of an instance. *)
Definition capabilities (p : Provider) : ProviderCapabilities :=
  capabilities_of (cls p).

Definition set_chat_model (model_name : string) (p : Provider) : Provider :=
  {| cls := cls p; api_key := api_key p; base_url := base_url p;
     _chat_model := Some model_name; _embedding_model := _embedding_model p |}.

Definition set_embedding_model (model_name : string) (p : Provider) : Provider :=
  {| cls := cls p; api_key := api_key p; base_url := base_url p;
     _chat_model := _chat_model p; _embedding_model := Some model_name |}.

(** [instance.api_key = api_key]. *)
Definition set_api_key (key : string) (p : Provider) : Provider :=
  {| cls := cls p; api_key := Some key; base_url := base_url p;
     _chat_model := _chat_model p; _embedding_model := _embedding_model p |}.

(** The LangChain embeddings object an adapter hands out: which client
    class it is and the keyword arguments it was built with. *)
Record Embeddings : Type := {
  emb_client : ProviderClass;
  emb_model : option string;
  emb_api_key : option string;
  emb_base_url : option string
}.

Section adapters.
(** [os.getenv]. *)
Variable getenv : string -> option string.

(** [cls(api_key=api_key)], with [api_key = None] for [cls()].  The
    constructor of [OllamaProvider] has no [api_key] parameter. *)
Definition construct (c : ProviderClass) (key : option string)
    : Result Provider :=
  match c with
  | OllamaProvider =>
      match key with
      | Some _ =>
          Raise (TypeError
            "OllamaProvider.__init__() got an unexpected keyword argument 'api_key'")
      | None =>
          Ok {| cls := OllamaProvider; api_key := None;
                base_url := Some (default "http://localhost:11434"
                                          (getenv "OLLAMA_HOST"));
                _chat_model := Some "llama3";
                _embedding_model := Some "nomic-embed-text" |}
      end
  | GeminiProvider =>
      Ok {| cls := GeminiProvider;
            api_key := or_else key (getenv "GOOGLE_API_KEY");
            base_url := None;
            _chat_model := Some "gemini-1.5-flash";
            _embedding_model := Some "gemini-embedding-001" |}
  | AnthropicProvider =>
      Ok {| cls := AnthropicProvider;
            api_key := or_else key (getenv "ANTHROPIC_API_KEY");
            base_url := None;
            _chat_model := Some "claude-sonnet-4-5-20250929";
            _embedding_model := None |}
  | OpenAIProvider =>
      Ok {| cls := OpenAIProvider;
            api_key := or_else key (getenv "OPENAI_API_KEY");
            base_url := or_else None (getenv "OPENAI_BASE_URL");
            _chat_model := Some "gpt-4.1-mini";
            _embedding_model := Some "text-embedding-3-small" |}
  end.

End adapters.

Section embeddings.
(** The constructors of the embeddings clients ([OllamaEmbeddings],
    [OpenAIEmbeddings], and [genai.Client] inside [GeminiEmbeddings])
    are outside the repository: [new_client args] is [Ok tt] when the
    constructor of the client class accepts these arguments, and the
    exception it raises otherwise (the OpenAI and the Gemini client
    refuse a missing key). *)
Variable new_client : Embeddings -> Result unit.

(** [get_embeddings(model_name)]. *)
Definition get_embeddings (p : Provider) (model_name : option string)
    : Result Embeddings :=
  match cls p with
  | AnthropicProvider =>
      Raise (NotImplementedError
        ("Anthropic does not provide embedding models. " +:+
         "Use a different provider (Ollama, OpenAI, or Gemini) for embeddings."))
  | OllamaProvider =>
      let args :=
        {| emb_client := OllamaProvider;
           emb_model := or_else model_name (_embedding_model p);
           emb_api_key := None; emb_base_url := base_url p |} in
      _ ← new_client args; Ok args
  | OpenAIProvider =>
      let args :=
        {| emb_client := OpenAIProvider;
           emb_model := or_else model_name (_embedding_model p);
           emb_api_key := api_key p;
           emb_base_url :=
             if truthy_opt_str (base_url p) then base_url p else None |} in
      _ ← new_client args; Ok args
  | GeminiProvider =>
      let args :=
        {| emb_client := GeminiProvider;
           emb_model := or_else model_name (_embedding_model p);
           emb_api_key := api_key p; emb_base_url := None |} in
      _ ← new_client args; Ok args
  end.

Section embedding_calls.
(** The embedding vectors and the two calls of the LangChain
    [Embeddings] interface the base class awaits. *)
Context {Vector : Type}.
Variable aembed_query : Embeddings -> string -> Result Vector.
Variable aembed_documents : Embeddings -> list string -> Result (list Vector).

Definition embed_text (p : Provider) (text : string)
    (model_name : option string) : Result Vector :=
  embeddings ← get_embeddings p model_name;
  aembed_query embeddings text.

Definition embed_documents (p : Provider) (texts : list string)
    (model_name : option string) : Result (list Vector) :=
  embeddings ← get_embeddings p model_name;
  aembed_documents embeddings texts.
End embedding_calls.
End embeddings.

End Providers.

(** ** Provider registry ([providers/registry.py]) *)

Module Registry.

Import Providers.

(** The class attribute [PROVIDERS]. *)
Definition PROVIDERS : list (string * ProviderClass) :=
  [("ollama", OllamaProvider); ("gemini", GeminiProvider);
   ("anthropic", AnthropicProvider); ("openai", OpenAIProvider)].

Record ProviderRegistry : Type := {
  _instances : gmap string Provider;
  _chat_provider_name : string;
  _chat_model : option string;
  _embedding_provider_name : string;
  _embedding_model : option string
}.

(** [ProviderRegistry()]. *)
Definition init : ProviderRegistry :=
  {| _instances := ∅; _chat_provider_name := "ollama"; _chat_model := None;
     _embedding_provider_name := "ollama"; _embedding_model := None |}.

Definition with_instances (reg : ProviderRegistry)
    (m : gmap string Provider) : ProviderRegistry :=
  {| _instances := m; _chat_provider_name := _chat_provider_name reg;
     _chat_model := _chat_model reg;
     _embedding_provider_name := _embedding_provider_name reg;
     _embedding_model := _embedding_model reg |}.

(** The settings dictionary of [configure_from_settings]: [None] for an
    absent key; [api_keys] in iteration order. *)
Record Settings : Type := {
  chat_provider : option string;
  chat_model : option string;
  embedding_provider : option string;
  embedding_model : option string;
  api_keys : option (list (string * string))
}.

Section registry.
Variable getenv : string -> option string.

Definition get_provider (name : string) (reg : ProviderRegistry)
    : Result Provider * ProviderRegistry :=
  match od_get name PROVIDERS with
  | None =>
      (Raise (ValueError ("Unknown provider: " +:+ name +:+
                ". Available: ['ollama', 'gemini', 'anthropic', 'openai']")),
       reg)
  | Some c =>
      match _instances reg !! name with
      | Some p => (Ok p, reg)
      | None =>
          match construct getenv c None with
          | Ok p => (Ok p, with_instances reg (<[name := p]> (_instances reg)))
          | Raise e => (Raise e, reg)
          end
      end
  end.

Definition set_chat_provider (provider_name : string)
    (model_name : option string) (reg : ProviderRegistry)
    : Result unit * ProviderRegistry :=
  match od_get provider_name PROVIDERS with
  | None => (Raise (ValueError ("Unknown provider: " +:+ provider_name)), reg)
  | Some _ =>
      let reg1 :=
        {| _instances := _instances reg;
           _chat_provider_name := provider_name;
           _chat_model := model_name;
           _embedding_provider_name := _embedding_provider_name reg;
           _embedding_model := _embedding_model reg |} in
      match model_name with
      | Some m =>
          if truthy_str m then
            match get_provider provider_name reg1 with
            | (Ok provider, reg2) =>
                (Ok tt,
                 with_instances reg2
                   (<[provider_name := set_chat_model m provider]>
                      (_instances reg2)))
            | (Raise e, reg2) => (Raise e, reg2)
            end
          else (Ok tt, reg1)
      | None => (Ok tt, reg1)
      end
  end.

Definition set_embedding_provider (provider_name : string)
    (model_name : option string) (reg : ProviderRegistry)
    : Result unit * ProviderRegistry :=
  match od_get provider_name PROVIDERS with
  | None => (Raise (ValueError ("Unknown provider: " +:+ provider_name)), reg)
  | Some _ =>
      match get_provider provider_name reg with
      | (Raise e, reg1) => (Raise e, reg1)
      | (Ok provider, reg1) =>
          if negb (supports_embeddings (capabilities provider)) then
            (Raise (ValueError ("Provider " +:+ provider_name +:+
                                " does not support embeddings")), reg1)
          else
            let reg2 :=
              {| _instances := _instances reg1;
                 _chat_provider_name := _chat_provider_name reg1;
                 _chat_model := _chat_model reg1;
                 _embedding_provider_name := provider_name;
                 _embedding_model := model_name |} in
            match model_name with
            | Some m =>
                if truthy_str m then
                  (Ok tt,
                   with_instances reg2
                     (<[provider_name := set_embedding_model m provider]>
                        (_instances reg2)))
                else (Ok tt, reg2)
            | None => (Ok tt, reg2)
            end
      end
  end.

Definition get_chat_provider (reg : ProviderRegistry)
    : Result Provider * ProviderRegistry :=
  get_provider (_chat_provider_name reg) reg.

Definition get_embedding_provider (reg : ProviderRegistry)
    : Result Provider * ProviderRegistry :=
  get_provider (_embedding_provider_name reg) reg.

(** The first loop of [configure_from_settings]. *)
Fixpoint set_api_keys (keys : list (string * string))
    (reg : ProviderRegistry) : Result unit * ProviderRegistry :=
  match keys with
  | [] => (Ok tt, reg)
  | (provider_name, key) :: rest =>
      match _instances reg !! provider_name with
      | Some p =>
          set_api_keys rest
            (with_instances reg
               (<[provider_name := set_api_key key p]> (_instances reg)))
      | None =>
          match od_get provider_name PROVIDERS with
          | Some c =>
              match construct getenv c (Some key) with
              | Ok p =>
                  set_api_keys rest
                    (with_instances reg
                       (<[provider_name := p]> (_instances reg)))
              | Raise e => (Raise e, reg)
              end
          | None => set_api_keys rest reg
          end
      end
  end.

Definition configure_from_settings (settings : Settings)
    (reg : ProviderRegistry) : Result unit * ProviderRegistry :=
  match set_api_keys (default [] (api_keys settings)) reg with
  | (Raise e, reg1) => (Raise e, reg1)
  | (Ok _, reg1) =>
      match set_chat_provider (default "ollama" (chat_provider settings))
              (chat_model settings) reg1 with
      | (Raise e, reg2) => (Raise e, reg2)
      | (Ok _, reg2) =>
          match set_embedding_provider
                  (default "ollama" (embedding_provider settings))
                  (embedding_model settings) reg2 with
          | (Raise e, reg3) =>
              if is_ValueError e then
                set_embedding_provider "ollama" (embedding_model settings) reg3
              else (Raise e, reg3)
          | (Ok _, reg3) => (Ok tt, reg3)
          end
      end
  end.
End registry.

End Registry.

(** ** Retrieval, citations and streaming ([chains/rag_chain.py]) *)

Module RagChain.

Import Providers Registry.

Record CitationInfo : Type := {
  cit_id : Z;
  source_name : string;
  excerpts : list string
}.

(** A LangChain [Document]; of its metadata only the string entry
    ["source_name"] is read. *)
Record Document : Type := {
  page_content : string;
  metadata : gmap string string
}.

(** The [where] filters the code builds as dict literals:
    [{key: value}], [{key: {"$in": values}}] and [{"$and": [...]}]. *)
#[local] Unset Elimination Schemes.
Inductive Filter : Type :=
  | FEq (key value : string)
  | FIn (key : string) (values : list string)
  | FAnd (clauses : list Filter).
#[local] Set Elimination Schemes.

(** One call [vectorstore.similarity_search(query, k=k, filter=filter)]. *)
Record SearchCall : Type := {
  call_query : string;
  call_k : Z;
  call_filter : Filter
}.

(** The vector store, seen through [similarity_search]. *)
Definition VectorStore : Type :=
  string -> Z -> Filter -> Result (list Document).

(** A chat message [{"role": ..., "content": ...}]. *)
Abbreviation Message := (gmap string string).

(** The collaborators outside the repository: the process environment,
    the constructors of the embeddings clients, the Chroma client
    ([chromadb.HttpClient] and [Chroma(...)]), the chat backends behind
    [stream_chat], and [json.dumps]. *)
Record World : Type := {
  getenv : string -> option string;
  embeddings_client : Embeddings -> Result unit;
  chroma : string -> Z -> string -> Embeddings -> Result VectorStore;
  stream_chat : Provider -> list Message -> Gen;
  json_dumps : json -> string
}.

(** The attributes of a [RAGChain]; [registry] is the process-wide
    registry object the chain holds a reference to. *)
Record RAGChain : Type := {
  registry : ProviderRegistry;
  collection_name : string;
  _vectorstore : option VectorStore;
  _chroma_host : string;
  _chroma_port : Z
}.

Definition with_registry (self : RAGChain) (reg : ProviderRegistry) : RAGChain :=
  {| registry := reg; collection_name := collection_name self;
     _vectorstore := _vectorstore self; _chroma_host := _chroma_host self;
     _chroma_port := _chroma_port self |}.

Definition with_vectorstore (self : RAGChain) (vs : VectorStore) : RAGChain :=
  {| registry := registry self; collection_name := collection_name self;
     _vectorstore := Some vs; _chroma_host := _chroma_host self;
     _chroma_port := _chroma_port self |}.

Definition SYSTEM_PROMPT_head : string :=
  String.concat nl
    ["You are a helpful AI assistant. Answer the user's question using ONLY the provided context.";
     EmptyString;
     "STRICT CITATION RULES:";
     "- The context below contains data from sources marked with IDs like [1], [2].";
     "- You must cite every statement using the corresponding [ID].";
     "- Look for `--- BEGIN SOURCE [ID] ---`. Content from that block MUST be cited as [ID].";
     "- NEVER write the source name or filename in your text.";
     "- INCORRECT: " +:+ dq +:+ "According to video.mp3 [1], vectors are arrows." +:+ dq;
     "- CORRECT: " +:+ dq +:+ "Vectors are defined as arrows in space [1]." +:+ dq;
     EmptyString;
     "FORMATTING RULES:";
     "- Use Markdown formatting.";
     "- Use **bold** for key concepts.";
     "- Use bullet points for lists.";
     "- Keep output clean and professional.";
     EmptyString;
     "Context with Citation IDs:";
     EmptyString].

Definition SYSTEM_PROMPT_tail : string :=
  String.concat nl
    [EmptyString; EmptyString; "Remember: [1], [2] only. No filenames."].

(** [SYSTEM_PROMPT.format(context=context)]. *)
Definition SYSTEM_PROMPT_format (context : string) : string :=
  SYSTEM_PROMPT_head +:+ context +:+ SYSTEM_PROMPT_tail.

(** The f-string of one context block. *)
Definition source_block (cid : Z) (name content : string) : string :=
  "--- BEGIN SOURCE [" +:+ pretty cid +:+ "] (" +:+ name +:+ ") ---" +:+ nl +:+
  content +:+ nl +:+
  "--- END SOURCE [" +:+ pretty cid +:+ "] ---".

(** [text[:300] + "..." if len(text) > 300 else text]. *)
Definition excerpt_of (text : string) : string :=
  if (300 <? String.length text)%nat then slice text 0 300 +:+ "..."
  else text.

(** [doc.metadata.get("source_name", "Unknown")]. *)
Definition doc_source_name (doc : Document) : string :=
  default "Unknown" (metadata doc !! "source_name").

(** The variables of the citation loop of [retrieve_context]. *)
Record Assembly : Type := {
  context_parts : list string;
  source_map : gmap string Z;
  citation_info : list (Z * CitationInfo);
  citation_counter : Z
}.

Definition assembly_init : Assembly :=
  {| context_parts := []; source_map := ∅; citation_info := [];
     citation_counter := 1 |}.

(** The [if source_name not in source_map:] block. *)
Definition assign_citation (name : string) (st : Assembly) : Assembly :=
  match source_map st !! name with
  | Some _ => st
  | None =>
      {| context_parts := context_parts st;
         source_map := <[name := citation_counter st]> (source_map st);
         citation_info :=
           od_set (citation_counter st)
             {| cit_id := citation_counter st; source_name := name;
                excerpts := [] |}
             (citation_info st);
         citation_counter := citation_counter st + 1 |}
  end.

(** One iteration of [for doc in results:]; the two subscripts raise
    [KeyError] on a missing key. *)
Definition assemble_step (st : Assembly) (doc : Document) : Result Assembly :=
  let name := doc_source_name doc in
  let st1 := assign_citation name st in
  match source_map st1 !! name with
  | None => Raise (KeyError name)
  | Some cid =>
      let excerpt := excerpt_of (page_content doc) in
      match od_get cid (citation_info st1) with
      | None => Raise (KeyError (pretty cid))
      | Some info =>
          Ok {| context_parts :=
                  context_parts st1 ++
                  [source_block cid name (page_content doc)];
                source_map := source_map st1;
                citation_info :=
                  od_set cid
                    {| cit_id := cit_id info; source_name := source_name info;
                       excerpts := excerpts info ++ [excerpt] |}
                    (citation_info st1);
                citation_counter := citation_counter st1 |}
      end
  end.

Fixpoint assemble (results : list Document) (st : Assembly) : Result Assembly :=
  match results with
  | [] => Ok st
  | doc :: rest => st' ← assemble_step st doc; assemble rest st'
  end.

(** [max(3, int(n_results / len(selected_sources)) + 1)]: the division
    is the true division of the interpreter, taken in floating point. *)
Definition per_source_k (n_results : Z) (selected : list string) : Result Z :=
  q ← int_truediv n_results (Z.of_nat (length selected));
  Ok (Z.max 3 (q + 1)).

Definition source_filter (notebook_id source : string) : Filter :=
  FAnd [FEq "notebook_id" notebook_id; FEq "source_name" source].

Definition filter_dict (notebook_id : string)
    (selected_sources : option (list string)) : Filter :=
  if truthy_opt_list selected_sources then
    FAnd [FEq "notebook_id" notebook_id;
          FIn "source_name" (default [] selected_sources)]
  else FEq "notebook_id" notebook_id.

(** The balanced loop: one search per source; a search that raises is
    logged and skipped. *)
Fixpoint balanced_search (vs : VectorStore) (notebook_id query : string)
    (k : Z) (sources : list string) : list SearchCall * list Document :=
  match sources with
  | [] => ([], [])
  | source :: rest =>
      let flt := source_filter notebook_id source in
      let call := {| call_query := query; call_k := k; call_filter := flt |} in
      let '(calls, docs) := balanced_search vs notebook_id query k rest in
      match vs query k flt with
      | Ok source_docs => (call :: calls, source_docs ++ docs)
      | Raise _ => (call :: calls, docs)
      end
  end.

(** The mode test [selected_sources and len(selected_sources) <= 5]. *)
Definition balanced_mode (selected_sources : option (list string)) : bool :=
  truthy_opt_list selected_sources &&
  (length (default [] selected_sources) <=? 5)%nat.

(** The searches of [retrieve_context] and the result list they give;
    in balanced mode the per-source count is computed before the loop,
    outside the [try]. *)
Definition search (vs : VectorStore) (notebook_id query : string)
    (selected_sources : option (list string)) (n_results : Z)
    : list SearchCall * Result (list Document) :=
  if balanced_mode selected_sources then
    let sources := default [] selected_sources in
    match per_source_k n_results sources with
    | Raise e => ([], Raise e)
    | Ok k =>
        let '(calls, docs) :=
          balanced_search vs notebook_id query k sources in
        (calls, Ok docs)
    end
  else
    let flt := filter_dict notebook_id selected_sources in
    ([{| call_query := query; call_k := n_results; call_filter := flt |}],
     vs query n_results flt).

Section chain.
Variable w : World.

Definition _get_vectorstore (self : RAGChain) : Result VectorStore * RAGChain :=
  match _vectorstore self with
  | Some vs => (Ok vs, self)
  | None =>
      match get_embedding_provider (getenv w) (registry self) with
      | (Raise e, reg) => (Raise e, with_registry self reg)
      | (Ok embedding_provider, reg) =>
          let self1 := with_registry self reg in
          match get_embeddings (embeddings_client w) embedding_provider
                  None with
          | Raise e => (Raise e, self1)
          | Ok embeddings =>
              match chroma w (_chroma_host self1) (_chroma_port self1)
                      (collection_name self1) embeddings with
              | Raise e => (Raise e, self1)
              | Ok vs => (Ok vs, with_vectorstore self1 vs)
              end
          end
      end
  end.

(** [retrieve_context]: the searches issued, the returned pair (or the
    exception), and the chain afterwards. *)
Definition retrieve_context (self : RAGChain) (notebook_id query : string)
    (selected_sources : option (list string)) (n_results : Z)
    : list SearchCall * Result (string * list (Z * CitationInfo)) * RAGChain :=
  match _get_vectorstore self with
  | (Raise e, self1) => ([], Raise e, self1)
  | (Ok vs, self1) =>
      let '(calls, found) :=
        search vs notebook_id query selected_sources n_results in
      (calls,
       results ← found;
       st ← assemble results assembly_init;
       Ok (String.concat (nl +:+ nl) (context_parts st), citation_info st),
       self1)
  end.
(** The full-context branch of [stream_response]: the loop over
    [enumerate(full_source_content)], from empty [context_parts] and
    an empty [citation_info]. *)
Definition full_context_step
    (acc : list string * list (Z * CitationInfo))
    (entry : Z * gmap string string) : list string * list (Z * CitationInfo) :=
  let '(i, src) := entry in
  let cid := (i + 1)%Z in
  let content := default EmptyString (src !! "content") in
  let name := default "Unknown" (src !! "name") in
  (acc.1 ++ [source_block cid name content],
   od_set cid
     {| cit_id := cid; source_name := name;
        excerpts := ["(Full document context used)"] |}
     acc.2).

Definition full_context (full_source_content : list (gmap string string))
    : string * list (Z * CitationInfo) :=
  let acc := fold_left full_context_step (enumerate full_source_content)
               ([], []) in
  (String.concat (nl +:+ nl) acc.1, acc.2).

(** [messages[-1]["content"]]. *)
Definition latest_user_message (messages : list Message) : Result string :=
  match last messages with
  | None => Raise (IndexError "list index out of range")
  | Some m =>
      match m !! "content" with
      | None => Raise (KeyError "'content'")
      | Some c => Ok c
      end
  end.

(** The first half of [stream_response], up to the assembled context
    and citation map. *)
Definition build_context (self : RAGChain) (notebook_id : string)
    (messages : list Message) (selected_sources : option (list string))
    (full_source_content : option (list (gmap string string)))
    : list SearchCall * Result (string * list (Z * CitationInfo)) * RAGChain :=
  match latest_user_message messages with
  | Raise e => ([], Raise e, self)
  | Ok user_message =>
      if truthy_opt_list full_source_content then
        ([], Ok (full_context (default [] full_source_content)), self)
      else
        retrieve_context self notebook_id user_message selected_sources 10
  end.

(** The trailing citation payload. *)
Definition citation_data (citation_info : list (Z * CitationInfo))
    : list (string * json) :=
  od_of_list
    ((fun entry : Z * CitationInfo =>
        (pretty entry.1,
         JDict [("name", JStr (source_name entry.2));
                ("excerpts", JList (JStr <$> excerpts entry.2))]))
     <$> citation_info).

Definition CITATIONS_SENTINEL : string :=
  nl +:+ nl +:+ "---CITATIONS---" +:+ nl.

Definition citation_footer (citation_info : list (Z * CitationInfo))
    : list string :=
  match citation_info with
  | [] => []
  | _ :: _ =>
      [CITATIONS_SENTINEL; json_dumps w (JDict (citation_data citation_info))]
  end.

Definition augmented_messages (context : string) (messages : list Message)
    : list Message :=
  {[ "role" := "system"; "content" := SYSTEM_PROMPT_format context ]}
  :: messages.

(** [stream_response] run to its end: the searches issued, the
    fragments yielded with the way the generator ended, and the chain
    afterwards. *)
Definition stream_response (self : RAGChain) (notebook_id : string)
    (messages : list Message) (selected_sources : option (list string))
    (full_source_content : option (list (gmap string string)))
    : list SearchCall * Gen * RAGChain :=
  match build_context self notebook_id messages selected_sources
          full_source_content with
  | (calls, Raise e, self1) => (calls, ([], Some e), self1)
  | (calls, Ok (context, citation_info), self1) =>
      match get_chat_provider (getenv w) (registry self1) with
      | (Raise e, reg) => (calls, ([], Some e), with_registry self1 reg)
      | (Ok chat_provider, reg) =>
          let self2 := with_registry self1 reg in
          match stream_chat w chat_provider
                  (augmented_messages context messages) with
          | (fragments, Some e) => (calls, (fragments, Some e), self2)
          | (fragments, None) =>
              (calls, (fragments ++ citation_footer citation_info, None),
               self2)
          end
      end
  end.
End chain.

End RagChain.

(** ** The module-level entry points ([rag.py]) *)

Module Rag.

Import Providers Registry RagChain.

Definition chunk_size : nat := 500.
Definition overlap : nat := 50.

(** The chunk list built by the first loop of [_legacy_process_document]. *)
Definition legacy_chunks (content : string) : list string :=
  map (fun i => slice content i (i + chunk_size))
      (range 0 (String.length content) (chunk_size - overlap)).

(** [stream_chat_response], with [get_rag_chain()] giving [chain]: every
    fragment of [stream_response] is passed on, and an exception that
    escapes from it is turned into one more fragment. *)
Definition stream_chat_response (w : World) (chain : RAGChain)
    (notebook_id : string) (messages : list Message)
    (selected_sources : option (list string))
    (full_source_content : option (list (gmap string string)))
    : list SearchCall * Gen * RAGChain :=
  let '(calls, (fragments, outcome), chain1) :=
    stream_response w chain notebook_id messages selected_sources
      full_source_content in
  match outcome with
  | None => (calls, (fragments, None), chain1)
  | Some e =>
      (calls,
       (fragments ++ ["Error generating response: " +:+ str_of_exception e],
        None),
       chain1)
  end.

End Rag.

(** * Properties *)

(** ** Facts about the Python primitives *)

Module PyFacts.

Lemma str_take_length n s :
  String.length (str_take n s) = Nat.min n (String.length s).
Proof.
  revert s; induction n as [|n IH]; intros [|c s]; simpl; auto.
Qed.

Lemma str_drop_length n s :
  String.length (str_drop n s) = (String.length s - n)%nat.
Proof.
  revert s; induction n as [|n IH]; intros [|c s]; simpl; auto.
Qed.

Lemma str_app_cons c s t : String c s +:+ t = String c (s +:+ t).
Proof. reflexivity. Qed.

Lemma str_app_nil_l t : EmptyString +:+ t = t.
Proof. reflexivity. Qed.

Lemma str_take_drop n s : str_take n s +:+ str_drop n s = s.
Proof.
  revert s; induction n as [|n IH]; intros [|c s]; simpl; auto.
  by rewrite str_app_cons, IH.
Qed.

Lemma str_drop_drop n m s : str_drop m (str_drop n s) = str_drop (n + m) s.
Proof.
  revert s; induction n as [|n IH]; intros s; simpl; auto.
  destruct s as [|c s]; simpl; auto.
  by destruct m.
Qed.

Lemma str_take_take n m s :
  str_take n (str_take m s) = str_take (Nat.min n m) s.
Proof.
  revert m s; induction n as [|n IH]; intros [|m] [|c s]; simpl; auto.
  by rewrite IH.
Qed.

Lemma str_drop_take n m s :
  str_drop n (str_take m s) = str_take (m - n) (str_drop n s).
Proof.
  revert m s; induction n as [|n IH]; intros [|m] [|c s]; simpl; auto.
  by destruct (m - n)%nat.
Qed.

Lemma str_take_all n s : (String.length s <= n)%nat -> str_take n s = s.
Proof.
  revert s; induction n as [|n IH]; intros [|c s]; simpl; auto; try lia.
  intros H. rewrite IH; auto. lia.
Qed.

Lemma str_drop_all n s :
  (String.length s <= n)%nat -> str_drop n s = EmptyString.
Proof.
  revert s; induction n as [|n IH]; intros [|c s]; simpl; auto; try lia.
  intros H. apply IH. lia.
Qed.

Lemma str_app_nil_r s : s +:+ EmptyString = s.
Proof.
  induction s as [|c s IH]; [done|]. by rewrite str_app_cons, IH.
Qed.

Lemma str_app_length s t :
  String.length (s +:+ t) = (String.length s + String.length t)%nat.
Proof.
  induction s as [|c s IH]; [done|]. rewrite str_app_cons. simpl. by rewrite IH.
Qed.

Lemma str_concat_cons s l :
  String.concat EmptyString (s :: l) = s +:+ String.concat EmptyString l.
Proof. destruct l; simpl; auto. by rewrite str_app_nil_r. Qed.

(** Division rounded up. *)
Definition ceil_div (a b : nat) : nat := ((a + b - 1) / b)%nat.

Lemma ceil_div_0 b : (0 < b)%nat -> ceil_div 0 b = 0%nat.
Proof. intros Hb. unfold ceil_div. apply Nat.div_small. lia. Qed.

Lemma ceil_div_step a b :
  (0 < b)%nat -> (0 < a)%nat -> ceil_div a b = S (ceil_div (a - b) b).
Proof.
  intros Hb Ha. unfold ceil_div.
  destruct (le_lt_dec b a) as [Hle|Hlt].
  - replace (a + b - 1)%nat with ((a - b + b - 1) + 1 * b)%nat by lia.
    rewrite Nat.div_add by lia. lia.
  - replace (a - b)%nat with 0%nat by lia.
    rewrite (Nat.div_small (0 + b - 1) b) by lia.
    replace (a + b - 1)%nat with ((a - 1) + 1 * b)%nat by lia.
    rewrite Nat.div_add by lia. rewrite Nat.div_small by lia. lia.
Qed.

(** [range] enumerates [i, i + step, ...] below [stop]; with at least
    [stop - i] units of fuel the end of the list is the failed loop test. *)
Lemma range_from_fuel fuel i stop step :
  (0 < step)%nat -> (stop - i <= fuel)%nat ->
  range_from fuel i stop step =
  map (fun j => (i + j * step)%nat) (seq 0 (ceil_div (stop - i) step)).
Proof.
  intros Hstep. revert i. induction fuel as [|fuel IH]; intros i Hfuel.
  - replace (stop - i)%nat with 0%nat by lia. by rewrite ceil_div_0.
  - simpl. destruct (Nat.ltb_spec i stop) as [Hlt|Hge].
    + rewrite IH by lia.
      rewrite (ceil_div_step (stop - i) step) by lia.
      replace (stop - i - step)%nat with (stop - (i + step))%nat by lia.
      simpl. f_equal; [lia|].
      rewrite <- seq_shift, map_map. apply map_ext. intros j. lia.
    + replace (stop - i)%nat with 0%nat by lia. by rewrite ceil_div_0.
Qed.

Lemma range_spec stop step :
  (0 < step)%nat ->
  range 0 stop step = map (fun j => (j * step)%nat) (seq 0 (ceil_div stop step)).
Proof.
  intros Hstep. unfold range. rewrite range_from_fuel by lia.
  by rewrite Nat.sub_0_r.
Qed.

Section odict_facts.
Context {K V : Type} `{EqDecision K}.
Implicit Types (d : list (K * V)) (k : K) (v : V).

Lemma od_get_None d k : od_get k d = None <-> k ∉ od_keys d.
Proof.
  induction d as [|[k' v'] d IH]; simpl.
  - split; [intros _; apply not_elem_of_nil | done].
  - rewrite not_elem_of_cons. destruct (decide (k = k')) as [->|Hne].
    + split; [done | intros [? _]; done].
    + rewrite IH. unfold od_keys. tauto.
Qed.

Lemma od_set_fresh d k v : k ∉ od_keys d -> od_set k v d = d ++ [(k, v)].
Proof.
  induction d as [|[k' v'] d IH]; simpl; [done|].
  rewrite not_elem_of_cons. intros [Hne Hnin].
  destruct (decide (k = k')); [done|]. by rewrite IH.
Qed.

Lemma od_of_list_nodup (l : list (K * V)) :
  NoDup (od_keys l) -> od_of_list l = l.
Proof.
  unfold od_of_list, od_keys.
  cut (forall acc, NoDup (fst <$> (acc ++ l)) ->
                   fold_left (fun d kv => od_set kv.1 kv.2 d) l acc = acc ++ l).
  { intros Hcut Hnd. by apply (Hcut []). }
  induction l as [|[k v] l IH]; intros acc Hnd; simpl.
  - by rewrite app_nil_r.
  - rewrite od_set_fresh.
    + rewrite IH; rewrite <- app_assoc; done.
    + rewrite fmap_app in Hnd. apply NoDup_app in Hnd as (_ & Hdisj & _).
      intros Hin. apply (Hdisj k Hin). simpl. left.
Qed.

Lemma od_get_lookup d k v i :
  NoDup (od_keys d) -> d !! i = Some (k, v) -> od_get k d = Some v.
Proof.
  revert i. induction d as [|[k' v'] d IH]; intros i Hnd Hi; [done|].
  simpl in *. apply NoDup_cons in Hnd as [Hnin Hnd].
  destruct i as [|i]; simpl in Hi.
  - inversion Hi; subst. by rewrite decide_True.
  - destruct (decide (k = k')) as [->|Hne]; [|by eapply IH].
    exfalso. apply Hnin.
    apply (list_elem_of_fmap_2 fst d (k', v)).
    eapply list_elem_of_lookup_2; eauto.
Qed.
End odict_facts.

(** *** True division *)

Lemma round_half_even_cases num den :
  (0 < den)%Z ->
  round_half_even num den = (num / den)%Z \/
  (round_half_even num den = (num / den + 1)%Z /\
   (den <= 2 * (num mod den))%Z).
Proof.
  intros Hden. unfold round_half_even. cbv zeta.
  destruct (2 * (num mod den) <? den)%Z eqn:H1; [by left|].
  destruct (den <? 2 * (num mod den))%Z eqn:H2.
  - right. split; [done|]. apply Z.ltb_lt in H2. lia.
  - destruct (Z.even (num / den)); [by left|right].
    split; [done|]. apply Z.ltb_ge in H1. lia.
Qed.

(** Scaling the quotient [x / s] by a power [p] of two with [s < 2 p],
    rounding it and truncating it back gives the floor of [x / s]:
    rounding never reaches the next integer. *)
Lemma round_scaled_floor x s p :
  (0 <= x)%Z -> (0 < s)%Z -> (0 < p)%Z -> (s < 2 * p)%Z ->
  (round_half_even (x * p) s / p = x / s)%Z.
Proof.
  intros Hx Hs Hp Hsp.
  pose proof (Z.div_mod x s ltac:(lia)) as Hxd.
  pose proof (Z.mod_pos_bound x s Hs) as Hxm.
  pose proof (Z.div_mod (x * p) s ltac:(lia)) as Hnd.
  pose proof (Z.mod_pos_bound (x * p) s Hs) as Hnm.
  set (k := (x / s)%Z) in *. set (rho := (x mod s)%Z) in *.
  set (q := (x * p / s)%Z) in *. set (r := ((x * p) mod s)%Z) in *.
  assert (Hq1 : (k * p <= q)%Z).
  { apply Z.div_le_lower_bound; [lia|]. nia. }
  assert (Hq2 : (q < (k + 1) * p)%Z).
  { apply Z.div_lt_upper_bound; [lia|]. nia. }
  symmetry. apply Z.div_unique_pos with
    (r := (round_half_even (x * p) s - k * p)%Z); [|lia].
  destruct (round_half_even_cases (x * p) s Hs) as [->|[-> Hup]].
  - fold q. lia.
  - fold q. fold r in Hup. split; [lia|].
    destruct (decide (q + 1 < (k + 1) * p)%Z) as [|Hbad]; [lia|].
    exfalso. assert (Hq : q = ((k + 1) * p - 1)%Z) by lia.
    assert (Hrs : (s - r = (s - rho) * p)%Z) by nia.
    assert (1 <= s - rho)%Z by lia.
    nia.
Qed.

(** Below 2^53 and for a divisor from 1 to 5 the float quotient
    truncates to the integer quotient. *)
Lemma int_truediv_exact n s :
  (Z.abs n < 2 ^ 53)%Z -> (1 <= s <= 5)%Z ->
  int_truediv n s = Ok (Z.quot n s).
Proof.
  intros Hn Hs. unfold int_truediv.
  destruct (Z.eqb_spec s 0) as [|_]; [lia|].
  destruct (Z.eqb_spec n 0) as [->|Hn0]; [by rewrite Z.quot_0_l by lia|].
  cbv zeta.
  set (x := Z.abs n). assert (Hx : (1 <= x < 2 ^ 53)%Z) by lia.
  rewrite (Z.abs_eq s) by lia.
  assert (Hls : (0 <= Z.log2 s <= 2)%Z).
  { split; [apply Z.log2_nonneg|].
    assert (Z.log2 s < 3)%Z; [|lia]. apply Z.log2_lt_pow2; lia. }
  assert (Hlx : (0 <= Z.log2 x <= 52)%Z).
  { split; [apply Z.log2_nonneg|].
    assert (Z.log2 x < 53)%Z; [|lia]. apply Z.log2_lt_pow2; lia. }
  assert (Hslt : (s < 2 ^ (Z.log2 s + 1))%Z).
  { pose proof (Z.log2_spec s ltac:(lia)) as H.
    replace (Z.log2 s + 1)%Z with (Z.succ (Z.log2 s)) by lia. lia. }
  assert (He : (- 55 <= ulp_exponent x s <= - Z.log2 s)%Z).
  { unfold ulp_exponent. cbv zeta. destruct (_ <? _)%Z; lia. }
  set (e := ulp_exponent x s) in *.
  assert (Hquot : Z.quot n s = (Z.sgn n * Z.sgn s * (x / s))%Z).
  { unfold x. rewrite (Z.quot_div n s) by lia.
    by rewrite (Z.abs_eq s) by lia. }
  assert (Hpow : (s < 2 * 2 ^ (- e))%Z).
  { replace (2 * 2 ^ (- e))%Z with (2 ^ (- e + 1))%Z
      by (rewrite Z.pow_add_r by lia; lia).
    eapply Z.lt_le_trans; [exact Hslt|].
    apply Z.pow_le_mono_r; lia. }
  destruct (Z.leb_spec 0 e) as [He0|He0].
  - assert (He1 : e = 0%Z) by lia.
    assert (Hs1 : s = 1%Z) by (rewrite He1 in Hpow; simpl in Hpow; lia).
    subst s. rewrite He1. simpl Z.max. rewrite !Z.pow_0_r, !Z.mul_1_r.
    assert (Hm : round_half_even x 1 = x).
    { unfold round_half_even. rewrite Z.mod_1_r, Z.div_1_r. reflexivity. }
    rewrite Hm.
    destruct (Z.leb_spec (2 ^ 1024) x) as [Hbig|_].
    { exfalso.
      assert (2 ^ 53 < 2 ^ 1024)%Z by (apply Z.pow_lt_mono_r; lia). lia. }
    rewrite Hquot, Z.div_1_r. do 2 f_equal. simpl. lia.
  - rewrite (Z.max_r 0 (- e)) by lia. rewrite (Z.max_l 0 e) by lia.
    rewrite Z.pow_0_r, Z.mul_1_r.
    rewrite (round_scaled_floor x s (2 ^ (- e)));
      [by rewrite Hquot|lia|lia| |lia].
    apply Z.pow_pos_nonneg; lia.
Qed.


End PyFacts.

(** ** Chunking *)

Module ChunkingFacts.

Import PyFacts Rag.

Lemma slice_window content i n :
  slice content i (i + n) = str_take n (str_drop i content).
Proof. unfold slice. by replace (i + n - i)%nat with n by lia. Qed.

(** The chunks are the windows of 500 characters at the multiples of 450. *)
Lemma legacy_chunks_spec content :
  legacy_chunks content =
  (fun j => str_take 500 (str_drop (j * 450) content)) <$>
    seq 0 (ceil_div (String.length content) 450).
Proof.
  unfold legacy_chunks, chunk_size, overlap.
  change (500 - 50)%nat with 450%nat.
  rewrite range_spec by lia. rewrite map_map.
  apply map_ext. intros j. apply slice_window.
Qed.

(** Joining the first [step] characters of the windows taken at
    [i, i + step, ...] gives back the text from [i] on. *)
Lemma strides_rebuild content step fuel i :
  (0 < step)%nat -> (String.length content - i <= fuel)%nat ->
  String.concat EmptyString
    (map (fun i => str_take step (str_drop i content))
         (range_from fuel i (String.length content) step))
  = str_drop i content.
Proof.
  intros Hstep. revert i. induction fuel as [|fuel IH]; intros i Hfuel; simpl.
  - symmetry. apply str_drop_all. lia.
  - destruct (Nat.ltb_spec i (String.length content)) as [Hlt|Hge].
    + rewrite map_cons, str_concat_cons, IH by lia.
      rewrite <- str_drop_drop. apply str_take_drop.
    + symmetry. apply str_drop_all. lia.
Qed.

Lemma legacy_chunks_rebuild content :
  String.concat EmptyString (map (str_take 450) (legacy_chunks content))
  = content.
Proof.
  unfold legacy_chunks, chunk_size, overlap, range.
  change (500 - 50)%nat with 450%nat. rewrite map_map.
  rewrite (map_ext _ (fun i => str_take 450 (str_drop i content))).
  - by rewrite strides_rebuild by lia.
  - intros i. rewrite slice_window, str_take_take. done.
Qed.

Lemma legacy_chunks_lookup content j a :
  legacy_chunks content !! j = Some a ->
  a = str_take 500 (str_drop (j * 450) content).
Proof.
  rewrite legacy_chunks_spec, list_lookup_fmap.
  destruct (seq 0 _ !! j) as [k|] eqn:Hk; [|done].
  apply lookup_seq in Hk as [-> _]. intros [= <-]. done.
Qed.

(** C6 (as the code has it): for every content the legacy chunking
    produces exactly ceil(len(content) / 450) chunks, none longer than 500
    characters; the first 450 characters of the chunks, joined, are the
    content (no gaps); and what a chunk holds after its first 450
    characters is the beginning of the next chunk: 50 characters when
    the next chunk has that many, otherwise the whole next chunk. *)
Theorem legacy_chunks_cover content :
  length (legacy_chunks content) = ceil_div (String.length content) 450 /\
  Forall (fun c => (String.length c <= 500)%nat) (legacy_chunks content) /\
  String.concat EmptyString (map (str_take 450) (legacy_chunks content))
    = content /\
  forall j a b,
    legacy_chunks content !! j = Some a ->
    legacy_chunks content !! S j = Some b ->
    str_drop 450 a = str_take 50 b /\
    String.length (str_take 50 b) = Nat.min 50 (String.length b).
Proof.
  split; [|split; [|split]].
  - by rewrite legacy_chunks_spec, length_fmap, length_seq.
  - rewrite legacy_chunks_spec. apply Forall_fmap, Forall_forall.
    intros j _. unfold compose. rewrite str_take_length. lia.
  - apply legacy_chunks_rebuild.
  - intros j a b Ha Hb.
    apply legacy_chunks_lookup in Ha as ->.
    apply legacy_chunks_lookup in Hb as ->.
    split; [|apply str_take_length].
    rewrite str_drop_take, str_drop_drop, str_take_take.
    by replace (j * 450 + 450)%nat with (S j * 450)%nat by lia.
Qed.

(** A text of [n] letters. *)
Definition letters (n : nat) : string :=
  string_of_list_ascii (replicate n "a"%char).

(** C6 (as stated) fails on a text of 901 characters: it is longer than
    one window, the code cuts it into three chunks where the formula
    ceil((901 - 50) / 450) gives two, and the last two chunks share one
    character, not 50. *)
Lemma legacy_chunks_count_counterexample :
  (500 < String.length (letters 901))%nat /\
  length (legacy_chunks (letters 901))
    <> ceil_div (String.length (letters 901) - 50) 450 /\
  (exists a b,
     legacy_chunks (letters 901) !! 1%nat = Some a /\
     legacy_chunks (letters 901) !! 2%nat = Some b /\
     String.length (str_drop 450 a) = 1%nat /\
     String.length b = 1%nat).
Proof.
  split; [vm_compute; lia|]. split; [vm_compute; lia|].
  eexists _, _. split; [vm_compute; reflexivity|].
  split; [vm_compute; reflexivity|]. split; vm_compute; reflexivity.
Qed.

End ChunkingFacts.

(** ** Citation assembly *)

Module CitationFacts.

Import PyFacts Providers Registry RagChain.

(** The distinct elements of a list, in the order of their first
    occurrences. *)
Fixpoint first_seen (l : list string) : list string :=
  match l with
  | [] => []
  | x :: l' => x :: filter (fun y => y <> x) (first_seen l')
  end.

Lemma first_seen_elem l x : x ∈ first_seen l <-> x ∈ l.
Proof.
  induction l as [|y l IH]; simpl; [done|].
  rewrite !elem_of_cons, list_elem_of_filter, IH.
  destruct (decide (x = y)); subst; tauto.
Qed.

Lemma first_seen_NoDup l : NoDup (first_seen l).
Proof.
  induction l as [|y l IH]; simpl; [constructor|].
  constructor; [|by apply NoDup_filter].
  rewrite list_elem_of_filter. intros [Hne _]. by apply Hne.
Qed.

Lemma first_seen_snoc l x :
  first_seen (l ++ [x]) =
  if decide (x ∈ l) then first_seen l else first_seen l ++ [x].
Proof.
  induction l as [|y l IH]; simpl; [done|].
  rewrite IH. destruct (decide (x ∈ l)) as [Hin|Hnin].
  - rewrite decide_True; [done|]. by right.
  - rewrite filter_app, filter_cons, filter_nil.
    destruct (decide (x = y)) as [->|Hne].
    + rewrite decide_False by (intros Hne; by apply Hne).
      rewrite decide_True by left. by rewrite app_nil_r.
    + rewrite decide_True by done.
      rewrite decide_False; [done|].
      rewrite elem_of_cons. tauto.
Qed.

(** The number of distinct elements. *)
Lemma first_seen_length l :
  length (first_seen l) = size (list_to_set l : gset string).
Proof.
  rewrite <- (size_list_to_set (C:=gset string) (first_seen l))
    by apply first_seen_NoDup.
  f_equal. apply set_eq. intros x.
  by rewrite !elem_of_list_to_set, first_seen_elem.
Qed.

(** The excerpts of the result chunks of one source, in result order. *)
Definition excerpts_of (name : string) (results : list Document) : list string :=
  (fun doc => excerpt_of (page_content doc)) <$>
    filter (fun doc => doc_source_name doc = name) results.

(** The citation map the loop is meant to build: entry [i + 1] for the
    [i]-th distinct source name. *)
Definition citation_spec (results : list Document) : list (Z * CitationInfo) :=
  imap (fun i name =>
          (Z.of_nat i + 1,
           {| cit_id := Z.of_nat i + 1; source_name := name;
              excerpts := excerpts_of name results |})%Z)
       (first_seen (doc_source_name <$> results)).

Local Arguments excerpt_of : simpl never.
Local Arguments source_block : simpl never.

(** Citation ids are the positions counted from one. *)
Definition cid_of (i : nat) : Z := Z.of_nat i + 1.

Global Instance cid_of_inj : Inj (=) (=) cid_of.
Proof. intros i j. unfold cid_of. lia. Qed.

Lemma citation_spec_lookup results i :
  citation_spec results !! i =
  (fun name => (cid_of i, {| cit_id := cid_of i; source_name := name;
                             excerpts := excerpts_of name results |})) <$>
    first_seen (doc_source_name <$> results) !! i.
Proof. unfold citation_spec. by rewrite list_lookup_imap. Qed.

Lemma citation_spec_length results :
  length (citation_spec results) =
  length (first_seen (doc_source_name <$> results)).
Proof. unfold citation_spec. by rewrite length_imap. Qed.

Lemma citation_spec_keys results :
  od_keys (citation_spec results) =
  seqZ 1 (Z.of_nat (length (first_seen (doc_source_name <$> results)))).
Proof.
  unfold od_keys, citation_spec. rewrite fmap_imap.
  unfold compose. simpl.
  rewrite (imap_seq_0 _ (fun j => Z.of_nat j + 1)%Z).
  unfold seqZ. rewrite Nat2Z.id. apply list_fmap_ext.
  intros _ j _. lia.
Qed.

Lemma citation_spec_get results i name :
  first_seen (doc_source_name <$> results) !! i = Some name ->
  od_get (cid_of i) (citation_spec results) =
  Some {| cit_id := cid_of i; source_name := name;
          excerpts := excerpts_of name results |}.
Proof.
  intros Hi. apply (od_get_lookup _ _ _ i).
  - rewrite citation_spec_keys. apply NoDup_seqZ.
  - by rewrite citation_spec_lookup, Hi.
Qed.

Lemma excerpts_of_snoc_same name pre doc :
  doc_source_name doc = name ->
  excerpts_of name (pre ++ [doc]) =
  excerpts_of name pre ++ [excerpt_of (page_content doc)].
Proof.
  intros Hn. unfold excerpts_of.
  rewrite filter_app, filter_cons, filter_nil, decide_True by done.
  by rewrite fmap_app.
Qed.

Lemma excerpts_of_snoc_other name pre doc :
  doc_source_name doc <> name ->
  excerpts_of name (pre ++ [doc]) = excerpts_of name pre.
Proof.
  intros Hn. unfold excerpts_of.
  rewrite filter_app, filter_cons, filter_nil, decide_False by done.
  by rewrite app_nil_r.
Qed.

Lemma excerpts_of_absent name pre :
  name ∉ doc_source_name <$> pre -> excerpts_of name pre = [].
Proof.
  intros Hn. unfold excerpts_of.
  induction pre as [|d pre IH]; [done|].
  rewrite fmap_cons, not_elem_of_cons in Hn. destruct Hn as [Hne Hn].
  rewrite filter_cons, decide_False by done. by apply IH.
Qed.

(** What the loop variables hold after the chunks [pre] have been
    processed. *)
Record assembly_inv (pre : list Document) (st : Assembly) : Prop := {
  inv_citations : citation_info st = citation_spec pre;
  inv_map_some : forall i name,
    first_seen (doc_source_name <$> pre) !! i = Some name ->
    source_map st !! name = Some (cid_of i);
  inv_map_none : forall name,
    name ∉ doc_source_name <$> pre -> source_map st !! name = None;
  inv_counter :
    citation_counter st =
    cid_of (length (first_seen (doc_source_name <$> pre)))
}.

Lemma assembly_inv_init : assembly_inv [] assembly_init.
Proof. split; simpl; try done. Qed.

Lemma od_set_at {V} (d : list (Z * V)) i k v0 v :
  NoDup (od_keys d) -> d !! i = Some (k, v0) ->
  od_set k v d = <[i := (k, v)]> d.
Proof.
  revert i. induction d as [|[k' v'] d IH]; intros i Hnd Hi; [done|].
  simpl in *. apply NoDup_cons in Hnd as [Hnin Hnd].
  destruct i as [|i]; simpl in Hi.
  - inversion Hi; subst. by rewrite decide_True.
  - destruct (decide (k = k')) as [->|Hne].
    + exfalso. apply Hnin. apply (list_elem_of_fmap_2 fst d (k', v0)).
      eapply list_elem_of_lookup_2; eauto.
    + simpl. f_equal. by eapply IH.
Qed.

Lemma assemble_step_inv pre st doc :
  assembly_inv pre st ->
  exists st', assemble_step st doc = Ok st' /\ assembly_inv (pre ++ [doc]) st'.
Proof.
  intros [Hcit Hsome Hnone Hcnt].
  set (name := doc_source_name doc).
  set (F := first_seen (doc_source_name <$> pre)) in *.
  assert (HF : first_seen (doc_source_name <$> (pre ++ [doc])) =
               if decide (name ∈ doc_source_name <$> pre) then F
               else F ++ [name]).
  { rewrite fmap_app. simpl. apply first_seen_snoc. }
  unfold assemble_step. fold name.
  destruct (decide (name ∈ doc_source_name <$> pre)) as [Hin|Hnin].
  - (* a source seen before *)
    apply first_seen_elem, list_elem_of_lookup_1 in Hin as [i Hi].
    fold F in Hi.
    unfold assign_citation. rewrite (Hsome i name Hi).
    rewrite (Hsome i name Hi), Hcit, (citation_spec_get pre i name Hi).
    eexists; split; [reflexivity|].
    split; simpl; rewrite ?HF; fold F.
    + rewrite (od_set_at _ i _
                 {| cit_id := cid_of i; source_name := name;
                    excerpts := excerpts_of name pre |}).
      2:{ rewrite citation_spec_keys. apply NoDup_seqZ. }
      2:{ rewrite citation_spec_lookup. fold F. by rewrite Hi. }
      apply list_eq. intros j.
      rewrite citation_spec_lookup, HF. fold F.
      destruct (decide (i = j)) as [<-|Hne].
      * rewrite list_lookup_insert_eq.
        2:{ rewrite citation_spec_length. fold F. by eapply lookup_lt_Some. }
        rewrite Hi. simpl. by rewrite excerpts_of_snoc_same.
      * rewrite list_lookup_insert_ne by done.
        rewrite citation_spec_lookup. fold F.
        destruct (F !! j) as [s|] eqn:Hj; [|done]. simpl.
        rewrite excerpts_of_snoc_other; [done|].
        intros Heq. apply Hne.
        eapply NoDup_lookup; [apply first_seen_NoDup| |]; eauto.
        fold F. by rewrite Hj, <- Heq.
    + done.
    + intros s Hs. apply Hnone. rewrite fmap_app in Hs.
      rewrite elem_of_app in Hs. tauto.
    + done.
  - (* a new source *)
    unfold assign_citation. rewrite (Hnone name Hnin). simpl.
    rewrite lookup_insert_eq.
    assert (Hfresh : citation_counter st ∉ od_keys (citation_info st)).
    { rewrite Hcit, citation_spec_keys, Hcnt. fold F.
      rewrite elem_of_seqZ. unfold cid_of. lia. }
    rewrite (od_set_fresh _ _ _ Hfresh).
    assert (Hget : od_get (citation_counter st)
              (citation_info st ++
               [(citation_counter st,
                 {| cit_id := citation_counter st; source_name := name;
                    excerpts := [] |})]) =
              Some {| cit_id := citation_counter st; source_name := name;
                      excerpts := [] |}).
    { apply (od_get_lookup _ _ _ (length (citation_info st))).
      - unfold od_keys. rewrite fmap_app. simpl.
        apply NoDup_app. split; [|split].
        + fold (od_keys (citation_info st)).
          rewrite Hcit, citation_spec_keys. apply NoDup_seqZ.
        + intros k Hk Hk'. apply list_elem_of_singleton in Hk'. by subst.
        + apply NoDup_singleton.
      - rewrite lookup_app_r by done. by rewrite Nat.sub_diag. }
    rewrite Hget.
    eexists; split; [reflexivity|].
    assert (Hlen : length (citation_info st) = length F).
    { by rewrite Hcit, citation_spec_length. }
    split; simpl; rewrite ?HF; fold F.
    + rewrite (od_set_at _ (length (citation_info st)) _
                 {| cit_id := citation_counter st; source_name := name;
                    excerpts := [] |}).
      2:{ unfold od_keys. rewrite fmap_app. simpl.
          apply NoDup_app. split; [|split].
          - fold (od_keys (citation_info st)).
            rewrite Hcit, citation_spec_keys. apply NoDup_seqZ.
          - intros k Hk Hk'. apply list_elem_of_singleton in Hk'. by subst.
          - apply NoDup_singleton. }
      2:{ rewrite lookup_app_r by done. by rewrite Nat.sub_diag. }
      apply list_eq. intros j.
      rewrite citation_spec_lookup, HF. fold F.
      destruct (decide (j = length F)) as [->|Hne].
      * rewrite <- Hlen at 1.
        rewrite list_lookup_insert_eq by (rewrite length_app; simpl; lia).
        rewrite lookup_app_r by done. rewrite Nat.sub_diag. simpl.
        rewrite Hcnt. fold F. f_equal. f_equal. f_equal.
        rewrite excerpts_of_snoc_same by done.
        by rewrite excerpts_of_absent.
      * rewrite list_lookup_insert_ne by lia.
        destruct (decide (j < length F)%nat) as [Hlt|Hge].
        -- rewrite !lookup_app_l by lia.
           rewrite Hcit, citation_spec_lookup. fold F.
           destruct (F !! j) as [s|] eqn:Hj; [|done]. simpl.
           rewrite excerpts_of_snoc_other; [done|].
           intros Heq. apply Hnin. apply first_seen_elem. fold F.
           fold name in Heq. rewrite Heq.
           eapply list_elem_of_lookup_2; eauto.
        -- rewrite !lookup_ge_None_2; [done| |];
             rewrite length_app; simpl; lia.
    + intros i s Hi.
      destruct (decide (i < length F)%nat) as [Hlt|Hge].
      * rewrite lookup_app_l in Hi by done.
        rewrite lookup_insert_ne; [by apply Hsome|].
        intros <-. apply Hnin, first_seen_elem. fold F.
        eapply list_elem_of_lookup_2; eauto.
      * rewrite lookup_app_r in Hi by lia.
        destruct (i - length F)%nat as [|n] eqn:Hd; simpl in Hi; [|done].
        inversion Hi; subst s.
        rewrite lookup_insert_eq, Hcnt. fold F. f_equal. f_equal. lia.
    + intros s Hs. rewrite fmap_app in Hs.
      rewrite elem_of_app in Hs. simpl in Hs.
      rewrite lookup_insert_ne.
      * apply Hnone. tauto.
      * intros <-. apply Hs. right. fold name. left.
    + rewrite Hcnt, length_app. fold F. unfold cid_of. simpl. lia.
Qed.

Lemma assemble_inv results pre st :
  assembly_inv pre st ->
  exists st', assemble results st = Ok st' /\ assembly_inv (pre ++ results) st'.
Proof.
  revert pre st. induction results as [|doc rest IH]; intros pre st Hinv.
  - exists st. by rewrite app_nil_r.
  - destruct (assemble_step_inv pre st doc Hinv) as (st1 & Hstep & Hinv1).
    destruct (IH _ _ Hinv1) as (st2 & Hrest & Hinv2).
    exists st2. simpl. rewrite Hstep. simpl.
    split; [done|]. by rewrite <- app_assoc in Hinv2.
Qed.

(** The citation loop never raises, and it builds [citation_spec]. *)
Lemma assemble_spec results :
  exists st, assemble results assembly_init = Ok st /\
             citation_info st = citation_spec results.
Proof.
  destruct (assemble_inv results [] _ assembly_inv_init) as (st & Hrun & Hinv).
  exists st. split; [done|]. apply Hinv.
Qed.

End CitationFacts.

(** ** Retrieval modes *)

Module RetrievalFacts.

Import PyFacts Providers Registry RagChain CitationFacts.

Local Arguments excerpt_of : simpl never.

(** The call the balanced loop makes for one source. *)
Definition source_call (notebook_id query : string) (k : Z) (source : string)
    : SearchCall :=
  {| call_query := query; call_k := k;
     call_filter := source_filter notebook_id source |}.

(** What one source contributes to the result list: the answer of the
    store to the search for that source, and nothing when that search
    raises. *)
Definition source_results (vs : VectorStore) (notebook_id query : string)
    (k : Z) (source : string) : list Document :=
  match vs query k (source_filter notebook_id source) with
  | Ok docs => docs
  | Raise _ => []
  end.

(** The context and the citation map [retrieve_context] builds from a
    result list. *)
Definition assembled (results : list Document)
    : Result (string * list (Z * CitationInfo)) :=
  st ← assemble results assembly_init;
  Ok (String.concat (nl +:+ nl) (context_parts st), citation_info st).


Lemma balanced_search_calls vs notebook_id query k sources :
  (balanced_search vs notebook_id query k sources).1 =
  source_call notebook_id query k <$> sources.
Proof.
  induction sources as [|s rest IH]; [done|]. simpl.
  destruct (balanced_search vs notebook_id query k rest) as [calls docs].
  simpl in IH. destruct (vs query k _); simpl; by rewrite IH.
Qed.

Lemma balanced_search_docs vs notebook_id query k sources :
  (balanced_search vs notebook_id query k sources).2 =
  concat (source_results vs notebook_id query k <$> sources).
Proof.
  induction sources as [|s rest IH]; [done|]. simpl.
  destruct (balanced_search vs notebook_id query k rest) as [calls docs].
  simpl in IH. unfold source_results at 1.
  destruct (vs query k _); simpl; by rewrite IH.
Qed.

Lemma balanced_mode_spec selected_sources :
  balanced_mode selected_sources = true <->
  exists l, selected_sources = Some l /\ (1 <= length l <= 5)%nat.
Proof.
  unfold balanced_mode. destruct selected_sources as [[|s l]|]; simpl.
  - split; [done|]. intros (l & [= <-] & Hl). simpl in Hl. lia.
  - rewrite Nat.leb_le. split.
    + intros Hl. exists (s :: l). simpl. split; [done|lia].
    + intros (l' & [= <-] & Hl). simpl in Hl. lia.
  - split; [done|]. by intros (l & ? & _).
Qed.

(** [retrieve_context] once the vector store is at hand: the searches,
    and the context and citations of what they gave. *)
Lemma retrieve_context_search w self notebook_id query selected_sources
    n_results vs self1 :
  _get_vectorstore w self = (Ok vs, self1) ->
  retrieve_context w self notebook_id query selected_sources n_results =
  ((search vs notebook_id query selected_sources n_results).1,
   results ← (search vs notebook_id query selected_sources n_results).2;
   assembled results,
   self1).
Proof.
  intros Hvs. unfold retrieve_context. rewrite Hvs.
  by destruct (search vs notebook_id query selected_sources n_results).
Qed.


Lemma search_balanced vs notebook_id query l n_results k :
  (1 <= length l <= 5)%nat ->
  per_source_k n_results l = Ok k ->
  search vs notebook_id query (Some l) n_results =
  (source_call notebook_id query k <$> l,
   Ok (concat (source_results vs notebook_id query k <$> l))).
Proof.
  intros Hl Hk. unfold search.
  assert (Hb : balanced_mode (Some l) = true).
  { apply balanced_mode_spec. by exists l. }
  rewrite Hb. cbn [default from_option id]. rewrite Hk.
  rewrite <- balanced_search_calls with (vs := vs).
  rewrite <- balanced_search_docs.
  by destruct (balanced_search vs notebook_id query k l).
Qed.

Lemma search_balanced_raises vs notebook_id query l n_results e :
  (1 <= length l <= 5)%nat ->
  per_source_k n_results l = Raise e ->
  search vs notebook_id query (Some l) n_results = ([], Raise e).
Proof.
  intros Hl Hk. unfold search.
  assert (Hb : balanced_mode (Some l) = true).
  { apply balanced_mode_spec. by exists l. }
  rewrite Hb. cbn [default from_option id]. by rewrite Hk.
Qed.



(** Below 2^53 the count is the formula with the floor: [int] truncates
    towards zero, and at three or more the two agree. *)
Lemma per_source_k_floor n_results l :
  (Z.abs n_results < 2 ^ 53)%Z -> (1 <= length l <= 5)%nat ->
  per_source_k n_results l =
  Ok (Z.max 3 (n_results / Z.of_nat (length l) + 1)).
Proof.
  intros Hn Hl. unfold per_source_k.
  rewrite int_truediv_exact by lia. cbn [mbind Result_bind]. f_equal.
  set (s := Z.of_nat (length l)). assert (0 < s)%Z by lia.
  destruct (Z_lt_le_dec n_results 0) as [Hneg|Hpos].
  - assert (n_results ÷ s <= 0)%Z.
    { apply Z.quot_le_upper_bound; lia. }
    assert (n_results / s < 0)%Z by (apply Z.div_lt_upper_bound; lia).
    lia.
  - by rewrite Z.quot_div_nonneg by lia.
Qed.



End RetrievalFacts.

(** ** The citation map of [retrieve_context] *)

Module RetrieveContextFacts.

Import PyFacts Providers Registry RagChain CitationFacts.

Local Arguments excerpt_of : simpl never.

(** In [first_seen l] an earlier name has an occurrence in [l] before
    every occurrence of a later name. *)
Lemma first_seen_order l i j s t :
  first_seen l !! i = Some s -> first_seen l !! j = Some t -> (i < j)%nat ->
  exists p, l !! p = Some s /\ forall q, l !! q = Some t -> (p < q)%nat.
Proof.
  revert i j s t. induction l as [|x l IH] using rev_ind; intros i j s t.
  - done.
  - rewrite first_seen_snoc. destruct (decide (x ∈ l)) as [Hin|Hnin].
    + intros Hi Hj Hlt. destruct (IH _ _ _ _ Hi Hj Hlt) as (p & Hp & Hq).
      exists p. split.
      * rewrite lookup_app_l; [done|]. by eapply lookup_lt_Some.
      * intros q Hq'. destruct (decide (q < length l)%nat) as [Hql|Hql].
        -- rewrite lookup_app_l in Hq' by done. by apply Hq.
        -- apply lookup_lt_Some in Hp. lia.
    + intros Hi Hj Hlt.
      destruct (decide (j < length (first_seen l))%nat) as [Hjl|Hjl].
      * rewrite lookup_app_l in Hi by lia. rewrite lookup_app_l in Hj by lia.
        destruct (IH _ _ _ _ Hi Hj Hlt) as (p & Hp & Hq).
        exists p. split.
        -- rewrite lookup_app_l; [done|]. by eapply lookup_lt_Some.
        -- intros q Hq'. destruct (decide (q < length l)%nat) as [Hql|Hql].
           ++ rewrite lookup_app_l in Hq' by done. by apply Hq.
           ++ apply lookup_lt_Some in Hp. lia.
      * pose proof (lookup_lt_Some _ _ _ Hj) as Hjlen.
        rewrite length_app in Hjlen. simpl in Hjlen.
        rewrite lookup_app_l in Hi by lia.
        rewrite lookup_app_r in Hj by lia.
        destruct (j - length (first_seen l))%nat; simpl in Hj; [|done].
        inversion Hj; subst t.
        assert (Hs : s ∈ l).
        { apply first_seen_elem. eapply list_elem_of_lookup_2; eauto. }
        apply list_elem_of_lookup_1 in Hs as [p Hp].
        exists p. split.
        -- rewrite lookup_app_l; [done|]. by eapply lookup_lt_Some.
        -- intros q Hq'. destruct (decide (q < length l)%nat) as [Hql|Hql].
           ++ rewrite lookup_app_l in Hq' by done.
              exfalso. apply Hnin. eapply list_elem_of_lookup_2; eauto.
           ++ apply lookup_lt_Some in Hp. lia.
Qed.

Lemma citation_spec_names results :
  (fun e : Z * CitationInfo => source_name e.2) <$> citation_spec results =
  first_seen (doc_source_name <$> results).
Proof.
  apply list_eq. intros i.
  rewrite list_lookup_fmap, citation_spec_lookup.
  by destruct (first_seen _ !! i).
Qed.

(** The pair [retrieve_context] returns when the vector store is at hand
    and the searches give [results]. *)
Lemma retrieve_context_result w self notebook_id query selected_sources
    n_results vs self1 results :
  _get_vectorstore w self = (Ok vs, self1) ->
  (search vs notebook_id query selected_sources n_results).2 = Ok results ->
  exists context,
    (retrieve_context w self notebook_id query selected_sources n_results).1.2
    = Ok (context, citation_spec results).
Proof.
  intros Hvs Hres. unfold retrieve_context. rewrite Hvs.
  destruct (search vs notebook_id query selected_sources n_results)
    as [calls found]. simpl in *. subst found.
  destruct (assemble_spec results) as (st & Hrun & Hcit).
  exists (String.concat (nl +:+ nl) (context_parts st)).
  simpl. rewrite Hrun. simpl. by rewrite Hcit.
Qed.

(** C1: when the searches of a retrieval call give the list [results],
    whose chunks span K distinct source names, the call returns a citation
    map with exactly K entries, keyed 1..K in this order; every entry
    carries its own key as id; the source names of the entries are the
    distinct source names of [results], each once; and an entry with a
    smaller id belongs to a source that occurs in [results] before every
    chunk of the source of an entry with a larger id. *)
Theorem citation_ids_dense w self notebook_id query selected_sources
    n_results vs self1 results :
  _get_vectorstore w self = (Ok vs, self1) ->
  (search vs notebook_id query selected_sources n_results).2 = Ok results ->
  exists context citations,
    (retrieve_context w self notebook_id query selected_sources n_results).1.2
    = Ok (context, citations) /\
    let names := doc_source_name <$> results in
    let K := size (list_to_set names : gset string) in
    let owners := (fun e : Z * CitationInfo => source_name e.2) <$> citations in
    length citations = K /\
    od_keys citations = seqZ 1 (Z.of_nat K) /\
    Forall (fun e : Z * CitationInfo => cit_id e.2 = e.1) citations /\
    NoDup owners /\
    (forall name, name ∈ owners <-> name ∈ names) /\
    owners = first_seen names /\
    (forall i j s t,
       owners !! i = Some s -> owners !! j = Some t -> (i < j)%nat ->
       exists p, names !! p = Some s /\
                 forall q, names !! q = Some t -> (p < q)%nat).
Proof.
  intros Hvs Hres.
  destruct (retrieve_context_result _ _ _ _ _ _ _ _ _ Hvs Hres)
    as (context & Hret).
  exists context, (citation_spec results). split; [done|].
  cbv zeta. rewrite citation_spec_names, <- first_seen_length.
  split; [apply citation_spec_length|].
  split; [apply citation_spec_keys|].
  split.
  { apply Forall_forall. intros e He.
    apply list_elem_of_lookup_1 in He as [i Hi].
    rewrite citation_spec_lookup in Hi.
    destruct (first_seen _ !! i); simpl in Hi; [|done].
    by inversion Hi. }
  split; [apply first_seen_NoDup|].
  split; [intros name; apply first_seen_elem|].
  split; [done|].
  intros i j s t. apply first_seen_order.
Qed.

Lemma excerpt_of_short text :
  (String.length text <= 300)%nat -> excerpt_of text = text.
Proof.
  intros Hlen. unfold excerpt_of.
  by destruct (Nat.ltb_spec 300 (String.length text)); [lia|].
Qed.

Lemma excerpt_of_long text :
  (300 < String.length text)%nat ->
  excerpt_of text = str_take 300 text +:+ "...".
Proof.
  intros Hlen. unfold excerpt_of.
  destruct (Nat.ltb_spec 300 (String.length text)); [|lia].
  by change (slice text 0 300) with (str_take 300 text).
Qed.

Lemma excerpt_of_long_length text :
  (300 < String.length text)%nat -> String.length (excerpt_of text) = 303%nat.
Proof.
  intros Hlen. rewrite excerpt_of_long by done.
  rewrite str_app_length, str_take_length.
  change (String.length "...") with 3%nat. lia.
Qed.

(** C7: when the searches of a retrieval call give [results], the
    excerpt list of every citation entry is made of the excerpts of the
    chunks of its source, one per chunk in result order, so every chunk
    has its excerpt in the entry of its source; an excerpt is the chunk
    text itself when that has at most 300 characters, and otherwise its
    first 300 characters followed by three dots, 303 characters in all;
    so a chunk of 310 characters gives an excerpt of 303. *)
Theorem excerpt_truncation w self notebook_id query selected_sources
    n_results vs self1 results :
  _get_vectorstore w self = (Ok vs, self1) ->
  (search vs notebook_id query selected_sources n_results).2 = Ok results ->
  exists context citations,
    (retrieve_context w self notebook_id query selected_sources n_results).1.2
    = Ok (context, citations) /\
    (forall cid info, (cid, info) ∈ citations ->
       excerpts info =
       (fun doc => excerpt_of (page_content doc)) <$>
         filter (fun doc => doc_source_name doc = source_name info) results) /\
    (forall doc, doc ∈ results ->
       exists cid info,
         (cid, info) ∈ citations /\
         source_name info = doc_source_name doc /\
         excerpt_of (page_content doc) ∈ excerpts info) /\
    (forall text, (String.length text <= 300)%nat -> excerpt_of text = text) /\
    (forall text, (300 < String.length text)%nat ->
       excerpt_of text = str_take 300 text +:+ "..." /\
       String.length (excerpt_of text) = 303%nat) /\
    (forall text, String.length text = 310%nat ->
       String.length (excerpt_of text) = 303%nat).
Proof.
  intros Hvs Hres.
  destruct (retrieve_context_result _ _ _ _ _ _ _ _ _ Hvs Hres)
    as (context & Hret).
  exists context, (citation_spec results). split; [done|].
  split; [|split; [|split; [|split]]].
  - intros cid info Hin. apply list_elem_of_lookup_1 in Hin as [i Hi].
    rewrite citation_spec_lookup in Hi.
    destruct (first_seen _ !! i); simpl in Hi; [|done].
    by inversion Hi.
  - intros doc Hdoc.
    assert (Hname : doc_source_name doc ∈
                    first_seen (doc_source_name <$> results)).
    { apply first_seen_elem. by apply list_elem_of_fmap_2. }
    apply list_elem_of_lookup_1 in Hname as [i Hi].
    eexists _, _. split; [|split].
    + eapply list_elem_of_lookup_2. rewrite citation_spec_lookup, Hi.
      reflexivity.
    + done.
    + simpl. unfold excerpts_of.
      apply (list_elem_of_fmap_2 (fun doc => excerpt_of (page_content doc))).
      by apply list_elem_of_filter.
  - apply excerpt_of_short.
  - intros text Hlen. split.
    + by apply excerpt_of_long.
    + by apply excerpt_of_long_length.
  - intros text Hlen. apply excerpt_of_long_length. lia.
Qed.

End RetrieveContextFacts.

(** ** Provider registry *)

Module RegistryFacts.

Import PyFacts Providers Registry.

(** Every cached instance was built from the class registered under its
    name. *)
Definition registry_wf (reg : ProviderRegistry) : Prop :=
  forall name p,
    _instances reg !! name = Some p -> od_get name PROVIDERS = Some (cls p).

(** The four selection attributes, which [get_provider] leaves alone. *)
Definition same_selection (reg reg' : ProviderRegistry) : Prop :=
  _chat_provider_name reg' = _chat_provider_name reg /\
  Registry._chat_model reg' = Registry._chat_model reg /\
  _embedding_provider_name reg' = _embedding_provider_name reg /\
  Registry._embedding_model reg' = Registry._embedding_model reg.

Lemma registry_wf_init : registry_wf init.
Proof. intros name p. simpl. by rewrite lookup_empty. Qed.

Lemma registry_wf_insert reg name p reg' :
  registry_wf reg ->
  od_get name PROVIDERS = Some (cls p) ->
  _instances reg' = <[name := p]> (_instances reg) -> registry_wf reg'.
Proof.
  intros Hwf Hp Heq name' p'. rewrite Heq.
  rewrite lookup_insert. destruct (decide (name = name')) as [<-|Hne].
  - by intros [= <-].
  - apply Hwf.
Qed.

Lemma construct_default_ok getenv c :
  exists p, construct getenv c None = Ok p /\ cls p = c.
Proof. destruct c; simpl; eauto. Qed.

Lemma construct_cls getenv c key p :
  construct getenv c key = Ok p -> cls p = c.
Proof. destruct c, key; simpl; intros [= <-]; done. Qed.

Lemma get_provider_ok getenv name c reg :
  registry_wf reg -> od_get name PROVIDERS = Some c ->
  exists p reg',
    get_provider getenv name reg = (Ok p, reg') /\
    cls p = c /\ _instances reg' !! name = Some p /\
    registry_wf reg' /\ same_selection reg reg'.
Proof.
  intros Hwf Hc. unfold get_provider. rewrite Hc.
  destruct (_instances reg !! name) as [p|] eqn:Hp.
  - exists p, reg. split; [done|]. split.
    + apply Hwf in Hp. congruence.
    + by repeat split.
  - destruct (construct_default_ok getenv c) as (p & -> & Hcls).
    eexists p, _. split; [done|]. split; [done|]. simpl.
    split; [by rewrite lookup_insert_eq|]. split; [|by repeat split].
    apply (registry_wf_insert reg name p); [done|congruence|done].
Qed.

(** An unsupported embedding provider is refused and the selection is
    left as it was. *)
Lemma set_embedding_provider_refused getenv provider_name model_name c reg :
  registry_wf reg ->
  od_get provider_name PROVIDERS = Some c ->
  supports_embeddings (capabilities_of c) = false ->
  exists reg',
    set_embedding_provider getenv provider_name model_name reg =
      (Raise (ValueError ("Provider " +:+ provider_name +:+
                          " does not support embeddings")), reg') /\
    registry_wf reg' /\ same_selection reg reg'.
Proof.
  intros Hwf Hc Hcap. unfold set_embedding_provider. rewrite Hc.
  destruct (get_provider_ok getenv provider_name c reg Hwf Hc)
    as (p & reg' & -> & Hcls & _ & Hwf' & Hsel).
  unfold capabilities. rewrite Hcls, Hcap. simpl. eauto.
Qed.

Lemma set_embedding_provider_ok getenv provider_name model_name c reg :
  registry_wf reg ->
  od_get provider_name PROVIDERS = Some c ->
  supports_embeddings (capabilities_of c) = true ->
  exists reg',
    set_embedding_provider getenv provider_name model_name reg = (Ok tt, reg') /\
    registry_wf reg' /\
    _chat_provider_name reg' = _chat_provider_name reg /\
    Registry._chat_model reg' = Registry._chat_model reg /\
    _embedding_provider_name reg' = provider_name /\
    Registry._embedding_model reg' = model_name /\
    (forall m, model_name = Some m -> truthy_str m = true ->
       Providers._embedding_model <$> (_instances reg' !! provider_name)
       = Some (Some m)).
Proof.
  intros Hwf Hc Hcap. unfold set_embedding_provider. rewrite Hc.
  destruct (get_provider_ok getenv provider_name c reg Hwf Hc)
    as (p & reg1 & -> & Hcls & Hp & Hwf1 & Hchat & Hmodel & _ & _).
  unfold capabilities. rewrite Hcls, Hcap. simpl.
  destruct model_name as [m|]; [destruct (truthy_str m) eqn:Hm|].
  - eexists. split; [done|]. simpl. split; [|split; [done|]].
    + apply (registry_wf_insert reg1 provider_name (set_embedding_model m p));
        [done|rewrite Hc, <- Hcls; reflexivity|done].
    + split; [done|]. split; [done|]. split; [done|].
      intros m' [= <-] _. by rewrite lookup_insert_eq.
  - eexists. split; [done|]. simpl. repeat split; try done.
    intros m' [= <-]. congruence.
  - eexists. split; [done|]. simpl. repeat split; done.
Qed.

Lemma set_chat_provider_ok getenv provider_name model_name reg :
  registry_wf reg ->
  is_Some (od_get provider_name PROVIDERS) ->
  exists reg',
    set_chat_provider getenv provider_name model_name reg = (Ok tt, reg') /\
    registry_wf reg' /\
    _chat_provider_name reg' = provider_name /\
    Registry._chat_model reg' = model_name /\
    _embedding_provider_name reg' = _embedding_provider_name reg /\
    Registry._embedding_model reg' = Registry._embedding_model reg.
Proof.
  intros Hwf [c Hc]. unfold set_chat_provider. rewrite Hc.
  set (reg1 := {| _instances := _instances reg;
                  _chat_provider_name := provider_name;
                  Registry._chat_model := model_name;
                  _embedding_provider_name := _embedding_provider_name reg;
                  Registry._embedding_model := Registry._embedding_model reg |}).
  assert (Hwf1 : registry_wf reg1) by exact Hwf.
  destruct model_name as [m|]; [destruct (truthy_str m) eqn:Hm|].
  - destruct (get_provider_ok getenv provider_name c reg1 Hwf1 Hc)
      as (p & reg2 & -> & Hcls & Hp & Hwf2 & Hs1 & Hs2 & Hs3 & Hs4).
    eexists. split; [done|]. simpl. split; [|by repeat split].
    apply (registry_wf_insert reg2 provider_name (set_chat_model m p));
      [done|rewrite Hc, <- Hcls; reflexivity|done].
  - exists reg1. by repeat split.
  - exists reg1. by repeat split.
Qed.

Lemma set_api_keys_wf getenv keys reg res reg' :
  registry_wf reg -> set_api_keys getenv keys reg = (res, reg') ->
  registry_wf reg'.
Proof.
  revert reg. induction keys as [|[name key] rest IH]; intros reg Hwf;
    cbn [set_api_keys].
  - by intros [= _ <-].
  - destruct (_instances reg !! name) as [p|] eqn:Hp.
    + apply IH. apply (registry_wf_insert reg name (set_api_key key p));
        [done|exact (Hwf name p Hp)|done].
    + destruct (od_get name PROVIDERS) as [c|] eqn:Hc; [|by apply IH].
      destruct (construct getenv c (Some key)) as [p|e] eqn:Hcons.
      * apply IH. apply (registry_wf_insert reg name p); [done| |done].
        apply construct_cls in Hcons. congruence.
      * by intros [= _ <-].
Qed.

(** C8: for a registered provider whose capabilities say
    [supports_embeddings = false], [set_embedding_provider] raises a
    [ValueError] and the active embedding provider and model stay as they
    were; and for every adapter instance with such capabilities
    [get_embeddings], [embed_text] and [embed_documents] raise instead of
    handing out or using an embeddings object. *)
Theorem embedding_capability_gate getenv reg provider_name model_name c :
  registry_wf reg ->
  od_get provider_name PROVIDERS = Some c ->
  supports_embeddings (capabilities_of c) = false ->
  (exists msg reg',
     set_embedding_provider getenv provider_name model_name reg =
       (Raise (ValueError msg), reg') /\
     _embedding_provider_name reg' = _embedding_provider_name reg /\
     Registry._embedding_model reg' = Registry._embedding_model reg) /\
  (forall (new_client : Embeddings -> Result unit) (p : Provider),
     supports_embeddings (capabilities p) = false ->
     (forall m, exists msg,
        get_embeddings new_client p m = Raise (NotImplementedError msg)) /\
     (forall (Vector : Type) (aembed_query : Embeddings -> string -> Result Vector)
             text m,
        exists msg,
          embed_text new_client aembed_query p text m
          = Raise (NotImplementedError msg)) /\
     (forall (Vector : Type)
             (aembed_documents : Embeddings -> list string -> Result (list Vector))
             texts m,
        exists msg,
          embed_documents new_client aembed_documents p texts m =
          Raise (NotImplementedError msg))).
Proof.
  intros Hwf Hc Hcap. split.
  - destruct (set_embedding_provider_refused getenv provider_name model_name
                c reg Hwf Hc Hcap) as (reg' & Hset & _ & _ & _ & Hn & Hm).
    eauto 10.
  - intros new_client p Hp.
    assert (Hget : forall m, exists msg,
              get_embeddings new_client p m = Raise (NotImplementedError msg)).
    { intros m. unfold get_embeddings. unfold capabilities in Hp.
      destruct (cls p); try discriminate. eauto. }
    split; [done|]. split.
    + intros Vector aembed_query text m. destruct (Hget m) as [msg Hmsg].
      exists msg. unfold embed_text. by rewrite Hmsg.
    + intros Vector aembed_documents texts m. destruct (Hget m) as [msg Hmsg].
      exists msg. unfold embed_documents. by rewrite Hmsg.
Qed.

(** An environment without variables. *)
Definition no_env : string -> option string := fun _ => None.

(** A registry whose active embedding provider is OpenAI. *)
Definition registry_openai : ProviderRegistry :=
  (set_embedding_provider no_env "openai" None init).2.

Definition settings_unknown_chat : Settings :=
  {| chat_provider := Some "bogus"; chat_model := None;
     embedding_provider := Some "anthropic";
     embedding_model := Some "nomic-embed-text"; api_keys := None |}.

(** C10 (as stated) fails when the settings also name an unknown chat
    provider: the [ValueError] of [set_chat_provider] leaves
    [configure_from_settings], and the embedding selection is not touched
    (it stays on OpenAI, with no model). *)
Lemma configure_unknown_chat_counterexample :
  registry_wf registry_openai /\
  od_get "anthropic" PROVIDERS = Some AnthropicProvider /\
  supports_embeddings (capabilities_of AnthropicProvider) = false /\
  (configure_from_settings no_env settings_unknown_chat registry_openai).1
    = Raise (ValueError "Unknown provider: bogus") /\
  _embedding_provider_name
    (configure_from_settings no_env settings_unknown_chat registry_openai).2
    = "openai" /\
  Registry._embedding_model
    (configure_from_settings no_env settings_unknown_chat registry_openai).2
    = None.
Proof.
  split.
  { destruct (set_embedding_provider_ok no_env "openai" None OpenAIProvider
                init registry_wf_init eq_refl eq_refl) as (reg' & Heq & Hwf & _).
    unfold registry_openai. by rewrite Heq. }
  repeat split; vm_compute; reflexivity.
Qed.

(** C10 (as the code has it): when loading the API keys raises nothing
    and the chat provider of the settings (["ollama"] when absent) is a
    registered one, settings whose embedding provider is a registered
    provider without embedding support make [configure_from_settings]
    return normally with the active embedding provider set to ["ollama"],
    the requested embedding model passed through (also to the Ollama
    adapter when it is a non-empty name), and the chat provider and model
    selected as requested. *)
Theorem configure_embedding_fallback getenv settings reg name c reg1 :
  registry_wf reg ->
  embedding_provider settings = Some name ->
  od_get name PROVIDERS = Some c ->
  supports_embeddings (capabilities_of c) = false ->
  set_api_keys getenv (default [] (api_keys settings)) reg = (Ok tt, reg1) ->
  is_Some (od_get (default "ollama" (chat_provider settings)) PROVIDERS) ->
  exists reg',
    configure_from_settings getenv settings reg = (Ok tt, reg') /\
    _embedding_provider_name reg' = "ollama" /\
    Registry._embedding_model reg' = embedding_model settings /\
    (forall m, embedding_model settings = Some m -> truthy_str m = true ->
       Providers._embedding_model <$> (_instances reg' !! "ollama")
       = Some (Some m)) /\
    _chat_provider_name reg' = default "ollama" (chat_provider settings) /\
    Registry._chat_model reg' = chat_model settings.
Proof.
  intros Hwf Hemb Hc Hcap Hkeys Hchat.
  unfold configure_from_settings. rewrite Hkeys.
  pose proof (set_api_keys_wf _ _ _ _ _ Hwf Hkeys) as Hwf1.
  destruct (set_chat_provider_ok getenv _ (chat_model settings) reg1 Hwf1 Hchat)
    as (reg2 & -> & Hwf2 & Hcn & Hcm & _ & _).
  rewrite Hemb. change (default "ollama" (Some name)) with name.
  destruct (set_embedding_provider_refused getenv name
              (embedding_model settings) c reg2 Hwf2 Hc Hcap)
    as (reg3 & -> & Hwf3 & Hs1 & Hs2 & _ & _).
  cbn [is_ValueError].
  destruct (set_embedding_provider_ok getenv "ollama"
              (embedding_model settings) OllamaProvider reg3 Hwf3
              eq_refl eq_refl)
    as (reg' & -> & _ & Hc1 & Hc2 & Hen & Hem & Hinst).
  exists reg'. split; [done|]. split; [done|]. split; [done|].
  split; [done|]. split; congruence.
Qed.

(** C10 at work: Anthropic chat with Anthropic requested for embeddings. *)
Definition settings_anthropic : Settings :=
  {| chat_provider := Some "anthropic";
     chat_model := Some "claude-3-5-haiku-latest";
     embedding_provider := Some "anthropic";
     embedding_model := Some "nomic-embed-text";
     api_keys := Some [("anthropic", "sk-ant-test")] |}.

End RegistryFacts.

(** ** Streaming *)

Module StreamingFacts.

Import PyFacts Providers Registry RagChain Rag CitationFacts.

Local Arguments excerpt_of : simpl never.
Local Arguments source_block : simpl never.

(** The entry and the context block of the [i]-th full-context source. *)
Definition full_entry (i : nat) (src : gmap string string) : Z * CitationInfo :=
  (cid_of i,
   {| cit_id := cid_of i; source_name := default "Unknown" (src !! "name");
      excerpts := ["(Full document context used)"] |}).

Definition full_block (i : nat) (src : gmap string string) : string :=
  source_block (cid_of i) (default "Unknown" (src !! "name"))
    (default EmptyString (src !! "content")).

Lemma full_entry_keys l : od_keys (imap full_entry l) = cid_of <$> seq 0 (length l).
Proof.
  unfold od_keys. rewrite fmap_imap. unfold compose. simpl.
  apply (imap_seq_0 l cid_of).
Qed.

Lemma full_context_fold pre l :
  fold_left full_context_step
    (imap (fun i x => (Z.of_nat (length pre + i), x)) l)
    (imap full_block pre, imap full_entry pre)
  = (imap full_block (pre ++ l), imap full_entry (pre ++ l)).
Proof.
  revert pre. induction l as [|src l IH]; intros pre.
  - by rewrite app_nil_r.
  - rewrite imap_cons. cbn [fold_left].
    replace (pre ++ src :: l) with ((pre ++ [src]) ++ l)
      by (by rewrite <- app_assoc).
    rewrite <- IH.
    f_equal.
    + apply imap_ext. intros i x _. unfold compose.
      rewrite length_app. simpl. f_equal. lia.
    + unfold full_context_step. cbn [fst snd].
      rewrite Nat.add_0_r.
      change (Z.of_nat (length pre) + 1)%Z with (cid_of (length pre)).
      rewrite od_set_fresh.
      * rewrite !imap_app. simpl. by rewrite !Nat.add_0_r.
      * rewrite full_entry_keys. rewrite list_elem_of_fmap.
        intros (j & Hj & Hin). apply cid_of_inj in Hj. subst j.
        apply elem_of_seq in Hin. lia.
Qed.

(** The full-context branch in closed form. *)
Lemma full_context_spec l :
  full_context l =
  (String.concat (nl +:+ nl) (imap full_block l), imap full_entry l).
Proof.
  unfold full_context, enumerate.
  pose proof (full_context_fold [] l) as H. simpl in H.
  by rewrite H.
Qed.

(** The citation map [build_context] hands to the second half of
    [stream_response] has distinct keys. *)
Lemma build_context_keys w self notebook_id messages selected_sources
    full_source_content calls context citations self1 :
  build_context w self notebook_id messages selected_sources
    full_source_content = (calls, Ok (context, citations), self1) ->
  NoDup (od_keys citations).
Proof.
  unfold build_context.
  destruct (latest_user_message messages) as [user_message|e]; [|done].
  destruct (truthy_opt_list full_source_content).
  - rewrite full_context_spec. intros [= _ _ <- _].
    rewrite full_entry_keys. apply NoDup_fmap_2; [apply _|apply NoDup_seq].
  - unfold retrieve_context.
    destruct (_get_vectorstore w self) as [[vs|e] self2]; [|done].
    destruct (search vs notebook_id user_message selected_sources 10)
      as [calls' [results|e]]; [|done].
    destruct (assemble_spec results) as (st & Hrun & Hcit).
    simpl. rewrite Hrun. simpl. intros [= _ _ <- _].
    rewrite Hcit, citation_spec_keys. apply NoDup_seqZ.
Qed.

(** The JSON object of the footer: one member per citation, in order,
    under the decimal rendering of its id. *)
Lemma citation_data_spec citations :
  NoDup (od_keys citations) ->
  citation_data citations =
  (fun entry : Z * CitationInfo =>
     (pretty entry.1,
      JDict [("name", JStr (source_name entry.2));
             ("excerpts", JList (JStr <$> excerpts entry.2))]))
  <$> citations.
Proof.
  intros Hnd. unfold citation_data. apply od_of_list_nodup.
  unfold od_keys in *. rewrite <- list_fmap_compose.
  change (NoDup ((pretty : Z -> string) ∘ fst <$> citations)).
  rewrite list_fmap_compose. apply NoDup_fmap_2; [apply _|done].
Qed.

Lemma build_context_full w self notebook_id messages selected_sources fsc :
  fsc <> [] ->
  build_context w self notebook_id messages selected_sources (Some fsc) =
  ([], (_ ← latest_user_message messages; Ok (full_context fsc)), self).
Proof.
  intros Hne. unfold build_context.
  destruct (latest_user_message messages) as [user_message|e]; [|done].
  by destruct fsc.
Qed.

Lemma citation_footer_spec w citations :
  (citations <> [] ->
   citation_footer w citations =
   [CITATIONS_SENTINEL; json_dumps w (JDict (citation_data citations))]) /\
  (citations = [] -> citation_footer w citations = []).
Proof. destruct citations; split; done. Qed.

(** C5: with a non-empty [full_source_content] of N sources,
    [stream_response] makes no similarity search on any path.  What it
    does is fixed by the N blocks and the N citations of the sources:
    block i + 1 holds the whole content of the i-th source between its
    BEGIN SOURCE and END SOURCE lines, and citation i + 1 (the ids are
    1..N in list order) names the i-th source and has the single excerpt
    "(Full document context used)".  It raises when reading the latest
    message or obtaining the chat provider raises; otherwise it sends
    the chat provider the system prompt with the blocks joined by a
    blank line, followed by the conversation, yields the fragments of
    that stream, and, when the stream ends normally, the sentinel line
    and the JSON object of the N citations. *)
Theorem full_context_bypass w self notebook_id messages selected_sources fsc :
  fsc <> [] ->
  exists blocks citations payload,
    stream_response w self notebook_id messages selected_sources (Some fsc) =
      match latest_user_message messages with
      | Raise e => ([], ([], Some e), self)
      | Ok _ =>
          match get_chat_provider (getenv w) (registry self) with
          | (Raise e, reg) => ([], ([], Some e), with_registry self reg)
          | (Ok chat_provider, reg) =>
              match
                stream_chat w chat_provider
                  ({[ "role" := "system";
                      "content" :=
                        SYSTEM_PROMPT_format
                          (String.concat (nl +:+ nl) blocks) ]}
                   :: messages)
              with
              | (fragments, Some e) =>
                  ([], (fragments, Some e), with_registry self reg)
              | (fragments, None) =>
                  ([],
                   (fragments ++
                    [nl +:+ nl +:+ "---CITATIONS---" +:+ nl;
                     json_dumps w (JDict payload)],
                    None),
                   with_registry self reg)
              end
          end
      end /\
    (stream_response w self notebook_id messages selected_sources
       (Some fsc)).1.1 = [] /\
    build_context w self notebook_id messages selected_sources (Some fsc) =
      ([],
       (_ ← latest_user_message messages;
        Ok (String.concat (nl +:+ nl) blocks, citations)),
       self) /\
    full_context fsc = (String.concat (nl +:+ nl) blocks, citations) /\
    length blocks = length fsc /\
    length citations = length fsc /\
    length payload = length fsc /\
    od_keys citations = seqZ 1 (Z.of_nat (length fsc)) /\
    forall i src, fsc !! i = Some src ->
      blocks !! i =
        Some ("--- BEGIN SOURCE [" +:+ pretty (Z.of_nat i + 1)%Z +:+ "] (" +:+
              default "Unknown" (src !! "name") +:+ ") ---" +:+ nl +:+
              default EmptyString (src !! "content") +:+ nl +:+
              "--- END SOURCE [" +:+ pretty (Z.of_nat i + 1)%Z +:+ "] ---") /\
      citations !! i =
        Some ((Z.of_nat i + 1)%Z,
              {| cit_id := (Z.of_nat i + 1)%Z;
                 source_name := default "Unknown" (src !! "name");
                 excerpts := ["(Full document context used)"] |}) /\
      payload !! i =
        Some (pretty (Z.of_nat i + 1)%Z,
              JDict [("name", JStr (default "Unknown" (src !! "name")));
                     ("excerpts", JList [JStr "(Full document context used)"])]).
Proof.
  intros Hne.
  pose proof (build_context_full w self notebook_id messages selected_sources
                fsc Hne) as Hbuild.
  rewrite full_context_spec in Hbuild.
  assert (Hdata : citation_data (imap full_entry fsc) =
    (fun entry : Z * CitationInfo =>
       (pretty entry.1,
        JDict [("name", JStr (source_name entry.2));
               ("excerpts", JList (JStr <$> excerpts entry.2))]))
    <$> imap full_entry fsc).
  { apply citation_data_spec. rewrite full_entry_keys.
    apply NoDup_fmap_2; [apply _|apply NoDup_seq]. }
  assert (Hcit : imap full_entry fsc <> []).
  { intros Hnil. apply Hne. apply (f_equal length) in Hnil.
    rewrite length_imap in Hnil. by destruct fsc. }
  assert (Hrun :
    stream_response w self notebook_id messages selected_sources (Some fsc) =
    match latest_user_message messages with
    | Raise e => ([], ([], Some e), self)
    | Ok _ =>
        match get_chat_provider (getenv w) (registry self) with
        | (Raise e, reg) => ([], ([], Some e), with_registry self reg)
        | (Ok chat_provider, reg) =>
            match
              stream_chat w chat_provider
                ({[ "role" := "system";
                    "content" :=
                      SYSTEM_PROMPT_format
                        (String.concat (nl +:+ nl) (imap full_block fsc)) ]}
                 :: messages)
            with
            | (fragments, Some e) =>
                ([], (fragments, Some e), with_registry self reg)
            | (fragments, None) =>
                ([],
                 (fragments ++
                  [nl +:+ nl +:+ "---CITATIONS---" +:+ nl;
                   json_dumps w (JDict (citation_data (imap full_entry fsc)))],
                  None),
                 with_registry self reg)
            end
        end
    end).
  { unfold stream_response. rewrite Hbuild.
    destruct (latest_user_message messages) as [user_message|e]; [|done].
    cbn [mbind Result_bind].
    destruct (get_chat_provider _ _) as [[p|e] reg]; [|done].
    unfold augmented_messages.
    destruct (stream_chat w p _) as [fragments [e|]]; [done|].
    by rewrite (proj1 (citation_footer_spec w _) Hcit). }
  exists (imap full_block fsc), (imap full_entry fsc),
    (citation_data (imap full_entry fsc)).
  split; [exact Hrun|]. split.
  { rewrite Hrun.
    destruct (latest_user_message messages) as [user_message|e]; [|done].
    destruct (get_chat_provider _ _) as [[p|e] reg]; [|done].
    by destruct (stream_chat w p _) as [fragments [e|]]. }
  split; [exact Hbuild|]. split; [apply full_context_spec|].
  split; [by rewrite length_imap|]. split; [by rewrite length_imap|].
  split; [by rewrite Hdata, length_fmap, length_imap|]. split.
  { rewrite full_entry_keys. unfold seqZ. rewrite Nat2Z.id.
    apply list_fmap_ext. intros _ j _. unfold cid_of. lia. }
  intros i src Hi. split; [by rewrite list_lookup_imap, Hi|].
  split; [by rewrite list_lookup_imap, Hi|].
  rewrite Hdata, list_lookup_fmap, list_lookup_imap, Hi. done.
Qed.

(** C4: when [stream_response] ends without an exception, the context and
    citation map were built, the chat provider was obtained and its stream
    ended normally; what [stream_response] yielded is every fragment of
    that stream, in order, followed by the footer, so nothing follows the
    footer and no fragment of the provider comes after the sentinel; the
    footer is the sentinel line and one [json.dumps] of the citation
    object when the citation map is not empty, and nothing when it is
    empty; the citation object has, for every citation, in order, the
    member named by the decimal id with the source name and the
    excerpts. *)
Theorem citation_footer_after_stream w self notebook_id messages
    selected_sources full_source_content calls out self' :
  stream_response w self notebook_id messages selected_sources
    full_source_content = (calls, (out, None), self') ->
  exists context citations self1 chat_provider reg fragments,
    build_context w self notebook_id messages selected_sources
      full_source_content = (calls, Ok (context, citations), self1) /\
    get_chat_provider (getenv w) (registry self1) = (Ok chat_provider, reg) /\
    stream_chat w chat_provider (augmented_messages context messages)
      = (fragments, None) /\
    out = fragments ++ citation_footer w citations /\
    (citations <> [] ->
     citation_footer w citations =
     [nl +:+ nl +:+ "---CITATIONS---" +:+ nl;
      json_dumps w (JDict (citation_data citations))]) /\
    (citations = [] -> citation_footer w citations = []) /\
    citation_data citations =
      (fun entry : Z * CitationInfo =>
         (pretty entry.1,
          JDict [("name", JStr (source_name entry.2));
                 ("excerpts", JList (JStr <$> excerpts entry.2))]))
      <$> citations.
Proof.
  unfold stream_response.
  destruct (build_context w self notebook_id messages selected_sources
              full_source_content) as [[calls' [[context citations]|e]] self1]
    eqn:Hbuild; [|done].
  destruct (get_chat_provider (getenv w) (registry self1))
    as [[chat_provider|e] reg] eqn:Hprov; [|done].
  destruct (stream_chat w chat_provider (augmented_messages context messages))
    as [fragments [e|]] eqn:Hchat; [done|].
  intros [= <- <- <-].
  exists context, citations, self1, chat_provider, reg, fragments.
  split; [done|]. split; [done|]. split; [done|]. split; [done|].
  split; [apply citation_footer_spec|]. split; [apply citation_footer_spec|].
  apply citation_data_spec. eapply build_context_keys; eauto.
Qed.

(** C9: when the stream of the chat provider raises [e] after yielding
    [fragments], [stream_chat_response] yields these fragments and then
    the one fragment "Error generating response: " followed by [str(e)],
    and ends normally; more generally whatever exception leaves
    [stream_response] is turned into such a last fragment, so
    [stream_chat_response] never ends with an exception. *)
Theorem stream_chat_response_catches w chain notebook_id messages
    selected_sources full_source_content calls context citations chain1
    chat_provider reg fragments e :
  build_context w chain notebook_id messages selected_sources
    full_source_content = (calls, Ok (context, citations), chain1) ->
  get_chat_provider (getenv w) (registry chain1) = (Ok chat_provider, reg) ->
  stream_chat w chat_provider (augmented_messages context messages)
    = (fragments, Some e) ->
  (stream_chat_response w chain notebook_id messages selected_sources
     full_source_content).1.2
  = (fragments ++ ["Error generating response: " +:+ str_of_exception e], None)
  /\
  (forall chain' notebook_id' messages' selected_sources' full_source_content',
     (stream_chat_response w chain' notebook_id' messages' selected_sources'
        full_source_content').1.2.2 = None /\
     forall fragments' e',
       (stream_response w chain' notebook_id' messages' selected_sources'
          full_source_content').1.2 = (fragments', Some e') ->
       (stream_chat_response w chain' notebook_id' messages' selected_sources'
          full_source_content').1.2.1
       = fragments' ++ ["Error generating response: " +:+ str_of_exception e']).
Proof.
  intros Hbuild Hprov Hchat. split.
  - unfold stream_chat_response, stream_response.
    by rewrite Hbuild, Hprov, Hchat.
  - intros chain' notebook_id' messages' selected_sources' full_source_content'.
    unfold stream_chat_response.
    destruct (stream_response w chain' notebook_id' messages' selected_sources'
                full_source_content') as [[calls' [fragments' [e'|]]] chain2].
    + split; [done|]. by intros ? ? [= <- <-].
    + split; [done|]. by intros ? ? [=].
Qed.

End StreamingFacts.

(** ** A worked scenario

    A notebook with two sources, [intro.txt] (two chunks) and
    [appendix.txt] (one chunk), behind a vector store that answers every
    search from these three chunks. *)

Module Scenario.

Import PyFacts Providers Registry RagChain Rag.
Import CitationFacts RetrievalFacts RetrieveContextFacts RegistryFacts
  StreamingFacts.

Definition chunk (name text : string) : Document :=
  {| page_content := text; metadata := {[ "source_name" := name ]} |}.

Definition stored : list Document :=
  [chunk "intro.txt" "Vectors are arrows in space.";
   chunk "appendix.txt" "A matrix is a table of numbers.";
   chunk "intro.txt" "Arrows can be added tip to tail."].

(** A per-source filter selects the chunks of that source; any other
    filter selects all chunks; at most [k] chunks are returned. *)
Definition store : VectorStore := fun _ k flt =>
  Ok (take (Z.to_nat k)
        match flt with
        | FAnd [_; FEq _ source] =>
            filter (fun d => doc_source_name d = source) stored
        | _ => stored
        end).

(** A plain rendering of JSON values (no escaping). *)
Fixpoint render (j : json) : string :=
  match j with
  | JStr s => dq +:+ s +:+ dq
  | JList l => "[" +:+ String.concat ", " (map render l) +:+ "]"
  | JDict d =>
      "{" +:+
      String.concat ", "
        (map (fun kv : string * json =>
                let (k, v) := kv in dq +:+ k +:+ dq +:+ ": " +:+ render v) d)
      +:+ "}"
  end.

Definition world (chat : Gen) : World :=
  {| getenv := no_env;
     embeddings_client := fun _ => Ok tt;
     chroma := fun _ _ _ _ => Ok store;
     stream_chat := fun _ _ => chat;
     json_dumps := render |}.

Definition answer : Gen := (["Vectors are arrows "; "[1]."], None).

Definition broken_answer : Gen :=
  (["Vectors are "], Some (OtherException "connection reset")).

Definition chain : RAGChain :=
  {| registry := init; collection_name := "notebook_docs";
     _vectorstore := None; _chroma_host := "localhost";
     _chroma_port := 8000 |}.

(** The Ollama adapter as [OllamaProvider()] builds it here. *)
Definition construct_or_ollama : Provider :=
  {| cls := OllamaProvider; api_key := None;
     base_url := Some "http://localhost:11434";
     Providers._chat_model := Some "llama3";
     Providers._embedding_model := Some "nomic-embed-text" |}.

Definition question : list Message :=
  [{[ "role" := "user"; "content" := "What is a vector?" ]}].

Definition two_sources : option (list string) :=
  Some ["intro.txt"; "appendix.txt"].

(** The global search over the notebook: ids 1 and 2, for [intro.txt]
    and [appendix.txt] in this order. *)
Lemma citation_ids_dense_witness :
  _get_vectorstore (world answer) chain =
    (Ok store, (_get_vectorstore (world answer) chain).2) /\
  (search store "N" "What is X?" None 5).2 = Ok stored /\
  exists context citations,
    (retrieve_context (world answer) chain "N" "What is X?" None 5).1.2
    = Ok (context, citations) /\
    od_keys citations = [1; 2]%Z /\
    (fun e : Z * CitationInfo => source_name e.2) <$> citations
    = ["intro.txt"; "appendix.txt"].
Proof.
  split; [reflexivity|]. split; [reflexivity|].
  destruct (citation_ids_dense (world answer) chain "N" "What is X?" None 5
              store (_get_vectorstore (world answer) chain).2 stored
              eq_refl eq_refl)
    as (context & citations & Hret & _ & Hkeys & _ & _ & _ & Hnames & _).
  exists context, citations. split; [exact Hret|].
  split; [rewrite Hkeys|rewrite Hnames]; vm_compute; reflexivity.
Defined.

(** A chunk of 310 letters has an excerpt of 303 characters. *)
Lemma excerpt_truncation_witness :
  _get_vectorstore (world answer) chain =
    (Ok store, (_get_vectorstore (world answer) chain).2) /\
  (search store "N" "What is X?" None 5).2 = Ok stored /\
  String.length (excerpt_of (ChunkingFacts.letters 310)) = 303%nat.
Proof.
  split; [reflexivity|]. split; [reflexivity|].
  destruct (excerpt_truncation (world answer) chain "N" "What is X?" None 5
              store (_get_vectorstore (world answer) chain).2 stored
              eq_refl eq_refl)
    as (context & citations & _ & _ & _ & _ & _ & H310).
  apply H310. vm_compute. reflexivity.
Defined.





(** The answer is streamed first, the footer comes last. *)
Lemma citation_footer_after_stream_witness :
  let run := stream_response (world answer) chain "N" question two_sources None in
  run = (run.1.1, (run.1.2.1, None), run.2) /\
  exists citations,
    run.1.2.1
    = ["Vectors are arrows "; "[1]."] ++ citation_footer (world answer) citations.
Proof.
  intros run. split; [reflexivity|].
  destruct (citation_footer_after_stream (world answer) chain "N" question
              two_sources None run.1.1 run.1.2.1 run.2 eq_refl)
    as (context & citations & self1 & p & reg & fragments &
        _ & _ & Hchat & Hout & _).
  exists citations. rewrite Hout. f_equal.
  simpl in Hchat. unfold answer in Hchat. congruence.
Defined.

Definition two_documents : list (gmap string string) :=
  [{[ "name" := "A"; "content" := "foo" ]};
   {[ "name" := "B"; "content" := "bar" ]}].

(** The sources A (content foo) and B (content bar) in full-context
    mode: no search, and after the answer the sentinel and the JSON
    object of the two citations. *)
Lemma full_context_bypass_witness :
  two_documents <> [] /\
  stream_response (world answer) chain "N" question None (Some two_documents)
  = ([],
     (["Vectors are arrows "; "[1].";
       nl +:+ nl +:+ "---CITATIONS---" +:+ nl;
       "{" +:+ dq +:+ "1" +:+ dq +:+ ": {" +:+ dq +:+ "name" +:+ dq +:+ ": "
       +:+ dq +:+ "A" +:+ dq +:+ ", " +:+ dq +:+ "excerpts" +:+ dq +:+ ": ["
       +:+ dq +:+ "(Full document context used)" +:+ dq +:+ "]}, "
       +:+ dq +:+ "2" +:+ dq +:+ ": {" +:+ dq +:+ "name" +:+ dq +:+ ": "
       +:+ dq +:+ "B" +:+ dq +:+ ", " +:+ dq +:+ "excerpts" +:+ dq +:+ ": ["
       +:+ dq +:+ "(Full document context used)" +:+ dq +:+ "]}}"],
      None),
     (stream_response (world answer) chain "N" question None
        (Some two_documents)).2) /\
  exists blocks,
    blocks !! 1%nat =
      Some ("--- BEGIN SOURCE [2] (B) ---" +:+ nl +:+ "bar" +:+ nl +:+
            "--- END SOURCE [2] ---") /\
    length blocks = 2%nat.
Proof.
  assert (Hne : two_documents <> []) by discriminate.
  destruct (full_context_bypass (world answer) chain "N" question None
              two_documents Hne)
    as (blocks & citations & payload & Hrun & _ & _ & _ & Hlen & _ & _ & _ &
        Hat).
  split; [exact Hne|]. split.
  - vm_compute. reflexivity.
  - exists blocks. split; [|exact Hlen].
    destruct (Hat 1%nat {[ "name" := "B"; "content" := "bar" ]} eq_refl)
      as (Hblock & _). rewrite Hblock. vm_compute. reflexivity.
Defined.

(** Selecting Anthropic for embeddings in a fresh registry is refused
    and Ollama stays selected. *)
Lemma embedding_capability_gate_witness :
  registry_wf init /\
  od_get "anthropic" PROVIDERS = Some AnthropicProvider /\
  supports_embeddings (capabilities_of AnthropicProvider) = false /\
  exists msg reg',
    set_embedding_provider no_env "anthropic" None init =
      (Raise (ValueError msg), reg') /\
    _embedding_provider_name reg' = "ollama".
Proof.
  split; [exact registry_wf_init|]. split; [reflexivity|].
  split; [reflexivity|].
  destruct (embedding_capability_gate no_env init "anthropic" None
              AnthropicProvider registry_wf_init eq_refl eq_refl)
    as ((msg & reg' & Hset & Hname & _) & _).
  exists msg, reg'. split; [exact Hset|]. rewrite Hname. reflexivity.
Defined.

(** What [build_context] gives for the question when the chat backend
    is the broken one. *)
Definition built :
    list SearchCall * Result (string * list (Z * CitationInfo)) * RAGChain :=
  build_context (world broken_answer) chain "N" question two_sources None.

Definition built_pair : string * list (Z * CitationInfo) :=
  match built.1.2 with
  | Ok found => found
  | Raise _ => (EmptyString, [])
  end.

(** The chat backend breaks after one fragment. *)
Lemma stream_chat_response_catches_witness :
  built = (built.1.1, Ok built_pair, built.2) /\
  get_chat_provider no_env (registry built.2) =
    (Ok construct_or_ollama, (get_chat_provider no_env (registry built.2)).2) /\
  (stream_chat_response (world broken_answer) chain "N" question two_sources
     None).1.2
  = (["Vectors are "; "Error generating response: connection reset"], None).
Proof.
  split; [vm_compute; reflexivity|]. split; [vm_compute; reflexivity|].
  destruct (stream_chat_response_catches (world broken_answer) chain "N"
              question two_sources None built.1.1 built_pair.1 built_pair.2
              built.2 construct_or_ollama
              (get_chat_provider no_env (registry built.2)).2
              ["Vectors are "] (OtherException "connection reset"))
    as [Hout _].
  - vm_compute. reflexivity.
  - vm_compute. reflexivity.
  - reflexivity.
  - exact Hout.
Defined.

(** The settings [settings_anthropic] on a fresh registry. *)
Lemma configure_embedding_fallback_witness :
  registry_wf init /\
  set_api_keys no_env [("anthropic", "sk-ant-test")] init =
    (Ok tt, (set_api_keys no_env [("anthropic", "sk-ant-test")] init).2) /\
  exists reg',
    configure_from_settings no_env settings_anthropic init = (Ok tt, reg') /\
    _embedding_provider_name reg' = "ollama" /\
    Registry._embedding_model reg' = Some "nomic-embed-text" /\
    _chat_provider_name reg' = "anthropic".
Proof.
  split; [exact registry_wf_init|]. split; [reflexivity|].
  destruct (configure_embedding_fallback no_env settings_anthropic init
              "anthropic" AnthropicProvider
              (set_api_keys no_env [("anthropic", "sk-ant-test")] init).2
              registry_wf_init eq_refl eq_refl eq_refl eq_refl)
    as (reg' & Hrun & Hname & Hmodel & _ & Hchat & _).
  - eexists. reflexivity.
  - exists reg'. split; [exact Hrun|]. split; [exact Hname|].
    split; [exact Hmodel|exact Hchat].
Defined.

End Scenario.

(** * Further coverage *)

(** ** The rest of the registry ([providers/registry.py]) *)

Module RegistryMore.

Import Providers Registry.

(** [is_configured()]: the key-based adapters test their key; the Ollama
    adapter asks its server, which is the collaborator [ollama_reachable]
    (the request on [base_url] answered with status 200, and no
    exception). *)
Definition is_configured (ollama_reachable : option string -> bool)
    (p : Provider) : bool :=
  match cls p with
  | OllamaProvider => ollama_reachable (base_url p)
  | _ => truthy_opt_str (api_key p)
  end.

(** The inner ["capabilities"] dict of [list_providers]. *)
Record CapabilityFlags : Type := {
  flag_chat : bool;
  flag_streaming : bool;
  flag_embeddings : bool;
  flag_vision : bool;
  flag_function_calling : bool
}.

(** One value of the dict [list_providers] returns. *)
Record ProviderStatus : Type := {
  status_name : string;
  status_configured : bool;
  status_capabilities : CapabilityFlags;
  status_chat_models : list string;
  status_embedding_models : list string
}.

Definition provider_status (ollama_reachable : option string -> bool)
    (name : string) (provider : Provider) : ProviderStatus :=
  {| status_name := name;
     status_configured := is_configured ollama_reachable provider;
     status_capabilities :=
       {| flag_chat := supports_chat (capabilities provider);
          flag_streaming := supports_streaming (capabilities provider);
          flag_embeddings := supports_embeddings (capabilities provider);
          flag_vision := supports_vision (capabilities provider);
          flag_function_calling :=
            supports_function_calling (capabilities provider) |};
     status_chat_models := available_chat_models (capabilities provider);
     status_embedding_models :=
       available_embedding_models (capabilities provider) |}.

(** The loop of [list_providers] over the items of [PROVIDERS]. *)
Fixpoint list_providers_loop (getenv : string -> option string)
    (ollama_reachable : option string -> bool)
    (items : list (string * ProviderClass))
    (result : list (string * ProviderStatus)) (reg : ProviderRegistry)
    : Result (list (string * ProviderStatus)) * ProviderRegistry :=
  match items with
  | [] => (Ok result, reg)
  | (name, _) :: rest =>
      match get_provider getenv name reg with
      | (Raise e, reg1) => (Raise e, reg1)
      | (Ok provider, reg1) =>
          list_providers_loop getenv ollama_reachable rest
            (od_set name (provider_status ollama_reachable name provider)
               result)
            reg1
      end
  end.

Definition list_providers (getenv : string -> option string)
    (ollama_reachable : option string -> bool) (reg : ProviderRegistry)
    : Result (list (string * ProviderStatus)) * ProviderRegistry :=
  list_providers_loop getenv ollama_reachable PROVIDERS [] reg.

End RegistryMore.

Module RegistryLaws.

Import PyFacts Providers Registry RegistryMore RegistryFacts.

Local Arguments od_get {_ _ _} _ _ : simpl never.

(** The state every registry operation keeps: cached instances belong to
    their names, the chat selection is a registered name and the
    embedding selection is a registered name whose class supports
    embeddings. *)
Definition registry_ok (reg : ProviderRegistry) : Prop :=
  registry_wf reg /\
  is_Some (od_get (_chat_provider_name reg) PROVIDERS) /\
  exists c, od_get (_embedding_provider_name reg) PROVIDERS = Some c /\
            supports_embeddings (capabilities_of c) = true.

Lemma registry_ok_init : registry_ok init.
Proof.
  split; [apply registry_wf_init|]. split; [by eexists|].
  exists OllamaProvider. by split.
Qed.

Lemma registry_ok_selection reg reg' :
  registry_ok reg -> registry_wf reg' -> same_selection reg reg' ->
  registry_ok reg'.
Proof.
  intros (_ & Hchat & Hemb) Hwf (Hc & _ & He & _).
  split; [done|]. by rewrite Hc, He.
Qed.

(** [get_provider] in full: an unknown name is refused without any
    change, a cached instance is returned without any change, and
    otherwise the default instance of the class is built and cached. *)
Lemma get_provider_cases getenv name reg :
  (od_get name PROVIDERS = None /\
   exists msg, get_provider getenv name reg = (Raise (ValueError msg), reg)) \/
  (exists c p, od_get name PROVIDERS = Some c /\
     _instances reg !! name = Some p /\
     get_provider getenv name reg = (Ok p, reg)) \/
  (exists c p, od_get name PROVIDERS = Some c /\
     _instances reg !! name = None /\
     construct getenv c None = Ok p /\
     get_provider getenv name reg =
       (Ok p, with_instances reg (<[name := p]> (_instances reg)))).
Proof.
  unfold get_provider.
  destruct (od_get name PROVIDERS) as [c|] eqn:Hc; [|left; eauto].
  right. destruct (_instances reg !! name) as [p|] eqn:Hp.
  - left. eauto.
  - right. destruct (construct_default_ok getenv c) as (p & Hcons & _).
    rewrite Hcons. eauto 10.
Qed.

Lemma get_provider_wf getenv name reg :
  registry_wf reg ->
  registry_wf (get_provider getenv name reg).2 /\
  same_selection reg (get_provider getenv name reg).2.
Proof.
  intros Hwf.
  destruct (get_provider_cases getenv name reg)
    as [(_ & msg & ->)|[(c & p & _ & _ & ->)|(c & p & Hc & _ & Hcons & ->)]];
    simpl; try (split; [done|by repeat split]).
  split; [|by repeat split].
  apply (registry_wf_insert reg name p); [done| |done].
  apply construct_cls in Hcons. congruence.
Qed.

Lemma set_chat_provider_keeps getenv name model reg :
  registry_ok reg -> registry_ok (set_chat_provider getenv name model reg).2.
Proof.
  intros Hok. destruct (od_get name PROVIDERS) as [c|] eqn:Hc.
  - destruct Hok as (Hwf & _ & Hemb).
    destruct (set_chat_provider_ok getenv name model reg Hwf (mk_is_Some _ _ Hc))
      as (reg' & -> & Hwf' & Hcn & _ & Hen & _).
    simpl. split; [done|]. rewrite Hcn, Hen. split; [by eexists|done].
  - unfold set_chat_provider. by rewrite Hc.
Qed.

Lemma set_embedding_provider_keeps getenv name model reg :
  registry_ok reg ->
  registry_ok (set_embedding_provider getenv name model reg).2.
Proof.
  intros Hok. destruct (od_get name PROVIDERS) as [c|] eqn:Hc.
  - pose proof Hok as (Hwf & Hchat & Hemb).
    destruct (supports_embeddings (capabilities_of c)) eqn:Hcap.
    + destruct (set_embedding_provider_ok getenv name model c reg Hwf Hc Hcap)
        as (reg' & -> & Hwf' & Hcn & _ & Hen & _).
      simpl. split; [done|]. rewrite Hcn, Hen. split; [done|eauto].
    + destruct (set_embedding_provider_refused getenv name model c reg Hwf Hc
                  Hcap) as (reg' & -> & Hwf' & Hsel).
      simpl. by eapply registry_ok_selection.
  - unfold set_embedding_provider. by rewrite Hc.
Qed.

Lemma set_api_keys_selection getenv keys reg :
  same_selection reg (set_api_keys getenv keys reg).2.
Proof.
  revert reg. induction keys as [|[name key] rest IH]; intros reg;
    cbn [set_api_keys]; [by repeat split|].
  destruct (_instances reg !! name) as [p|].
  - destruct (IH (with_instances reg
                    (<[name := set_api_key key p]> (_instances reg))))
      as (? & ? & ? & ?). by repeat split.
  - destruct (od_get name PROVIDERS) as [c|]; [|apply IH].
    destruct (construct getenv c (Some key)) as [p|e]; [|by repeat split].
    destruct (IH (with_instances reg (<[name := p]> (_instances reg))))
      as (? & ? & ? & ?). by repeat split.
Qed.

Lemma set_api_keys_keeps getenv keys reg :
  registry_ok reg -> registry_ok (set_api_keys getenv keys reg).2.
Proof.
  intros Hok. eapply registry_ok_selection; [done| |].
  - destruct (set_api_keys getenv keys reg) as [res reg'] eqn:Hrun.
    eapply set_api_keys_wf; [apply Hok|done].
  - apply set_api_keys_selection.
Qed.

Lemma configure_from_settings_keeps getenv settings reg :
  registry_ok reg ->
  registry_ok (configure_from_settings getenv settings reg).2.
Proof.
  intros Hok. unfold configure_from_settings.
  pose proof (set_api_keys_keeps getenv (default [] (api_keys settings)) reg
                Hok) as H1.
  destruct (set_api_keys getenv _ reg) as [[[]|e] reg1]; [|done].
  simpl in H1.
  pose proof (set_chat_provider_keeps getenv
                (default "ollama" (chat_provider settings))
                (chat_model settings) reg1 H1) as H2.
  destruct (set_chat_provider getenv _ _ reg1) as [[[]|e] reg2]; [|done].
  simpl in H2.
  pose proof (set_embedding_provider_keeps getenv
                (default "ollama" (embedding_provider settings))
                (embedding_model settings) reg2 H2) as H3.
  destruct (set_embedding_provider getenv _ _ reg2) as [[[]|e] reg3]; [done|].
  simpl in H3. destruct (is_ValueError e); [|done].
  by apply set_embedding_provider_keeps.
Qed.

(** X1: the registry invariant holds for a fresh registry and every
    operation keeps it, whether it returns or raises: [get_provider],
    [set_chat_provider], [set_embedding_provider], the API-key loop and
    [configure_from_settings]. *)
Theorem registry_ok_preserved getenv reg :
  registry_ok reg ->
  (forall name, registry_ok (get_provider getenv name reg).2) /\
  (forall name model, registry_ok (set_chat_provider getenv name model reg).2) /\
  (forall name model,
     registry_ok (set_embedding_provider getenv name model reg).2) /\
  (forall keys, registry_ok (set_api_keys getenv keys reg).2) /\
  (forall settings,
     registry_ok (configure_from_settings getenv settings reg).2).
Proof.
  intros Hok. split; [|split; [|split; [|split]]].
  - intros name. destruct (get_provider_wf getenv name reg) as [Hwf Hsel];
      [apply Hok|]. by eapply registry_ok_selection.
  - intros. by apply set_chat_provider_keeps.
  - intros. by apply set_embedding_provider_keeps.
  - intros. by apply set_api_keys_keeps.
  - intros. by apply configure_from_settings_keeps.
Qed.

Lemma embedding_provider_at_hand getenv reg :
  registry_ok reg ->
  exists p reg1 c,
    get_embedding_provider getenv reg = (Ok p, reg1) /\
    od_get (_embedding_provider_name reg) PROVIDERS = Some c /\ cls p = c /\
    registry_ok reg1 /\
    forall new_client model, exists args,
      emb_client args = c /\
      get_embeddings new_client p model = (_ ← new_client args; Ok args).
Proof.
  intros Hok. pose proof Hok as (Hwf & _ & ce & Hce & Hcap).
  destruct (get_provider_ok getenv _ ce reg Hwf Hce)
    as (p & reg1 & Hget & Hcls & _ & Hwf1 & Hsel).
  exists p, reg1, ce. split; [done|]. split; [done|]. split; [done|].
  split; [by eapply registry_ok_selection|].
  intros new_client model. unfold get_embeddings. rewrite Hcls.
  destruct ce; try discriminate; cbv zeta;
    (eexists; split; [|reflexivity]; reflexivity).
Qed.

(** X2: in a registry that satisfies the invariant the active providers
    are always at hand: [get_chat_provider] and [get_embedding_provider]
    return instances of the selected classes.  The active embedding
    provider never refuses to give embeddings: for every model name
    [get_embeddings] builds the arguments of the client of the selected
    class and hands them out when the constructor of the client accepts
    them; the only exception it can raise is the one of that
    constructor (as the OpenAI and Gemini clients raise without a
    key). *)
Theorem active_providers_available getenv reg :
  registry_ok reg ->
  (exists p reg1 c,
     get_chat_provider getenv reg = (Ok p, reg1) /\
     od_get (_chat_provider_name reg) PROVIDERS = Some c /\ cls p = c /\
     registry_ok reg1) /\
  (exists p reg1 c,
     get_embedding_provider getenv reg = (Ok p, reg1) /\
     od_get (_embedding_provider_name reg) PROVIDERS = Some c /\ cls p = c /\
     registry_ok reg1 /\
     forall new_client model, exists args,
       emb_client args = c /\
       get_embeddings new_client p model = (_ ← new_client args; Ok args) /\
       (new_client args = Ok tt ->
        get_embeddings new_client p model = Ok args) /\
       (forall e, new_client args = Raise e ->
          get_embeddings new_client p model = Raise e)).
Proof.
  intros Hok. pose proof Hok as (Hwf & [cc Hcc] & _). split.
  - destruct (get_provider_ok getenv _ cc reg Hwf Hcc)
      as (p & reg1 & Hget & Hcls & _ & Hwf1 & Hsel).
    exists p, reg1, cc. split; [done|]. split; [done|]. split; [done|].
    by eapply registry_ok_selection.
  - destruct (embedding_provider_at_hand getenv reg Hok)
      as (p & reg1 & c & Hget & Hc & Hcls & Hok1 & Hemb).
    exists p, reg1, c. split; [done|]. split; [done|]. split; [done|].
    split; [done|]. intros new_client model.
    destruct (Hemb new_client model) as (args & Hclient & Hrun).
    exists args. split; [done|]. split; [done|].
    rewrite Hrun. split; [by intros ->|by intros e ->].
Qed.

(** X3: the registry caches one instance per provider name: once
    [get_provider] has returned an instance for a name, asking again
    returns the same instance and changes nothing, and the first call
    touched no other name. *)
Theorem get_provider_cached getenv name reg p reg1 :
  get_provider getenv name reg = (Ok p, reg1) ->
  get_provider getenv name reg1 = (Ok p, reg1) /\
  _instances reg1 !! name = Some p /\
  (forall q, _instances reg !! name = Some q -> p = q /\ reg1 = reg) /\
  (forall other, other <> name ->
     _instances reg1 !! other = _instances reg !! other).
Proof.
  intros Hget.
  destruct (get_provider_cases getenv name reg)
    as [(_ & msg & Heq)|[(c & p' & Hc & Hp & Heq)|(c & p' & Hc & Hp & _ & Heq)]];
    rewrite Heq in Hget; inversion Hget; subst; clear Hget.
  - split; [done|]. split; [done|]. split; [|done].
    intros q Hq. rewrite Hp in Hq. by inversion Hq.
  - split.
    + unfold get_provider. rewrite Hc. simpl. by rewrite lookup_insert_eq.
    + simpl. split; [by rewrite lookup_insert_eq|]. split.
      * intros q Hq. by rewrite Hp in Hq.
      * intros other Hne. by rewrite lookup_insert_ne.
Qed.

(** X4: selecting a chat provider and then asking for the active chat
    provider: the instance belongs to the selected class; a non-empty
    model name has been stored in the adapter; with no model name, or an
    empty one, the adapter is the cached instance as it was, or the
    default instance of the class when none was cached. *)
Theorem set_then_get_chat_provider getenv name model c reg :
  registry_wf reg ->
  od_get name PROVIDERS = Some c ->
  exists reg1 p reg2,
    set_chat_provider getenv name model reg = (Ok tt, reg1) /\
    get_chat_provider getenv reg1 = (Ok p, reg2) /\
    cls p = c /\ _chat_provider_name reg1 = name /\
    Registry._chat_model reg1 = model /\
    (forall m, model = Some m -> truthy_str m = true ->
       Providers._chat_model p = Some m /\ reg2 = reg1) /\
    (truthy_opt_str model = false ->
       (forall q, _instances reg !! name = Some q -> p = q) /\
       (_instances reg !! name = None -> construct getenv c None = Ok p)).
Proof.
  intros Hwf Hc. unfold set_chat_provider, get_chat_provider. rewrite Hc.
  set (reg0 := {| _instances := _instances reg;
                  _chat_provider_name := name;
                  Registry._chat_model := model;
                  _embedding_provider_name := _embedding_provider_name reg;
                  Registry._embedding_model := Registry._embedding_model reg |}).
  assert (Hwf0 : registry_wf reg0) by exact Hwf.
  assert (Hplain :
    exists p reg2,
      get_provider getenv (_chat_provider_name reg0) reg0 = (Ok p, reg2) /\
      cls p = c /\
      (forall q, _instances reg !! name = Some q -> p = q) /\
      (_instances reg !! name = None -> construct getenv c None = Ok p)).
  { destruct (get_provider_cases getenv name reg0)
      as [(Hn & _)|[(c' & p & Hc' & Hp & Heq)|(c' & p & Hc' & Hp & Hcons & Heq)]].
    - congruence.
    - exists p, reg0. split; [done|]. split.
      + apply Hwf0 in Hp. congruence.
      + split; [|simpl in Hp; congruence].
        intros q Hq. simpl in Hp. congruence.
    - eexists p, _. split; [done|]. split.
      + apply construct_cls in Hcons. congruence.
      + split; [simpl in Hp; congruence|]. intros _. congruence. }
  destruct model as [m|]; [destruct (truthy_str m) eqn:Hm|].
  - destruct (get_provider_ok getenv name c reg0 Hwf0 Hc)
      as (p & reg1 & Hget & Hcls & Hp & Hwf1 & Hs1 & Hs2 & Hs3 & Hs4).
    rewrite Hget.
    eexists _, (set_chat_model m p), _. split; [done|].
    cbn [_chat_provider_name with_instances]. rewrite Hs1. cbn.
    unfold get_provider. rewrite Hc. cbn. rewrite lookup_insert_eq.
    split; [done|]. split; [done|]. split; [done|]. split; [by rewrite Hs2|].
    split; [by intros m' [= <-] _|].
    cbn [truthy_opt_str]. intros Hf. congruence.
  - destruct Hplain as (p & reg2 & Hget & Hcls & Hcached & Hfresh).
    exists reg0, p, reg2. split; [done|]. split; [done|].
    split; [done|]. split; [done|]. split; [done|].
    split; [|done]. intros m' [= <-]. congruence.
  - destruct Hplain as (p & reg2 & Hget & Hcls & Hcached & Hfresh).
    exists reg0, p, reg2. split; [done|]. split; [done|].
    split; [done|]. split; [done|]. split; [done|].
    split; [|done]. by intros m' [=].
Qed.

(** X5: what [configure_from_settings] selects for embeddings.  When
    loading the API keys raises nothing and the chat provider of the
    settings is registered, the call returns normally; the active
    embedding provider is the requested one when that is a registered
    provider with embedding support, and ["ollama"] in every other case,
    also for a name that is not registered at all; the requested
    embedding model and the chat selection are applied as given. *)
Theorem configure_embedding_selection getenv settings reg reg1 :
  registry_wf reg ->
  set_api_keys getenv (default [] (api_keys settings)) reg = (Ok tt, reg1) ->
  is_Some (od_get (default "ollama" (chat_provider settings)) PROVIDERS) ->
  exists reg',
    configure_from_settings getenv settings reg = (Ok tt, reg') /\
    _embedding_provider_name reg' =
      match od_get (default "ollama" (embedding_provider settings)) PROVIDERS
      with
      | Some c =>
          if supports_embeddings (capabilities_of c)
          then default "ollama" (embedding_provider settings)
          else "ollama"
      | None => "ollama"
      end /\
    Registry._embedding_model reg' = embedding_model settings /\
    _chat_provider_name reg' = default "ollama" (chat_provider settings) /\
    Registry._chat_model reg' = chat_model settings.
Proof.
  intros Hwf Hkeys Hchat.
  unfold configure_from_settings. rewrite Hkeys.
  pose proof (set_api_keys_wf _ _ _ _ _ Hwf Hkeys) as Hwf1.
  destruct (set_chat_provider_ok getenv _ (chat_model settings) reg1 Hwf1 Hchat)
    as (reg2 & -> & Hwf2 & Hcn & Hcm & _ & _).
  set (requested := default "ollama" (embedding_provider settings)).
  assert (Hfallback : forall reg3,
    registry_wf reg3 ->
    _chat_provider_name reg3 = _chat_provider_name reg2 ->
    Registry._chat_model reg3 = Registry._chat_model reg2 ->
    exists reg',
      set_embedding_provider getenv "ollama" (embedding_model settings) reg3
        = (Ok tt, reg') /\
      _embedding_provider_name reg' = "ollama" /\
      Registry._embedding_model reg' = embedding_model settings /\
      _chat_provider_name reg' = default "ollama" (chat_provider settings) /\
      Registry._chat_model reg' = chat_model settings).
  { intros reg3 Hwf3 H1 H2.
    destruct (set_embedding_provider_ok getenv "ollama"
                (embedding_model settings) OllamaProvider reg3 Hwf3
                eq_refl eq_refl)
      as (reg' & Hrun & _ & Hc1 & Hc2 & Hen & Hem & _).
    exists reg'. split; [done|]. split; [done|]. split; [done|].
    split; congruence. }
  destruct (od_get requested PROVIDERS) as [c|] eqn:Hc.
  - destruct (supports_embeddings (capabilities_of c)) eqn:Hcap.
    + destruct (set_embedding_provider_ok getenv requested
                  (embedding_model settings) c reg2 Hwf2 Hc Hcap)
        as (reg' & -> & _ & Hc1 & Hc2 & Hen & Hem & _).
      exists reg'. split; [done|]. split; [done|]. split; [done|].
      split; congruence.
    + destruct (set_embedding_provider_refused getenv requested
                  (embedding_model settings) c reg2 Hwf2 Hc Hcap)
        as (reg3 & -> & Hwf3 & Hs1 & Hs2 & _ & _).
      cbn [is_ValueError]. by apply Hfallback.
  - unfold set_embedding_provider at 1. rewrite Hc. cbn [is_ValueError].
    by apply Hfallback.
Qed.

Lemma od_get_ollama name :
  od_get name PROVIDERS = Some OllamaProvider <-> name = "ollama".
Proof.
  unfold od_get, PROVIDERS. repeat case_decide; subst; split; congruence.
Qed.

Lemma construct_with_key getenv c key :
  c <> OllamaProvider ->
  exists p, construct getenv c (Some key) = Ok p /\ cls p = c /\
            (truthy_str key = true -> api_key p = Some key).
Proof.
  intros Hc. destruct c; [done| | |]; simpl; eexists; (split; [done|]);
    (split; [done|]); unfold or_else; simpl; by intros ->.
Qed.

Lemma set_api_keys_raises getenv keys reg :
  "ollama" ∈ keys.*1 -> _instances reg !! "ollama" = None ->
  exists msg reg', set_api_keys getenv keys reg = (Raise (TypeError msg), reg').
Proof.
  revert reg. induction keys as [|[name key] rest IH]; intros reg Hin Hnone.
  { by apply elem_of_nil in Hin. }
  cbn [set_api_keys]. rewrite fmap_cons, elem_of_cons in Hin. simpl in Hin.
  destruct (_instances reg !! name) as [p|] eqn:Hp.
  - assert (Hne : name <> "ollama") by congruence.
    apply IH; [destruct Hin; congruence|].
    simpl. by rewrite lookup_insert_ne.
  - destruct (od_get name PROVIDERS) as [c|] eqn:Hc.
    + destruct (decide (c = OllamaProvider)) as [->|Hc'].
      * simpl. eauto.
      * assert (Hne : name <> "ollama").
        { intros ->. apply Hc'. by inversion Hc. }
        destruct (construct_with_key getenv c key Hc') as (p & -> & _).
        apply IH; [destruct Hin; congruence|].
        simpl. by rewrite lookup_insert_ne.
    + assert (Hne : name <> "ollama") by (intros ->; discriminate).
      apply IH; [destruct Hin; congruence|done].
Qed.

Lemma set_api_keys_returns getenv keys reg :
  ~ ("ollama" ∈ keys.*1 /\ _instances reg !! "ollama" = None) ->
  exists reg', set_api_keys getenv keys reg = (Ok tt, reg').
Proof.
  revert reg. induction keys as [|[name key] rest IH]; intros reg Hcond.
  { by exists reg. }
  cbn [set_api_keys]. rewrite fmap_cons, elem_of_cons in Hcond.
  simpl in Hcond.
  destruct (_instances reg !! name) as [p|] eqn:Hp.
  - apply IH. simpl. intros [Hin Hnone]. apply Hcond.
    destruct (decide (name = "ollama")) as [->|Hne].
    + by rewrite lookup_insert_eq in Hnone.
    + rewrite lookup_insert_ne in Hnone by done. tauto.
  - destruct (od_get name PROVIDERS) as [c|] eqn:Hc.
    + destruct (decide (c = OllamaProvider)) as [->|Hc'].
      * apply od_get_ollama in Hc. subst name. exfalso. apply Hcond. tauto.
      * assert (Hne : name <> "ollama").
        { intros ->. apply Hc'. by inversion Hc. }
        destruct (construct_with_key getenv c key Hc') as (p & -> & _).
        apply IH. simpl. intros [Hin Hnone]. apply Hcond.
        rewrite lookup_insert_ne in Hnone by done. tauto.
    + apply IH. intros [Hin Hnone]. apply Hcond. tauto.
Qed.

(** X6: the API-key loop raises exactly when the keys name ["ollama"]
    while no Ollama instance is cached (the Ollama constructor takes no
    key): then it raises a [TypeError], and [configure_from_settings]
    raises it too and leaves the chat and embedding selection as they
    were; in every other case the loop returns normally. *)
Theorem api_key_for_ollama_raises getenv reg :
  (forall keys,
     "ollama" ∈ keys.*1 -> _instances reg !! "ollama" = None ->
     exists msg reg',
       set_api_keys getenv keys reg = (Raise (TypeError msg), reg')) /\
  (forall keys,
     ~ ("ollama" ∈ keys.*1 /\ _instances reg !! "ollama" = None) ->
     exists reg', set_api_keys getenv keys reg = (Ok tt, reg')) /\
  (forall settings keys,
     api_keys settings = Some keys ->
     "ollama" ∈ keys.*1 -> _instances reg !! "ollama" = None ->
     exists msg reg',
       configure_from_settings getenv settings reg
         = (Raise (TypeError msg), reg') /\
       same_selection reg reg').
Proof.
  split; [intros; by apply set_api_keys_raises|].
  split; [intros; by apply set_api_keys_returns|].
  intros settings keys Hkeys Hin Hnone.
  destruct (set_api_keys_raises getenv keys reg Hin Hnone) as (msg & reg' & Hrun).
  exists msg, reg'. unfold configure_from_settings. rewrite Hkeys. simpl.
  rewrite Hrun. split; [done|].
  pose proof (set_api_keys_selection getenv keys reg) as Hsel.
  by rewrite Hrun in Hsel.
Qed.

Lemma set_api_keys_frame getenv keys reg name :
  name ∉ keys.*1 ->
  _instances (set_api_keys getenv keys reg).2 !! name = _instances reg !! name.
Proof.
  revert reg. induction keys as [|[n key] rest IH]; intros reg Hnin; [done|].
  cbn [set_api_keys]. rewrite fmap_cons, not_elem_of_cons in Hnin.
  simpl in Hnin. destruct Hnin as [Hne Hnin].
  destruct (_instances reg !! n) as [p|].
  - rewrite IH by done. simpl. by rewrite lookup_insert_ne.
  - destruct (od_get n PROVIDERS) as [c|]; [|by apply IH].
    destruct (construct getenv c (Some key)) as [p|e]; [|done].
    rewrite IH by done. simpl. by rewrite lookup_insert_ne.
Qed.

(** X7: the effect of the API-key loop when it returns, for keys with
    distinct provider names.  A cached instance gets the key as it is;
    a registered provider without an instance is built with the key (a
    non-empty key is the key of the new instance); a name that is not
    registered gets no instance; and no other instance is touched. *)
Theorem set_api_keys_effect getenv keys reg reg' :
  NoDup keys.*1 ->
  set_api_keys getenv keys reg = (Ok tt, reg') ->
  (forall name key, (name, key) ∈ keys ->
     (forall p, _instances reg !! name = Some p ->
        _instances reg' !! name = Some (set_api_key key p)) /\
     (forall c, _instances reg !! name = None ->
        od_get name PROVIDERS = Some c ->
        exists p, construct getenv c (Some key) = Ok p /\
                  _instances reg' !! name = Some p /\
                  (truthy_str key = true -> api_key p = Some key)) /\
     (_instances reg !! name = None -> od_get name PROVIDERS = None ->
        _instances reg' !! name = None)) /\
  (forall name, name ∉ keys.*1 ->
     _instances reg' !! name = _instances reg !! name).
Proof.
  intros Hnd Hrun. split.
  2:{ intros name Hnin.
      pose proof (set_api_keys_frame getenv keys reg name Hnin) as H.
      by rewrite Hrun in H. }
  revert reg Hnd Hrun.
  induction keys as [|[n k] rest IH]; intros reg Hnd Hrun name key Hin.
  { by apply elem_of_nil in Hin. }
  rewrite fmap_cons in Hnd. apply NoDup_cons in Hnd as [Hfresh Hnd].
  simpl in Hfresh. cbn [set_api_keys] in Hrun.
  apply elem_of_cons in Hin as [[= -> ->]|Hin].
  - (* the entry processed first; the rest leaves the name alone *)
    destruct (_instances reg !! n) as [p|] eqn:Hp.
    + pose proof (set_api_keys_frame getenv rest
                    (with_instances reg
                       (<[n := set_api_key k p]> (_instances reg)))
                    n Hfresh) as Hframe.
      rewrite Hrun in Hframe. simpl in Hframe.
      rewrite lookup_insert_eq in Hframe.
      split; [by intros q [= <-]|]. split; by intros.
    + destruct (od_get n PROVIDERS) as [c|] eqn:Hc.
      * destruct (construct getenv c (Some k)) as [p|e] eqn:Hcons; [|done].
        pose proof (set_api_keys_frame getenv rest
                      (with_instances reg (<[n := p]> (_instances reg)))
                      n Hfresh) as Hframe.
        rewrite Hrun in Hframe. simpl in Hframe.
        rewrite lookup_insert_eq in Hframe.
        split; [done|]. split; [|done].
        intros c' _ [= <-]. exists p. split; [done|]. split; [done|].
        assert (Hc' : c <> OllamaProvider).
        { intros ->. by simpl in Hcons. }
        destruct (construct_with_key getenv c k Hc') as (p' & Hp' & _ & Hkey).
        rewrite Hcons in Hp'. by inversion Hp'.
      * pose proof (set_api_keys_frame getenv rest reg n Hfresh) as Hframe.
        rewrite Hrun in Hframe. simpl in Hframe.
        split; [done|]. split; [done|]. intros _ _. by rewrite Hframe.
  - (* an entry of the rest: the first entry leaves its name alone *)
    assert (Hne : n <> name).
    { intros ->. apply Hfresh. by apply (list_elem_of_fmap_2 fst rest (name, key)). }
    assert (Hstep : forall reg1,
      set_api_keys getenv rest reg1 = (Ok tt, reg') ->
      _instances reg1 !! name = _instances reg !! name ->
      (forall p, _instances reg !! name = Some p ->
         _instances reg' !! name = Some (set_api_key key p)) /\
      (forall c, _instances reg !! name = None ->
         od_get name PROVIDERS = Some c ->
         exists p, construct getenv c (Some key) = Ok p /\
                   _instances reg' !! name = Some p /\
                   (truthy_str key = true -> api_key p = Some key)) /\
      (_instances reg !! name = None -> od_get name PROVIDERS = None ->
         _instances reg' !! name = None)).
    { intros reg1 Hrun1 Heq. rewrite <- Heq. by apply (IH reg1). }
    destruct (_instances reg !! n) as [p|] eqn:Hp.
    + apply (Hstep _ Hrun). simpl. by rewrite lookup_insert_ne.
    + destruct (od_get n PROVIDERS) as [c|] eqn:Hc; [|by apply (Hstep _ Hrun)].
      destruct (construct getenv c (Some k)) as [p|e] eqn:Hcons; [|done].
      apply (Hstep _ Hrun). simpl. by rewrite lookup_insert_ne.
Qed.

Lemma get_provider_monotone getenv name reg p reg1 :
  get_provider getenv name reg = (Ok p, reg1) ->
  forall n q, _instances reg !! n = Some q -> _instances reg1 !! n = Some q.
Proof.
  intros Hget n q Hq.
  destruct (get_provider_cases getenv name reg)
    as [(_ & msg & Heq)|[(c & p' & _ & _ & Heq)|(c & p' & _ & Hp & _ & Heq)]];
    rewrite Heq in Hget; inversion Hget; subst; clear Hget; [done|].
  simpl. rewrite lookup_insert_ne; [done|]. intros ->. congruence.
Qed.

Lemma list_providers_loop_spec getenv reach items result reg :
  registry_wf reg ->
  (forall n c, (n, c) ∈ items -> od_get n PROVIDERS = Some c) ->
  NoDup items.*1 ->
  (forall n, n ∈ items.*1 -> n ∉ od_keys result) ->
  exists added reg',
    list_providers_loop getenv reach items result reg
      = (Ok (result ++ added), reg') /\
    registry_wf reg' /\ same_selection reg reg' /\
    (forall n q, _instances reg !! n = Some q -> _instances reg' !! n = Some q) /\
    added.*1 = items.*1 /\
    forall n st, (n, st) ∈ added ->
      exists p, _instances reg' !! n = Some p /\ st = provider_status reach n p.
Proof.
  revert result reg.
  induction items as [|[name c] rest IH]; intros result reg Hwf Hreg Hnd Hfresh.
  { exists [], reg. rewrite app_nil_r. repeat split; try done.
    intros n st Hin. by apply elem_of_nil in Hin. }
  cbn [list_providers_loop].
  destruct (get_provider_ok getenv name c reg Hwf (Hreg name c ltac:(left)))
    as (p & reg1 & Hget & Hcls & Hp & Hwf1 & Hsel1).
  rewrite Hget. rewrite fmap_cons in Hnd. apply NoDup_cons in Hnd as [Hn Hnd].
  simpl in Hn.
  rewrite od_set_fresh by (apply Hfresh; rewrite fmap_cons; left).
  destruct (IH (result ++ [(name, provider_status reach name p)]) reg1 Hwf1)
    as (added & reg' & Hrun & Hwf' & Hsel' & Hmono & Hnames & Hentries).
  - intros n c' Hin. apply Hreg. by right.
  - done.
  - intros n Hin. unfold od_keys. rewrite fmap_app, not_elem_of_app. split.
    + apply Hfresh. rewrite fmap_cons. by right.
    + simpl. rewrite list_elem_of_singleton. intros ->. done.
  - exists ((name, provider_status reach name p) :: added), reg'.
    rewrite Hrun, <- app_assoc. split; [done|]. split; [done|]. split.
    { destruct Hsel1 as (? & ? & ? & ?), Hsel' as (? & ? & ? & ?).
      repeat split; congruence. }
    split.
    { intros n q Hq. apply Hmono. by eapply get_provider_monotone. }
    split; [by rewrite !fmap_cons, Hnames|].
    intros n st Hin. apply elem_of_cons in Hin as [[= -> ->]|Hin].
    + exists p. split; [by apply Hmono|done].
    + by apply Hentries.
Qed.

(** X8: [list_providers] on a registry whose instances belong to their
    names returns the four registered providers in the order of
    [PROVIDERS]; it creates the missing instances, leaves the cached ones
    and the selection as they were, and reports for every provider the
    capabilities of its class, so that embedding support is reported as
    missing for ["anthropic"] and for no other provider. *)
Theorem list_providers_spec getenv reach reg :
  registry_wf reg ->
  exists result reg',
    list_providers getenv reach reg = (Ok result, reg') /\
    od_keys result = ["ollama"; "gemini"; "anthropic"; "openai"] /\
    same_selection reg reg' /\ registry_wf reg' /\
    (forall n q, _instances reg !! n = Some q -> _instances reg' !! n = Some q) /\
    (forall n st, (n, st) ∈ result ->
       exists p, _instances reg' !! n = Some p /\
                 st = provider_status reach n p /\
                 od_get n PROVIDERS = Some (cls p) /\
                 (flag_embeddings (status_capabilities st) = false
                  <-> n = "anthropic")).
Proof.
  intros Hwf.
  destruct (list_providers_loop_spec getenv reach PROVIDERS [] reg Hwf)
    as (added & reg' & Hrun & Hwf' & Hsel & Hmono & Hnames & Hentries).
  - intros n c Hin. unfold PROVIDERS in Hin.
    repeat (apply elem_of_cons in Hin as [[= -> ->]|Hin]; [done|]).
    by apply elem_of_nil in Hin.
  - apply (bool_decide_unpack _). by vm_compute.
  - intros n _. apply not_elem_of_nil.
  - exists added, reg'. split; [done|]. split; [done|]. split; [done|].
    split; [done|]. split; [done|].
    intros n st Hin. destruct (Hentries n st Hin) as (p & Hp & ->).
    exists p. split; [done|]. split; [done|].
    pose proof (Hwf' n p Hp) as Hcls. split; [done|].
    simpl. unfold capabilities. revert Hcls. unfold od_get, PROVIDERS.
    repeat case_decide; subst; intros [= <-]; simpl; split; congruence.
Qed.

End RegistryLaws.

(** ** More on retrieval and streaming ([chains/rag_chain.py], [rag.py]) *)

Module RetrievalLaws.

Import PyFacts Providers Registry RagChain Rag.
Import CitationFacts RetrievalFacts RegistryFacts RegistryLaws.

Local Arguments excerpt_of : simpl never.
Local Arguments source_block : simpl never.

(** X9: the vector store is created once.  With a registry that
    satisfies the invariant, creating it can fail in two places only,
    in this order: the constructor of the embeddings client of the
    active embedding provider (as the OpenAI and Gemini clients raise
    without a key), and then the Chroma client, which is not reached
    when the embeddings client was refused.  A cached store is returned
    as it is; and once a store has been created it stays in use
    whatever happens to the registry or to the environment afterwards
    (a later change of the embedding provider does not reach it). *)
Theorem vectorstore_created_once w self :
  registry_ok (registry self) ->
  (forall vs, _vectorstore self = Some vs ->
     _get_vectorstore w self = (Ok vs, self)) /\
  (_vectorstore self = None ->
     exists p reg1 args,
       get_embedding_provider (getenv w) (registry self) = (Ok p, reg1) /\
       emb_client args = cls p /\
       get_embeddings (embeddings_client w) p None
         = (_ ← embeddings_client w args; Ok args) /\
       _get_vectorstore w self =
         match embeddings_client w args with
         | Raise e => (Raise e, with_registry self reg1)
         | Ok _ =>
             match chroma w (_chroma_host self) (_chroma_port self)
                     (collection_name self) args with
             | Ok vs => (Ok vs, with_vectorstore (with_registry self reg1) vs)
             | Raise e => (Raise e, with_registry self reg1)
             end
         end) /\
  (forall vs self1,
     _get_vectorstore w self = (Ok vs, self1) ->
     registry_ok (registry self1) /\
     forall w' reg',
       _get_vectorstore w' (with_registry self1 reg')
       = (Ok vs, with_registry self1 reg')).
Proof.
  intros Hok.
  destruct (embedding_provider_at_hand (getenv w) (registry self) Hok)
    as (p & reg1 & c & Hget & _ & Hcls & Hok1 & Hemb).
  destruct (Hemb (embeddings_client w) None) as (args & Hclient & Hargs).
  split; [|split].
  - intros vs Hvs. unfold _get_vectorstore. by rewrite Hvs.
  - intros Hnone. exists p, reg1, args. split; [done|].
    split; [congruence|]. split; [done|].
    unfold _get_vectorstore. rewrite Hnone, Hget, Hargs.
    destruct (embeddings_client w args) as [[]|e]; [|done].
    cbn [mbind Result_bind].
    by destruct (chroma w _ _ _ args).
  - intros vs self1. unfold _get_vectorstore.
    destruct (_vectorstore self) as [vs0|] eqn:Hvs0.
    + intros [= <- <-]. split; [done|]. intros w' reg'. simpl. by rewrite Hvs0.
    + rewrite Hget, Hargs.
      destruct (embeddings_client w args) as [[]|e]; [|done].
      cbn [mbind Result_bind].
      destruct (chroma w _ _ _ args) as [vs1|e]; [|done].
      intros [= <- <-]. split; [done|]. by intros w' reg'.
Qed.

(** One iteration of the citation loop appends one block, numbered with
    the id its source has in [source_map] afterwards. *)
Lemma assemble_step_context st doc st' :
  assemble_step st doc = Ok st' ->
  exists cid,
    source_map st' !! doc_source_name doc = Some cid /\
    context_parts st' =
      context_parts st ++
      [source_block cid (doc_source_name doc) (page_content doc)].
Proof.
  unfold assemble_step.
  set (st1 := assign_citation (doc_source_name doc) st).
  assert (Hparts : context_parts st1 = context_parts st).
  { unfold st1, assign_citation. by destruct (source_map st !! _). }
  destruct (source_map st1 !! doc_source_name doc) as [cid|] eqn:Hcid; [|done].
  destruct (od_get cid (citation_info st1)) as [info|]; [|done].
  intros [= <-]. exists cid. simpl. by rewrite Hparts.
Qed.

(** The block of a chunk, given the distinct source names seen so far. *)
Definition block_of (seen : list string) (doc : Document) (part : string)
    : Prop :=
  exists j, seen !! j = Some (doc_source_name doc) /\
            part = source_block (cid_of j) (doc_source_name doc)
                     (page_content doc).

Lemma block_of_app seen more doc part :
  block_of seen doc part -> block_of (seen ++ more) doc part.
Proof.
  intros (j & Hj & ->). exists j. split; [|done].
  rewrite lookup_app_l; [done|]. by eapply lookup_lt_Some.
Qed.

Lemma first_seen_app_prefix l x :
  exists more, first_seen (l ++ [x]) = first_seen l ++ more.
Proof.
  rewrite first_seen_snoc. destruct (decide (x ∈ l)).
  - exists []. by rewrite app_nil_r.
  - by exists [x].
Qed.

Lemma assemble_context_inv results pre st :
  assembly_inv pre st ->
  Forall2 (block_of (first_seen (doc_source_name <$> pre))) pre
    (context_parts st) ->
  exists st',
    assemble results st = Ok st' /\
    assembly_inv (pre ++ results) st' /\
    Forall2 (block_of (first_seen (doc_source_name <$> (pre ++ results))))
      (pre ++ results) (context_parts st').
Proof.
  revert pre st. induction results as [|doc rest IH]; intros pre st Hinv Hctx.
  - exists st. rewrite app_nil_r. split; [done|]. by split.
  - destruct (assemble_step_inv pre st doc Hinv) as (st1 & Hstep & Hinv1).
    destruct (assemble_step_context st doc st1 Hstep) as (cid & Hcid & Hparts).
    destruct (IH (pre ++ [doc]) st1 Hinv1) as (st2 & Hrun & Hinv2 & Hctx2).
    + rewrite Hparts. apply Forall2_app.
      * destruct (first_seen_app_prefix (doc_source_name <$> pre)
                    (doc_source_name doc)) as [more Hmore].
        rewrite fmap_app. simpl. rewrite Hmore.
        eapply Forall2_impl; [exact Hctx|].
        intros d part. apply block_of_app.
      * constructor; [|constructor].
        assert (Hin : doc_source_name doc ∈
                      first_seen (doc_source_name <$> (pre ++ [doc]))).
        { apply first_seen_elem. rewrite fmap_app. simpl.
          rewrite elem_of_app. right. left. }
        apply list_elem_of_lookup_1 in Hin as [j Hj].
        exists j. split; [done|].
        pose proof (inv_map_some _ _ Hinv1 j _ Hj) as Hmap.
        rewrite Hcid in Hmap. by inversion Hmap.
    + exists st2. simpl. rewrite Hstep. simpl.
      rewrite <- app_assoc in Hinv2, Hctx2. split; [done|]. by split.
Qed.

(** X10: the context [retrieve_context] returns, when the searches give
    [results]: one block per result chunk, in result order, joined by a
    blank line; the block of a chunk carries the id of the citation entry
    of its source and the whole text of the chunk, without truncation. *)
Theorem retrieve_context_blocks w self notebook_id query selected_sources
    n_results vs self1 results :
  _get_vectorstore w self = (Ok vs, self1) ->
  (search vs notebook_id query selected_sources n_results).2 = Ok results ->
  exists parts citations,
    (retrieve_context w self notebook_id query selected_sources n_results).1.2
    = Ok (String.concat (nl +:+ nl) parts, citations) /\
    Forall2
      (fun doc part =>
         exists cid info,
           (cid, info) ∈ citations /\
           source_name info = doc_source_name doc /\ cit_id info = cid /\
           part =
             "--- BEGIN SOURCE [" +:+ pretty cid +:+ "] (" +:+
             doc_source_name doc +:+ ") ---" +:+ nl +:+
             page_content doc +:+ nl +:+
             "--- END SOURCE [" +:+ pretty cid +:+ "] ---")
      results parts.
Proof.
  intros Hvs Hres. unfold retrieve_context. rewrite Hvs.
  destruct (search vs notebook_id query selected_sources n_results)
    as [calls found]. simpl in Hres. subst found.
  destruct (assemble_context_inv results [] assembly_init assembly_inv_init)
    as (st & Hrun & Hinv & Hctx); [constructor|].
  simpl in Hinv, Hctx.
  exists (context_parts st), (citation_info st).
  cbn [fst snd mbind Result_bind]. rewrite Hrun. split; [done|].
  eapply Forall2_impl; [exact Hctx|].
  intros doc part (j & Hj & ->).
  exists (cid_of j), {| cit_id := cid_of j;
                        source_name := doc_source_name doc;
                        excerpts := excerpts_of (doc_source_name doc) results |}.
  split; [|done].
  rewrite (inv_citations _ _ Hinv).
  eapply list_elem_of_lookup_2. by rewrite citation_spec_lookup, Hj.
Qed.

Lemma concat_source_results_nil vs notebook_id query k sources :
  (forall s, s ∈ sources ->
     exists e, vs query k (source_filter notebook_id s) = Raise e) ->
  concat (source_results vs notebook_id query k <$> sources) = [].
Proof.
  induction sources as [|s rest IH]; intros Hall; [done|].
  rewrite fmap_cons. simpl. rewrite IH.
  - unfold source_results. destruct (Hall s) as [e ->]; [left|done].
  - intros s' Hs'. apply Hall. by right.
Qed.

(** X11: balanced retrieval survives failing sub-queries.  With one to
    five selected sources and the vector store at hand, once the
    per-source count [k] is computed [retrieve_context] always returns:
    its result list is the concatenation, in selection order, of what
    the per-source searches for [k] chunks gave, a source whose search
    raised contributing nothing; when every search raises the context is
    empty and there is no citation.  The count is computed for every
    |n_results| < 2^53; when computing it raises (the float division
    overflows), [retrieve_context] raises the same exception without any
    search. *)
Theorem balanced_retrieval_survives w self notebook_id query l n_results vs
    self1 :
  _get_vectorstore w self = (Ok vs, self1) ->
  (1 <= length l <= 5)%nat ->
  (forall k, per_source_k n_results l = Ok k ->
     search vs notebook_id query (Some l) n_results =
       (source_call notebook_id query k <$> l,
        Ok (concat (source_results vs notebook_id query k <$> l))) /\
     (exists context citations,
        (retrieve_context w self notebook_id query (Some l) n_results).1.2
        = Ok (context, citations)) /\
     ((forall s, s ∈ l ->
         exists e, vs query k (source_filter notebook_id s) = Raise e) ->
      (retrieve_context w self notebook_id query (Some l) n_results).1.2
      = Ok (EmptyString, []))) /\
  (forall e, per_source_k n_results l = Raise e ->
     retrieve_context w self notebook_id query (Some l) n_results
     = ([], Raise e, self1)) /\
  ((Z.abs n_results < 2 ^ 53)%Z ->
   per_source_k n_results l =
   Ok (Z.max 3 (n_results / Z.of_nat (length l) + 1))).
Proof.
  intros Hvs Hl. split; [|split].
  - intros k Hk.
    pose proof (search_balanced vs notebook_id query l n_results k Hl Hk)
      as Hsearch.
    assert (Hfound :
      (search vs notebook_id query (Some l) n_results).2 =
      Ok (concat (source_results vs notebook_id query k <$> l)))
      by (by rewrite Hsearch).
    split; [done|]. split.
    + destruct (RetrieveContextFacts.retrieve_context_result w self
                  notebook_id query (Some l) n_results vs self1 _ Hvs Hfound)
        as [context H].
      eauto.
    + intros Hall.
      rewrite (retrieve_context_search _ _ _ _ _ _ _ _ Hvs), Hsearch.
      cbn [fst snd mbind Result_bind].
      by rewrite (concat_source_results_nil _ _ _ _ _ Hall).
  - intros e He.
    rewrite (retrieve_context_search _ _ _ _ _ _ _ _ Hvs).
    by rewrite (search_balanced_raises _ _ _ _ _ _ Hl He).
  - intros Hn. by apply per_source_k_floor.
Qed.

(** X12: a failing global search is reported, not raised.  When the
    single search of global mode raises [e], [stream_chat_response]
    yields the one fragment "Error generating response: " followed by
    [str(e)] and ends normally; the chat provider is not asked for
    anything (the registry of the chain is as the vector store step left
    it). *)
Theorem global_search_failure_reported w chain notebook_id messages
    selected_sources full_source_content user_message vs chain1 e :
  latest_user_message messages = Ok user_message ->
  truthy_opt_list full_source_content = false ->
  _get_vectorstore w chain = (Ok vs, chain1) ->
  balanced_mode selected_sources = false ->
  vs user_message 10%Z (filter_dict notebook_id selected_sources) = Raise e ->
  stream_chat_response w chain notebook_id messages selected_sources
    full_source_content
  = ([{| call_query := user_message; call_k := 10;
         call_filter := filter_dict notebook_id selected_sources |}],
     (["Error generating response: " +:+ str_of_exception e], None),
     chain1).
Proof.
  intros Hmsg Hfull Hvs Hmode Hraise.
  unfold stream_chat_response, stream_response, build_context.
  rewrite Hmsg, Hfull. unfold retrieve_context, search.
  by rewrite Hvs, Hmode, Hraise.
Qed.

(** X13: a conversation without a usable last message.  With no message
    at all the lookup of the last message raises [IndexError], and with
    a last message that has no content it raises [KeyError]; in both
    cases [stream_chat_response] issues no search, asks no provider,
    leaves the chain as it is, and yields the single error fragment. *)
Theorem unusable_last_message_reported w chain notebook_id selected_sources
    full_source_content :
  latest_user_message [] = Raise (IndexError "list index out of range") /\
  (forall earlier m, m !! "content" = None ->
     latest_user_message (earlier ++ [m]) = Raise (KeyError "'content'")) /\
  (forall messages e,
     latest_user_message messages = Raise e ->
     stream_chat_response w chain notebook_id messages selected_sources
       full_source_content
     = ([], (["Error generating response: " +:+ str_of_exception e], None),
        chain)).
Proof.
  split; [done|]. split.
  - intros earlier m Hm. unfold latest_user_message.
    by rewrite last_snoc, Hm.
  - intros messages e Hmsg.
    unfold stream_chat_response, stream_response, build_context.
    by rewrite Hmsg.
Qed.

End RetrievalLaws.

(** ** The legacy paths and ingestion ([rag.py], [chains/rag_chain.py]) *)

Module RagMore.

Import Providers Registry RagChain Rag.

(** One value of the [citation_details] dict: [{"name", "excerpts"}]. *)
Record CitationDetail : Type := {
  detail_name : string;
  detail_excerpts : list string
}.

(** The answer of [collection.query]: the entries ["documents"] and
    ["metadatas"], each a list with one list per query embedding, or
    [None]. *)
Record QueryResult : Type := {
  documents : option (list (list string));
  metadatas : option (list (list (gmap string string)))
}.

(** The metadata dict written at ingestion. *)
Record ChunkMetadata : Type := {
  meta_notebook_id : string;
  meta_source_name : string;
  meta_source_type : string;
  meta_chunk_index : Z
}.

(** A [Document] as [add_documents] builds it. *)
Record NewDocument : Type := {
  new_page_content : string;
  new_metadata : ChunkMetadata
}.

(** One call [collection.add(ids=[id], embeddings=[embedding],
    documents=[chunk], metadatas=[metadata])]. *)
Record AddRecord (F : Type) : Type := {
  add_id : string;
  add_embedding : list F;
  add_document : string;
  add_metadata : ChunkMetadata
}.
Arguments add_id {F} _.
Arguments add_embedding {F} _.
Arguments add_document {F} _.
Arguments add_metadata {F} _.

(** The collaborators of [rag.py] outside the repository, over the type
    [F] of the vector components: the LangChain embeddings call, the
    direct Ollama client ([host], [model], [prompt]), the module-level
    Chroma collection, the text splitter and [add_documents] of the
    LangChain vector store. *)
Record Backend (F : Type) : Type := {
  embed_query : Embeddings -> string -> Result (list F);
  ollama_embeddings : string -> string -> string -> Result (list F);
  collection_query : list F -> Z -> Filter -> Result QueryResult;
  collection_add : AddRecord F -> Result unit;
  split_text : string -> list string;
  store_add_documents :
    VectorStore -> list NewDocument -> list string -> Result unit
}.
Arguments embed_query {F} _.
Arguments ollama_embeddings {F} _.
Arguments collection_query {F} _.
Arguments collection_add {F} _.
Arguments split_text {F} _.
Arguments store_add_documents {F} _.

(** The id of a stored chunk, [f"{notebook_id}_{source_name}_{i}"]. *)
Definition document_id (notebook_id source_name : string) (i : Z) : string :=
  notebook_id +:+ "_" +:+ source_name +:+ "_" +:+ pretty i.

Section rag_more.
Context {F : Type}.
Variable b : Backend F.
Variable w : World.

(** The fallback of [get_embeddings]: the direct Ollama call, and the
    empty vector when that raises too. *)
Definition fallback_embedding (text : string) : list F :=
  match ollama_embeddings b
          (default "http://ollama:11434" (getenv w "OLLAMA_HOST"))
          "nomic-embed-text" text with
  | Ok v => v
  | Raise _ => []
  end.

(** [rag.get_embeddings(text)] on the process-wide registry. *)
Definition get_embeddings (text : string) (reg : ProviderRegistry)
    : list F * ProviderRegistry :=
  match get_embedding_provider (getenv w) reg with
  | (Raise _, reg1) => (fallback_embedding text, reg1)
  | (Ok embedding_provider, reg1) =>
      match Providers.get_embeddings (embeddings_client w)
              embedding_provider None with
      | Raise _ => (fallback_embedding text, reg1)
      | Ok embeddings =>
          match embed_query b embeddings text with
          | Ok v => (v, reg1)
          | Raise _ => (fallback_embedding text, reg1)
          end
      end
  end.

(** The variables of the loop of [_legacy_query_rag_context]. *)
Record LegacyState : Type := {
  legacy_context : string;
  legacy_source_map : list (string * Z);
  legacy_details : list (Z * CitationDetail);
  legacy_counter : Z
}.

Definition legacy_init : LegacyState :=
  {| legacy_context := EmptyString; legacy_source_map := [];
     legacy_details := []; legacy_counter := 1 |}.

Definition legacy_assign (name : string) (st : LegacyState) : LegacyState :=
  match od_get name (legacy_source_map st) with
  | Some _ => st
  | None =>
      {| legacy_context := legacy_context st;
         legacy_source_map :=
           od_set name (legacy_counter st) (legacy_source_map st);
         legacy_details :=
           od_set (legacy_counter st)
             {| detail_name := name; detail_excerpts := [] |}
             (legacy_details st);
         legacy_counter := legacy_counter st + 1 |}
  end.

(** One iteration of [for doc, meta in zip(...)]. *)
Definition legacy_step (st : LegacyState)
    (entry : string * gmap string string) : Result LegacyState :=
  let '(doc, meta) := entry in
  let name := default "Unknown" (meta !! "source_name") in
  let st1 := legacy_assign name st in
  match od_get name (legacy_source_map st1) with
  | None => Raise (KeyError name)
  | Some citation_num =>
      let excerpt := excerpt_of doc in
      match od_get citation_num (legacy_details st1) with
      | None => Raise (KeyError (pretty citation_num))
      | Some detail =>
          Ok {| legacy_context :=
                  legacy_context st1 +:+
                  (source_block citation_num name doc +:+ nl +:+ nl);
                legacy_source_map := legacy_source_map st1;
                legacy_details :=
                  od_set citation_num
                    {| detail_name := detail_name detail;
                       detail_excerpts := detail_excerpts detail ++ [excerpt] |}
                    (legacy_details st1);
                legacy_counter := legacy_counter st1 |}
      end
  end.

Fixpoint legacy_loop (pairs : list (string * gmap string string))
    (st : LegacyState) : Result LegacyState :=
  match pairs with
  | [] => Ok st
  | entry :: rest => st' ← legacy_step st entry; legacy_loop rest st'
  end.

(** The triple both query functions return. *)
Definition QueryAnswer : Type :=
  (string * list (string * Z) * list (Z * CitationDetail))%type.

Definition legacy_answer (st : LegacyState) : QueryAnswer :=
  (legacy_context st, legacy_source_map st, legacy_details st).

(** [results['documents'][0]] zipped with [results['metadatas'][0]],
    under the test [results['documents'] and results['metadatas']]. *)
Definition result_pairs (results : QueryResult)
    : list (string * gmap string string) :=
  match documents results, metadatas results with
  | Some (docs :: _), Some (metas :: _) => zip docs metas
  | _, _ => []
  end.

Definition _legacy_query_rag_context (notebook_id query : string)
    (n_results : Z) (selected_sources : option (list string))
    (reg : ProviderRegistry) : Result QueryAnswer * ProviderRegistry :=
  let '(query_vector, reg1) := get_embeddings query reg in
  match collection_query b query_vector n_results
          (filter_dict notebook_id selected_sources) with
  | Raise e => (Raise e, reg1)
  | Ok results =>
      (st ← legacy_loop (result_pairs results) legacy_init;
       Ok (legacy_answer st), reg1)
  end.

(** The conversion of [query_rag_context] to the legacy format. *)
Definition to_legacy_format (context : string)
    (citation_info : list (Z * CitationInfo)) : QueryAnswer :=
  (context,
   od_of_list ((fun e : Z * CitationInfo => (source_name e.2, cit_id e.2))
               <$> citation_info),
   od_of_list ((fun e : Z * CitationInfo =>
                  (e.1, {| detail_name := source_name e.2;
                           detail_excerpts := excerpts e.2 |}))
               <$> citation_info)).

(** [query_rag_context]: the chain first, the legacy query when the chain
    raises. *)
Definition query_rag_context (chain : RAGChain) (notebook_id query : string)
    (n_results : Z) (selected_sources : option (list string))
    : list SearchCall * Result QueryAnswer * RAGChain :=
  match retrieve_context w chain notebook_id query selected_sources
          n_results with
  | (calls, Ok (context, citation_info), chain1) =>
      (calls, Ok (to_legacy_format context citation_info), chain1)
  | (calls, Raise _, chain1) =>
      let '(answer, reg) :=
        _legacy_query_rag_context notebook_id query n_results
          selected_sources (registry chain1) in
      (calls, answer, with_registry chain1 reg)
  end.

(** The documents and ids [add_documents] builds from the chunks. *)
Definition new_documents (notebook_id source_name source_type : string)
    (chunks : list string) : list NewDocument :=
  imap (fun i chunk =>
          {| new_page_content := chunk;
             new_metadata :=
               {| meta_notebook_id := notebook_id;
                  meta_source_name := source_name;
                  meta_source_type := source_type;
                  meta_chunk_index := Z.of_nat i |} |})
       chunks.

Definition new_ids (notebook_id source_name : string) (chunks : list string)
    : list string :=
  imap (fun i _ => document_id notebook_id source_name (Z.of_nat i)) chunks.

(** [RAGChain.add_documents]: the batch handed to the store (if the store
    was reached), the returned count or the exception, and the chain. *)
Definition add_documents (self : RAGChain)
    (notebook_id source_name source_type content : string)
    : option (list NewDocument * list string) * Result nat * RAGChain :=
  let chunks := split_text b content in
  let docs := new_documents notebook_id source_name source_type chunks in
  let ids := new_ids notebook_id source_name chunks in
  match _get_vectorstore w self with
  | (Raise e, self1) => (None, Raise e, self1)
  | (Ok vs, self1) =>
      match store_add_documents b vs docs ids with
      | Raise e => (Some (docs, ids), Raise e, self1)
      | Ok _ => (Some (docs, ids), Ok (length docs), self1)
      end
  end.

(** The second loop of [_legacy_process_document], over the enumerated
    chunks: the [collection.add] calls made, the way the loop ended, and
    the registry. *)
Fixpoint legacy_add_loop (notebook_id source_name source_type : string)
    (indexed : list (Z * string)) (reg : ProviderRegistry)
    : list (AddRecord F) * Result unit * ProviderRegistry :=
  match indexed with
  | [] => ([], Ok tt, reg)
  | (i, chunk) :: rest =>
      let '(embedding, reg1) := get_embeddings chunk reg in
      match embedding with
      | [] => legacy_add_loop notebook_id source_name source_type rest reg1
      | _ :: _ =>
          let record :=
            {| add_id := document_id notebook_id source_name i;
               add_embedding := embedding;
               add_document := chunk;
               add_metadata :=
                 {| meta_notebook_id := notebook_id;
                    meta_source_name := source_name;
                    meta_source_type := source_type;
                    meta_chunk_index := i |} |} in
          match collection_add b record with
          | Raise e => ([record], Raise e, reg1)
          | Ok _ =>
              let '(added, outcome, reg2) :=
                legacy_add_loop notebook_id source_name source_type rest reg1
              in (record :: added, outcome, reg2)
          end
      end
  end.

Definition _legacy_process_document
    (notebook_id file_path content source_type source_name : string)
    (reg : ProviderRegistry)
    : list (AddRecord F) * Result unit * ProviderRegistry :=
  legacy_add_loop notebook_id source_name source_type
    (enumerate (legacy_chunks content)) reg.

(** [process_document]: the chain first, the legacy path when the chain
    raises. *)
Definition process_document (chain : RAGChain)
    (notebook_id file_path content source_type source_name : string)
    : option (list NewDocument * list string) * list (AddRecord F) *
      Result unit * RAGChain :=
  match add_documents chain notebook_id source_name source_type content with
  | (sent, Ok _, chain1) => (sent, [], Ok tt, chain1)
  | (sent, Raise _, chain1) =>
      let '(added, outcome, reg) :=
        _legacy_process_document notebook_id file_path content source_type
          source_name (registry chain1) in
      (sent, added, outcome, with_registry chain1 reg)
  end.

End rag_more.

End RagMore.

Module RagLaws.

Import PyFacts Providers Registry RagChain Rag RagMore.
Import CitationFacts RegistryFacts RegistryLaws.

Local Arguments excerpt_of : simpl never.
Local Arguments source_block : simpl never.

Lemma str_app_assoc s t u : (s +:+ t) +:+ u = s +:+ (t +:+ u).
Proof.
  induction s as [|c s IH]; [done|]. by rewrite !str_app_cons, IH.
Qed.

Lemma str_concat_snoc l s :
  String.concat EmptyString (l ++ [s]) = String.concat EmptyString l +:+ s.
Proof.
  induction l as [|x l IH].
  - simpl. by rewrite str_app_nil_l.
  - change ((x :: l) ++ [s]) with (x :: (l ++ [s])).
    by rewrite !str_concat_cons, IH, str_app_assoc.
Qed.

Section odict_more.
Context {K V W : Type} `{EqDecision K}.
Implicit Types (d : list (K * V)) (k : K) (v : V).

Lemma od_get_od_set d k k' v :
  od_get k' (od_set k v d) = if decide (k' = k) then Some v else od_get k' d.
Proof.
  induction d as [|[k0 v0] d IH]; simpl.
  - by destruct (decide (k' = k)).
  - destruct (decide (k = k0)) as [->|Hne]; simpl.
    + by destruct (decide (k' = k0)).
    + destruct (decide (k' = k0)) as [->|Hne'].
      * by rewrite decide_False by done.
      * apply IH.
Qed.

Lemma od_get_fmap_values (h : V -> W) d k :
  od_get k ((fun e : K * V => (e.1, h e.2)) <$> d) = h <$> od_get k d.
Proof.
  induction d as [|[k0 v0] d IH]; simpl; [done|].
  by destruct (decide (k = k0)).
Qed.

Lemma od_set_fmap_values (h : V -> W) d k v :
  (fun e : K * V => (e.1, h e.2)) <$> od_set k v d =
  od_set k (h v) ((fun e : K * V => (e.1, h e.2)) <$> d).
Proof.
  induction d as [|[k0 v0] d IH]; [done|].
  cbn [od_set]. rewrite fmap_cons. cbn [od_set fst snd].
  destruct (decide (k = k0)); rewrite fmap_cons; [done|]. by rewrite IH.
Qed.

Lemma od_set_same_image (f : K * V -> W) d k v v' :
  od_get k d = Some v -> f (k, v') = f (k, v) ->
  f <$> od_set k v' d = f <$> d.
Proof.
  intros Hget Hf. induction d as [|[k0 v0] d IH]; [done|].
  cbn [od_set od_get] in *. destruct (decide (k = k0)) as [->|Hne].
  - inversion Hget; subst. by rewrite !fmap_cons, Hf.
  - by rewrite !fmap_cons, IH.
Qed.
End odict_more.

(** The two views of a citation entry in the legacy format. *)
Definition entry_key (e : Z * CitationInfo) : string * Z :=
  (source_name e.2, e.1).

Definition entry_detail (info : CitationInfo) : CitationDetail :=
  {| detail_name := source_name info; detail_excerpts := excerpts info |}.

(** How the variables of the legacy loop mirror those of the loop of
    [retrieve_context]. *)
Record mirrors (st : Assembly) (lst : LegacyState) : Prop := {
  mirror_map : legacy_source_map lst = entry_key <$> citation_info st;
  mirror_details :
    legacy_details lst =
    (fun e : Z * CitationInfo => (e.1, entry_detail e.2)) <$> citation_info st;
  mirror_counter : legacy_counter lst = citation_counter st;
  mirror_context :
    legacy_context lst =
    String.concat EmptyString
      ((fun part => part +:+ nl +:+ nl) <$> context_parts st);
  mirror_lookup : forall name,
    od_get name (legacy_source_map lst) = source_map st !! name
}.

Lemma mirrors_init : mirrors assembly_init legacy_init.
Proof. by split. Qed.

Lemma assembly_counter_fresh pre st :
  assembly_inv pre st -> citation_counter st ∉ od_keys (citation_info st).
Proof.
  intros Hinv.
  rewrite (inv_citations _ _ Hinv), citation_spec_keys, (inv_counter _ _ Hinv).
  rewrite elem_of_seqZ. unfold cid_of. lia.
Qed.

Lemma legacy_step_mirrors pre st lst doc st' :
  assembly_inv pre st -> mirrors st lst ->
  assemble_step st doc = Ok st' ->
  exists lst',
    legacy_step lst (page_content doc, metadata doc) = Ok lst' /\
    mirrors st' lst'.
Proof.
  intros Hinv [Hmap Hdet Hcnt Hctx Hlook].
  unfold assemble_step, legacy_step.
  fold (doc_source_name doc). set (name := doc_source_name doc).
  (* the assignment of a new id *)
  assert (Hassign : mirrors (assign_citation name st) (legacy_assign name lst)).
  { unfold assign_citation, legacy_assign. rewrite Hlook.
    destruct (source_map st !! name) eqn:Hname; [by split|].
    pose proof (assembly_counter_fresh pre st Hinv) as Hfresh.
    assert (Hfresh_map : name ∉ od_keys (legacy_source_map lst)).
    { apply od_get_None. by rewrite Hlook. }
    assert (Hfresh_det : legacy_counter lst ∉ od_keys (legacy_details lst)).
    { rewrite Hdet, Hcnt. unfold od_keys in *.
      by rewrite <- list_fmap_compose. }
    split; simpl.
    - rewrite !od_set_fresh by done. rewrite fmap_app. simpl.
      by rewrite Hmap, Hcnt.
    - rewrite od_set_fresh by done.
      rewrite (od_set_fresh (citation_info st)) by done.
      rewrite fmap_app. simpl. by rewrite Hdet, Hcnt.
    - by rewrite Hcnt.
    - done.
    - intros name'. rewrite od_get_od_set, lookup_insert, Hlook, Hcnt.
      destruct (decide (name' = name)) as [->|Hne].
      + by rewrite decide_True.
      + by rewrite decide_False by congruence. }
  cbv zeta.
  remember (assign_citation name st) as st1 eqn:Est1.
  remember (legacy_assign name lst) as lst1 eqn:Elst1.
  clear Est1 Elst1.
  destruct Hassign as [Hmap1 Hdet1 Hcnt1 Hctx1 Hlook1].
  rewrite Hlook1.
  destruct (source_map st1 !! name) as [cid|]; [|done].
  rewrite Hdet1, od_get_fmap_values.
  destruct (od_get cid (citation_info st1)) as [info|] eqn:Hinfo; [|done].
  intros [= <-]. eexists. split; [reflexivity|].
  split; simpl.
  - rewrite Hmap1. symmetry.
    by apply (od_set_same_image entry_key _ cid info).
  - by rewrite od_set_fmap_values.
  - done.
  - rewrite Hctx1, fmap_app. simpl. by rewrite str_concat_snoc.
  - done.
Qed.

Lemma legacy_loop_mirrors results pre st lst :
  assembly_inv pre st -> mirrors st lst ->
  exists st' lst',
    assemble results st = Ok st' /\
    legacy_loop ((fun doc => (page_content doc, metadata doc)) <$> results) lst
      = Ok lst' /\
    assembly_inv (pre ++ results) st' /\ mirrors st' lst'.
Proof.
  revert pre st lst.
  induction results as [|doc rest IH]; intros pre st lst Hinv Hmir.
  - exists st, lst. rewrite app_nil_r. by repeat (split; [done|]).
  - destruct (assemble_step_inv pre st doc Hinv) as (st1 & Hstep & Hinv1).
    destruct (legacy_step_mirrors pre st lst doc st1 Hinv Hmir Hstep)
      as (lst1 & Hlstep & Hmir1).
    destruct (IH _ _ _ Hinv1 Hmir1) as (st2 & lst2 & Hrun & Hlrun & Hinv2 & Hmir2).
    exists st2, lst2. rewrite fmap_cons. cbn [assemble legacy_loop].
    rewrite Hstep, Hlstep. cbn [mbind Result_bind].
    rewrite <- app_assoc in Hinv2. by repeat (split; [done|]).
Qed.

Lemma imap_second {A} (l : list A) : imap (fun _ x => x) l = l.
Proof.
  apply list_eq. intros i. rewrite list_lookup_imap. by destruct (l !! i).
Qed.

Lemma pairs_of_documents (pairs : list (string * gmap string string)) :
  (fun doc => (page_content doc, metadata doc)) <$>
    ((fun p => {| page_content := p.1; metadata := p.2 |}) <$> pairs)
  = pairs.
Proof.
  induction pairs as [|[doc meta] rest IH]; [done|].
  rewrite !fmap_cons, IH. done.
Qed.

(** The legacy format of the citation map the loops build for
    [results]: names and ids in first-seen order. *)
Definition source_map_spec (results : list Document) : list (string * Z) :=
  imap (fun j name => (name, cid_of j))
       (first_seen (doc_source_name <$> results)).

Definition details_spec (results : list Document)
    : list (Z * CitationDetail) :=
  imap (fun j name =>
          (cid_of j, {| detail_name := name;
                        detail_excerpts := excerpts_of name results |}))
       (first_seen (doc_source_name <$> results)).

Lemma citation_spec_entry_keys results :
  entry_key <$> citation_spec results = source_map_spec results.
Proof. unfold citation_spec, source_map_spec. by rewrite fmap_imap. Qed.

Lemma citation_spec_entry_details results :
  (fun e : Z * CitationInfo => (e.1, entry_detail e.2)) <$> citation_spec results
  = details_spec results.
Proof. unfold citation_spec, details_spec. by rewrite fmap_imap. Qed.

Lemma to_legacy_format_spec context results :
  to_legacy_format context (citation_spec results) =
  (context, source_map_spec results, details_spec results).
Proof.
  unfold to_legacy_format. f_equal; [f_equal|].
  - rewrite od_of_list_nodup.
    + rewrite <- citation_spec_entry_keys. apply list_fmap_ext.
      intros i [cid info] Hi. rewrite citation_spec_lookup in Hi.
      destruct (first_seen _ !! i); simpl in Hi; [|done]. by inversion Hi.
    + unfold od_keys. rewrite <- list_fmap_compose.
      rewrite (list_fmap_ext _ (fun e : Z * CitationInfo => source_name e.2)
                 (citation_spec results)) by done.
      rewrite RetrieveContextFacts.citation_spec_names.
      apply first_seen_NoDup.
  - rewrite od_of_list_nodup; [apply citation_spec_entry_details|].
    unfold od_keys. rewrite <- list_fmap_compose.
    change (NoDup (od_keys (citation_spec results))).
    rewrite citation_spec_keys. apply NoDup_seqZ.
Qed.

(** X14: the legacy query loop and the loop of [retrieve_context] agree.
    Run on the same sequence of chunks, neither raises, and the legacy
    loop ends with exactly the [source_map] and [citation_details] that
    [query_rag_context] derives from the citation map of the chain: the
    distinct source names numbered from one in first-seen order, each
    with the excerpts of its chunks.  The contexts hold the same blocks;
    the legacy one ends every block with a blank line where the chain
    puts a blank line between blocks. *)
Theorem legacy_citations_agree (pairs : list (string * gmap string string)) :
  let results :=
    (fun p => {| page_content := p.1; metadata := p.2 |}) <$> pairs in
  exists st lst,
    assemble results assembly_init = Ok st /\
    legacy_loop pairs legacy_init = Ok lst /\
    (legacy_context lst, legacy_source_map lst, legacy_details lst) =
      to_legacy_format
        (String.concat EmptyString
           ((fun part => part +:+ nl +:+ nl) <$> context_parts st))
        (citation_info st) /\
    legacy_source_map lst = source_map_spec results /\
    legacy_details lst = details_spec results.
Proof.
  intros results.
  destruct (legacy_loop_mirrors results [] assembly_init legacy_init
              assembly_inv_init mirrors_init)
    as (st & lst & Hrun & Hlrun & Hinv & [Hmap Hdet Hcnt Hctx Hlook]).
  simpl in Hinv. exists st, lst. split; [done|]. split.
  { rewrite <- Hlrun. unfold results. by rewrite pairs_of_documents. }
  rewrite (inv_citations _ _ Hinv) in *.
  rewrite to_legacy_format_spec.
  rewrite Hmap, Hdet, Hctx, citation_spec_entry_keys,
    citation_spec_entry_details.
  done.
Qed.

Lemma legacy_citations_agree_total pairs :
  exists lst, legacy_loop pairs legacy_init = Ok lst.
Proof.
  destruct (legacy_loop_mirrors
              ((fun p => {| page_content := p.1; metadata := p.2 |}) <$> pairs)
              [] assembly_init legacy_init assembly_inv_init mirrors_init)
    as (st & lst & _ & Hlrun & _).
  exists lst. by rewrite <- Hlrun, pairs_of_documents.
Qed.

Lemma od_get_Some_lookup {K V} `{EqDecision K} (d : list (K * V)) k v :
  od_get k d = Some v -> exists i, d !! i = Some (k, v).
Proof.
  induction d as [|[k0 v0] d IH]; [done|]. simpl.
  destruct (decide (k = k0)) as [->|Hne].
  - intros [= ->]. by exists 0%nat.
  - intros Hget. destruct (IH Hget) as [i Hi]. by exists (S i).
Qed.

Lemma source_map_spec_keys results :
  NoDup (od_keys (source_map_spec results)).
Proof.
  unfold od_keys, source_map_spec. rewrite fmap_imap.
  rewrite (imap_ext _ (fun _ name => name)) by done.
  rewrite imap_second. apply first_seen_NoDup.
Qed.

Lemma details_spec_keys results : NoDup (od_keys (details_spec results)).
Proof.
  unfold od_keys. rewrite <- citation_spec_entry_details.
  rewrite <- list_fmap_compose.
  change (NoDup (od_keys (citation_spec results))).
  rewrite citation_spec_keys. apply NoDup_seqZ.
Qed.

(** X15: the two dicts of [query_rag_context] are inverse to each other.
    When the searches of the chain give [results], the call returns the
    context of the chain with a [source_map] and [citation_details] such
    that a name is mapped to an id exactly when the entry of that id
    carries that name; the ids are 1..K for the K distinct names. *)
Theorem query_rag_context_round_trip {F} (b : Backend F) w chain notebook_id
    query n_results selected_sources vs chain1 results :
  _get_vectorstore w chain = (Ok vs, chain1) ->
  (search vs notebook_id query selected_sources n_results).2 = Ok results ->
  exists context source_map details,
    (query_rag_context b w chain notebook_id query n_results
       selected_sources).1.2 = Ok (context, source_map, details) /\
    (retrieve_context w chain notebook_id query selected_sources
       n_results).1.2 = Ok (context, citation_spec results) /\
    od_keys source_map = first_seen (doc_source_name <$> results) /\
    od_keys details =
      seqZ 1 (Z.of_nat (length (first_seen (doc_source_name <$> results)))) /\
    forall name cid,
      od_get name source_map = Some cid <->
      exists detail, od_get cid details = Some detail /\
                     detail_name detail = name.
Proof.
  intros Hvs Hres.
  destruct (RetrieveContextFacts.retrieve_context_result w chain notebook_id
              query selected_sources n_results vs chain1 results Hvs Hres)
    as (context & Hret).
  exists context, (source_map_spec results), (details_spec results).
  split.
  { unfold query_rag_context.
    destruct (retrieve_context w chain notebook_id query selected_sources
                n_results) as [[calls res] chain2].
    simpl in Hret. subst res. simpl. by rewrite to_legacy_format_spec. }
  split; [done|]. split.
  { unfold od_keys, source_map_spec. rewrite fmap_imap.
    rewrite (imap_ext _ (fun _ name => name)) by done.
    apply imap_second. }
  split.
  { unfold od_keys. rewrite <- citation_spec_entry_details.
    rewrite <- list_fmap_compose. apply citation_spec_keys. }
  intros name cid. split.
  - intros Hget. apply od_get_Some_lookup in Hget as [j Hj].
    unfold source_map_spec in Hj. rewrite list_lookup_imap in Hj.
    destruct (first_seen _ !! j) as [name'|] eqn:HF; simpl in Hj; [|done].
    inversion Hj; subst.
    exists {| detail_name := name;
              detail_excerpts := excerpts_of name results |}.
    split; [|done].
    apply (od_get_lookup _ _ _ j); [apply details_spec_keys|].
    unfold details_spec. by rewrite list_lookup_imap, HF.
  - intros (detail & Hget & Hname).
    apply od_get_Some_lookup in Hget as [j Hj].
    unfold details_spec in Hj. rewrite list_lookup_imap in Hj.
    destruct (first_seen _ !! j) as [name'|] eqn:HF; simpl in Hj; [|done].
    inversion Hj; subst. simpl.
    apply (od_get_lookup _ _ _ j); [apply source_map_spec_keys|].
    unfold source_map_spec. by rewrite list_lookup_imap, HF.
Qed.

(** X16: [query_rag_context] raises only through the legacy collection
    query.  The legacy loop itself never raises; so when the call raises
    [e], the chain had raised and [collection.query], asked with the
    embedding of the query under the notebook filter, raised [e]. *)
Theorem query_rag_context_raises_only_in_query {F} (b : Backend F) w chain
    notebook_id query n_results selected_sources e :
  (query_rag_context b w chain notebook_id query n_results
     selected_sources).1.2 = Raise e ->
  (exists e0,
     (retrieve_context w chain notebook_id query selected_sources
        n_results).1.2 = Raise e0) /\
  collection_query b
    (get_embeddings b w query
       (registry (retrieve_context w chain notebook_id query selected_sources
                    n_results).2)).1
    n_results (filter_dict notebook_id selected_sources) = Raise e.
Proof.
  unfold query_rag_context.
  destruct (retrieve_context w chain notebook_id query selected_sources
              n_results) as [[calls [[context citations]|e0]] chain1];
    [done|].
  unfold _legacy_query_rag_context. simpl.
  destruct (get_embeddings b w query (registry chain1)) as [v reg1].
  destruct (collection_query b v n_results _) as [results|e1] eqn:Hq.
  - destruct (legacy_citations_agree_total (result_pairs results)) as [lst ->].
    done.
  - simpl. intros [= ->]. split; [by exists e0|done].
Qed.

End RagLaws.

Module IngestionLaws.

Import PyFacts Providers Registry RagChain Rag RagMore.
Import ChunkingFacts RegistryFacts RegistryLaws RagLaws.

Lemma document_id_inj notebook_id source_name i j :
  document_id notebook_id source_name i = document_id notebook_id source_name j ->
  i = j.
Proof.
  unfold document_id. intros H.
  repeat apply String.app_inj in H. by apply pretty_Z_inj in H.
Qed.

(** X17: chunk ids tell the chunks of one source apart but not the
    sources of different notebooks.  For a fixed notebook and source the
    id determines the chunk index; but a notebook [a_b] with source [c]
    and a notebook [a] with source [b_c] get the same ids, chunk by
    chunk. *)
Theorem document_id_scope notebook_id source_name :
  (forall i j,
     document_id notebook_id source_name i
     = document_id notebook_id source_name j -> i = j) /\
  (forall a b c i,
     document_id (a +:+ "_" +:+ b) c i = document_id a (b +:+ "_" +:+ c) i).
Proof.
  split; [apply document_id_inj|].
  intros a b c i. unfold document_id. by rewrite !str_app_assoc.
Qed.

Lemma new_ids_NoDup notebook_id source_name chunks :
  NoDup (new_ids notebook_id source_name chunks).
Proof.
  unfold new_ids.
  rewrite (imap_seq_0 chunks
             (fun i => document_id notebook_id source_name (Z.of_nat i))).
  apply NoDup_fmap_2; [|apply NoDup_seq].
  intros i j H. apply document_id_inj in H. lia.
Qed.

(** X18: what [add_documents] stores.  When it returns [n], the vector
    store was obtained and received one batch: [n] documents and [n]
    ids, where [n] is the number of chunks the splitter gave; the ids
    are pairwise distinct; and the document and the id at position [i]
    are the [i]-th chunk, with [chunk_index = i], and the id built from
    the notebook, the source name and [i]. *)
Theorem add_documents_batch {F} (b : Backend F) w self notebook_id source_name
    source_type content sent n self1 :
  add_documents b w self notebook_id source_name source_type content
    = (sent, Ok n, self1) ->
  let chunks := split_text b content in
  n = length chunks /\
  (exists vs, _get_vectorstore w self = (Ok vs, self1)) /\
  exists docs ids,
    sent = Some (docs, ids) /\
    length docs = n /\ length ids = n /\ NoDup ids /\
    forall i chunk, chunks !! i = Some chunk ->
      ids !! i = Some (document_id notebook_id source_name (Z.of_nat i)) /\
      docs !! i =
        Some {| new_page_content := chunk;
                new_metadata :=
                  {| meta_notebook_id := notebook_id;
                     meta_source_name := source_name;
                     meta_source_type := source_type;
                     meta_chunk_index := Z.of_nat i |} |}.
Proof.
  unfold add_documents.
  destruct (_get_vectorstore w self) as [[vs|e] self2]; [|done].
  destruct (store_add_documents b vs _ _) as [[]|e]; [|done].
  intros [= <- <- <-]. cbv zeta.
  split; [by unfold new_documents; rewrite length_imap|].
  split; [by exists vs|].
  eexists _, _. split; [done|].
  split; [done|].
  split; [by unfold new_documents, new_ids; rewrite !length_imap|].
  split; [apply new_ids_NoDup|].
  intros i chunk Hi. unfold new_ids, new_documents.
  by rewrite !list_lookup_imap, Hi.
Qed.

Section legacy_ingestion.
Context {F : Type}.
Variable b : Backend F.
Variable w : World.

Lemma get_embeddings_registry text reg :
  (get_embeddings b w text reg).2
  = (get_embedding_provider (getenv w) reg).2.
Proof.
  unfold get_embeddings.
  destruct (get_embedding_provider (getenv w) reg) as [[p|e] reg1]; [|done].
  destruct (Providers.get_embeddings _ p None) as [emb|e]; [|done].
  by destruct (embed_query b emb text).
Qed.

Lemma get_embedding_provider_again reg :
  get_embedding_provider (getenv w) (get_embedding_provider (getenv w) reg).2
  = ((get_embedding_provider (getenv w) reg).1,
     (get_embedding_provider (getenv w) reg).2).
Proof.
  unfold get_embedding_provider.
  destruct (get_provider_cases (getenv w) (_embedding_provider_name reg) reg)
    as [(_ & msg & Heq)|[(c & p & _ & _ & Heq)|(c & p & Hc & _ & _ & Heq)]];
    rewrite Heq; simpl; rewrite ?Heq; try done.
  unfold get_provider. rewrite Hc. simpl. by rewrite lookup_insert_eq.
Qed.

(** The embedding of a text does not depend on the calls made before. *)
Lemma get_embeddings_stable text text' reg :
  get_embeddings b w text' (get_embeddings b w text reg).2
  = ((get_embeddings b w text' reg).1, (get_embeddings b w text reg).2).
Proof.
  rewrite get_embeddings_registry.
  unfold get_embeddings at 1 2. rewrite get_embedding_provider_again.
  destruct (get_embedding_provider (getenv w) reg) as [[p|e] reg1]; [|done].
  simpl. destruct (Providers.get_embeddings _ p None) as [emb|e]; [|done].
  by destruct (embed_query b emb text').
Qed.

(** The [collection.add] call the legacy loop makes for a chunk, if any:
    none when the chunk has no embedding. *)
Definition expected_add (notebook_id source_name source_type : string)
    (reg : ProviderRegistry) (entry : Z * string) : option (AddRecord F) :=
  match (get_embeddings b w entry.2 reg).1 with
  | [] => None
  | embedding =>
      Some {| add_id := document_id notebook_id source_name entry.1;
              add_embedding := embedding;
              add_document := entry.2;
              add_metadata :=
                {| meta_notebook_id := notebook_id;
                   meta_source_name := source_name;
                   meta_source_type := source_type;
                   meta_chunk_index := entry.1 |} |}
  end.

Lemma omap_cons_case {A B} (f : A -> option B) x l :
  omap f (x :: l) =
  match f x with Some y => y :: omap f l | None => omap f l end.
Proof. done. Qed.

Lemma legacy_add_loop_spec notebook_id source_name source_type indexed reg
    reg0 :
  (forall text, (get_embeddings b w text reg).1
                = (get_embeddings b w text reg0).1) ->
  let run := legacy_add_loop b w notebook_id source_name source_type indexed
               reg in
  run.1.1 `prefix_of`
    omap (expected_add notebook_id source_name source_type reg0) indexed /\
  (run.1.2 = Ok tt ->
   run.1.1 = omap (expected_add notebook_id source_name source_type reg0)
               indexed).
Proof.
  revert reg. induction indexed as [|[i chunk] rest IH]; intros reg Hsame.
  { simpl. split; [done|]. done. }
  cbn [legacy_add_loop]. rewrite omap_cons_case.
  destruct (get_embeddings b w chunk reg) as [embedding reg1] eqn:Hemb.
  assert (Hexp :
    expected_add notebook_id source_name source_type reg0 (i, chunk) =
    match embedding with
    | [] => None
    | _ :: _ =>
        Some {| add_id := document_id notebook_id source_name i;
                add_embedding := embedding;
                add_document := chunk;
                add_metadata :=
                  {| meta_notebook_id := notebook_id;
                     meta_source_name := source_name;
                     meta_source_type := source_type;
                     meta_chunk_index := i |} |}
    end).
  { unfold expected_add. cbn [fst snd]. rewrite <- Hsame, Hemb. cbn [fst].
    by destruct embedding. }
  rewrite Hexp.
  assert (Hsame1 : forall text,
            (get_embeddings b w text reg1).1 = (get_embeddings b w text reg0).1).
  { intros text. rewrite <- Hsame.
    pose proof (get_embeddings_stable chunk text reg) as Hst.
    rewrite Hemb in Hst. simpl in Hst. by rewrite Hst. }
  specialize (IH reg1 Hsame1). cbv zeta in IH.
  destruct embedding as [|x v]; [exact IH|].
  destruct (collection_add b _) as [[]|e].
  - destruct (legacy_add_loop b w notebook_id source_name source_type rest reg1)
      as [[added outcome] reg2].
    simpl in *. destruct IH as [Hpre Hall]. split.
    + by apply prefix_cons.
    + intros Hok. by rewrite Hall.
  - simpl. split; [|done]. apply prefix_cons. apply prefix_nil.
Qed.

Lemma omap_length_le {A B} (f : A -> option B) l :
  (length (omap f l) <= length l)%nat.
Proof.
  induction l as [|x l IH]; [done|]. rewrite omap_cons_case.
  destruct (f x); simpl; lia.
Qed.

Lemma omap_NoDup_image {A B C} `{EqDecision C} (f : A -> option B)
    (g : A -> C) (h : B -> C) l :
  (forall x y, f x = Some y -> h y = g x) ->
  NoDup (g <$> l) -> NoDup (h <$> omap f l).
Proof.
  intros Hfg. induction l as [|x l IH]; [constructor|].
  rewrite fmap_cons, NoDup_cons, omap_cons_case. intros [Hx Hnd].
  destruct (f x) as [y|] eqn:Hy; [|by apply IH].
  rewrite fmap_cons. apply NoDup_cons. split; [|by apply IH].
  rewrite (Hfg x y Hy). intros Hin. apply Hx.
  apply list_elem_of_fmap in Hin as (y' & Heq & Hin').
  apply list_elem_of_omap in Hin' as (x' & Hx' & Hfx').
  rewrite (Hfg x' y' Hfx') in Heq. rewrite Heq.
  by apply list_elem_of_fmap_2.
Qed.

(** X19: what the legacy ingestion stores.  The [collection.add] calls
    of [_legacy_process_document] are, in order, those of the chunks that
    have a non-empty embedding; a chunk without embedding is skipped and
    the later chunks keep their own positions in their ids and metadata.
    When a call raises, the calls made are an initial part of that list.
    The ids are pairwise distinct, and there are at most
    ceil(len(content) / 450) calls. *)
Theorem legacy_ingestion_adds notebook_id file_path content source_type
    source_name reg :
  let run := _legacy_process_document b w notebook_id file_path content
               source_type source_name reg in
  let expected :=
    omap (expected_add notebook_id source_name source_type reg)
      (enumerate (legacy_chunks content)) in
  run.1.1 `prefix_of` expected /\
  (run.1.2 = Ok tt -> run.1.1 = expected) /\
  NoDup (add_id <$> expected) /\
  (length expected <= ceil_div (String.length content) 450)%nat /\
  (forall record, record ∈ expected <->
     exists i chunk,
       legacy_chunks content !! i = Some chunk /\
       (get_embeddings b w chunk reg).1 <> [] /\
       record =
         {| add_id := document_id notebook_id source_name (Z.of_nat i);
            add_embedding := (get_embeddings b w chunk reg).1;
            add_document := chunk;
            add_metadata :=
              {| meta_notebook_id := notebook_id;
                 meta_source_name := source_name;
                 meta_source_type := source_type;
                 meta_chunk_index := Z.of_nat i |} |}).
Proof.
  intros run expected.
  destruct (legacy_add_loop_spec notebook_id source_name source_type
              (enumerate (legacy_chunks content)) reg reg (fun _ => eq_refl))
    as [Hpre Hall].
  split; [exact Hpre|]. split; [exact Hall|]. split; [|split].
  - apply (omap_NoDup_image _
             (fun entry : Z * string =>
                document_id notebook_id source_name entry.1) add_id).
    + intros [i chunk] record. unfold expected_add. cbn [fst snd].
      destruct (get_embeddings b w chunk reg).1; [done|].
      by intros [= <-].
    + unfold enumerate. rewrite fmap_imap.
      rewrite (imap_ext _ (fun i _ =>
                 document_id notebook_id source_name (Z.of_nat i))) by done.
      apply new_ids_NoDup.
  - etrans; [apply omap_length_le|].
    unfold enumerate. rewrite length_imap.
    by rewrite legacy_chunks_spec, length_fmap, length_seq.
  - intros record. unfold expected. rewrite list_elem_of_omap. split.
    + intros ([i chunk] & Hin & Hexp).
      apply elem_of_lookup_imap in Hin as (j & chunk' & [= -> ->] & Hj).
      exists j, chunk'. split; [done|].
      unfold expected_add in Hexp. cbn [fst snd] in Hexp.
      destruct (get_embeddings b w chunk' reg).1 as [|x v]; [done|].
      split; [done|]. by inversion Hexp.
    + intros (i & chunk & Hi & Hne & ->).
      exists (Z.of_nat i, chunk). split.
      * by apply (elem_of_lookup_imap_2 (fun i x => (Z.of_nat i, x))).
      * unfold expected_add. cbn [fst snd].
        by destruct (get_embeddings b w chunk reg).1.
Qed.

End legacy_ingestion.

End IngestionLaws.

(** ** The Gemini adapter ([providers/gemini.py], [stream_chat]) *)

Module Gemini.

Import Providers Registry RagChain.

(** [types.Content(role=..., parts=[Part.from_text(text=...)])]. *)
Record Content : Type := {
  content_role : string;
  content_text : string
}.

(** The arguments of [generate_content_stream]: the model, the contents
    and the config (temperature 0.7, in tenths, and the system
    instruction when one is set). *)
Record GenerateRequest : Type := {
  req_model : option string;
  req_contents : list Content;
  req_system_instruction : option string;
  req_temperature_tenths : Z
}.

(** A stream of the SDK run to its end: the [text] of every chunk
    ([None] for a chunk without text) and the way the stream ended. *)
Definition ChunkStream : Type := (list (option string) * option exception)%type.

(** The client of the SDK for a given API key: the asynchronous and the
    synchronous [generate_content_stream].  Building the client
    ([_refresh_client]) is taken to succeed. *)
Record Client : Type := {
  aio_generate_content_stream : option string -> GenerateRequest -> ChunkStream;
  generate_content_stream : option string -> GenerateRequest -> ChunkStream
}.

(** One iteration of the loop over the messages: the contents so far and
    the system instruction so far. *)
Definition convert_step (acc : list Content * option string) (msg : Message)
    : list Content * option string :=
  let role := default "user" (msg !! "role") in
  let content := default EmptyString (msg !! "content") in
  if decide (role = "system") then (acc.1, Some content)
  else if decide (role = "user") then
    (acc.1 ++ [{| content_role := "user"; content_text := content |}], acc.2)
  else if decide (role = "assistant") then
    (acc.1 ++ [{| content_role := "model"; content_text := content |}], acc.2)
  else acc.

Definition convert (messages : list Message) : list Content * option string :=
  fold_left convert_step messages ([], None).

Definition build_request (p : Provider) (messages : list Message)
    (model_name : option string) : GenerateRequest :=
  let '(contents, system_instruction) := convert messages in
  {| req_model := or_else model_name (Providers._chat_model p);
     req_contents := contents;
     req_system_instruction :=
       if truthy_opt_str system_instruction then system_instruction else None;
     req_temperature_tenths := 7 |}.

(** The fragments a stream contributes: [if chunk.text: yield chunk.text]. *)
Definition texts (chunks : list (option string)) : list string :=
  omap (fun text => if truthy_opt_str text then text else None) chunks.

(** [GeminiProvider.stream_chat]. *)
Definition stream_chat (client : Client) (p : Provider)
    (messages : list Message) (model_name : option string) : Gen :=
  let request := build_request p messages model_name in
  match aio_generate_content_stream client (api_key p) request with
  | (chunks, None) => (texts chunks, None)
  | (chunks, Some _) =>
      match generate_content_stream client (api_key p) request with
      | (chunks2, None) => (texts chunks ++ texts chunks2, None)
      | (chunks2, Some e2) =>
          (texts chunks ++ texts chunks2,
           Some (OtherException ("Gemini error: " +:+ str_of_exception e2)))
      end
  end.


End Gemini.

Module GeminiLaws.

Import PyFacts Providers Registry RagChain Rag Gemini.

(** The content of the last system message, if there is one. *)
Definition last_system (messages : list Message) : option string :=
  (convert messages).2.

Definition is_system (msg : Message) : Prop :=
  default "user" (msg !! "role") = "system".

Global Instance is_system_dec msg : Decision (is_system msg).
Proof. unfold is_system. apply _. Defined.

Lemma convert_step_acc acc msg :
  (convert_step acc msg).1 = acc.1 ++ (convert_step ([], None) msg).1 /\
  (convert_step acc msg).2 =
    match (convert_step ([], None) msg).2 with
    | Some c => Some c
    | None => acc.2
    end.
Proof.
  unfold convert_step. repeat case_decide; simpl; by rewrite ?app_nil_r.
Qed.

Lemma convert_fold messages acc :
  (fold_left convert_step messages acc).2 =
  match (fold_left convert_step messages ([], None)).2 with
  | Some c => Some c
  | None => acc.2
  end /\
  (fold_left convert_step messages acc).1 =
  acc.1 ++ (fold_left convert_step messages ([], None)).1.
Proof.
  revert acc. induction messages as [|msg rest IH]; intros acc.
  - simpl. by rewrite app_nil_r.
  - cbn [fold_left].
    destruct (IH (convert_step acc msg)) as [IH2 IH1].
    destruct (IH (convert_step ([], None) msg)) as [IH2' IH1'].
    destruct (convert_step_acc acc msg) as [Hs1 Hs2].
    rewrite IH2, IH1, IH2', IH1', Hs1, Hs2. split.
    + by destruct (fold_left convert_step rest ([], None)).2.
    + by rewrite app_assoc.
Qed.

Lemma convert_cons msg rest :
  convert (msg :: rest) =
  ((convert_step ([], None) msg).1 ++ (convert rest).1,
   match (convert rest).2 with
   | Some c => Some c
   | None => (convert_step ([], None) msg).2
   end).
Proof.
  unfold convert. simpl.
  destruct (convert_fold rest (convert_step ([], None) msg)) as [H2 H1].
  rewrite <- H1, <- H2. by destruct (fold_left _ _ _).
Qed.

Lemma convert_snoc rest msg :
  convert (rest ++ [msg]) = convert_step (convert rest) msg.
Proof. unfold convert. by rewrite fold_left_app. Qed.

Lemma convert_no_system messages :
  Forall (fun msg => ~ is_system msg) messages -> (convert messages).2 = None.
Proof.
  induction messages as [|msg rest IH] using rev_ind; [done|].
  rewrite Forall_app, Forall_singleton. intros [Hrest Hmsg].
  rewrite convert_snoc. unfold convert_step.
  unfold is_system in Hmsg. rewrite decide_False by done.
  repeat case_decide; simpl; by apply IH.
Qed.

Lemma truthy_system_prompt context :
  truthy_str (SYSTEM_PROMPT_format context) = true.
Proof.
  unfold SYSTEM_PROMPT_format.
  assert (H : exists c s, SYSTEM_PROMPT_head = String c s).
  { vm_compute. eauto. }
  destruct H as (c & s & ->). by rewrite str_app_cons.
Qed.

Lemma convert_app l1 l2 :
  (convert (l1 ++ l2)).1 = (convert l1).1 ++ (convert l2).1 /\
  (convert (l1 ++ l2)).2 =
    match (convert l2).2 with Some c => Some c | None => (convert l1).2 end.
Proof.
  unfold convert. rewrite fold_left_app.
  destruct (convert_fold l2 (fold_left convert_step l1 ([], None))) as [H2 H1].
  by rewrite H1, H2.
Qed.

Lemma convert_system_prompt context :
  convert_step ([], None)
    ({[ "role" := "system"; "content" := SYSTEM_PROMPT_format context ]}
       : Message)
  = ([], Some (SYSTEM_PROMPT_format context)).
Proof.
  unfold convert_step. cbv zeta.
  rewrite lookup_insert_eq, lookup_insert_ne by done.
  by rewrite lookup_singleton_eq.
Qed.

Lemma convert_roles messages :
  Forall (fun c => content_role c = "user" \/ content_role c = "model")
    (convert messages).1.
Proof.
  induction messages as [|msg rest IH] using rev_ind; [constructor|].
  rewrite convert_snoc. unfold convert_step.
  repeat case_decide; simpl; try done;
    (apply Forall_app; split; [done|]); constructor; simpl; auto.
Qed.

(** X20: which system instruction Gemini gets from [stream_response].
    The request is built from the prompt with the retrieved context
    followed by the conversation.  Without a system message in the
    conversation the instruction is that prompt; but the last system
    message of the conversation, when there is one, replaces it (and
    with an empty content leaves the request without any instruction),
    so the retrieved context does not reach the model.  System messages
    are never part of the contents, whose roles are user and model. *)
Theorem gemini_system_instruction p context messages model :
  let request := build_request p (augmented_messages context messages) model in
  (Forall (fun msg => ~ is_system msg) messages ->
   req_system_instruction request = Some (SYSTEM_PROMPT_format context)) /\
  (forall earlier msg later,
     messages = earlier ++ msg :: later -> is_system msg ->
     Forall (fun m => ~ is_system m) later ->
     req_system_instruction request =
       if truthy_str (default EmptyString (msg !! "content"))
       then Some (default EmptyString (msg !! "content")) else None) /\
  req_contents request = (convert messages).1 /\
  Forall (fun c => content_role c = "user" \/ content_role c = "model")
    (req_contents request).
Proof.
  intros request. subst request. unfold build_request, augmented_messages.
  rewrite convert_cons, convert_system_prompt. cbn [fst snd app].
  split; [|split; [|split]].
  - intros Hnone. rewrite (convert_no_system _ Hnone). cbn.
    by rewrite truthy_system_prompt.
  - intros earlier msg later -> Hsys Hlater.
    destruct (convert_app earlier (msg :: later)) as [_ ->].
    rewrite convert_cons, (convert_no_system _ Hlater).
    unfold convert_step. unfold is_system in Hsys.
    rewrite decide_True by done. cbn.
    by destruct (truthy_str _).
  - done.
  - apply convert_roles.
Qed.


End GeminiLaws.

(** ** The chat endpoint ([main.py], [chat] and [stream_and_save]) *)

Module Main.

Import Providers Registry RagChain Rag.

(** A notebook document of the database, reduced to what the endpoint
    reads: the entry ["sources"], when present. *)
Record NotebookDoc : Type := {
  sources : option (list (gmap string string))
}.

(** The database calls of the endpoint for the notebook of the request:
    [find_one] and [update_one] with a [$push] of a message, each by
    [ObjectId] (where building the [ObjectId] may raise as well) and by
    the plain string id. *)
Record Db : Type := {
  find_by_object_id : Result (option NotebookDoc);
  find_by_string_id : Result (option NotebookDoc);
  push_by_object_id : Message -> Result unit;
  push_by_string_id : Message -> Result unit
}.

(** [try: find by ObjectId; except: find by string id]. *)
Definition find_notebook (db : Db) : Result (option NotebookDoc) :=
  match find_by_object_id db with
  | Ok nb => Ok nb
  | Raise _ => find_by_string_id db
  end.

(** [try: push by ObjectId; except: push by string id]. *)
Definition push_message (db : Db) (msg : Message) : Result unit :=
  match push_by_object_id db msg with
  | Ok _ => Ok tt
  | Raise _ => push_by_string_id db msg
  end.

(** The loop [for s in nb["sources"]] with its two accumulators. *)
Fixpoint collect_selected (nb_sources : list (gmap string string))
    (selected : list string) (temp_content : list (gmap string string))
    (total_chars : Z) : Result (list (gmap string string) * Z) :=
  match nb_sources with
  | [] => Ok (temp_content, total_chars)
  | s :: rest =>
      match s !! "name" with
      | None => Raise (KeyError "'name'")
      | Some name =>
          if decide (name ∈ selected) then
            let c := default EmptyString (s !! "content") in
            if truthy_str c then
              collect_selected rest selected
                (temp_content ++ [{[ "name" := name; "content" := c ]}])
                (total_chars + Z.of_nat (String.length c))
            else collect_selected rest selected temp_content total_chars
          else collect_selected rest selected temp_content total_chars
      end
  end.

Section chat.
(** The module global [MAX_FULL_CONTEXT] as the comparison finds it: its
    value, or [None] where the name is not bound ([main.py] reads it and
    assigns it nowhere). *)
Variable MAX_FULL_CONTEXT : option Z.

(** The chained comparison [0 < total_chars < MAX_FULL_CONTEXT]: the
    global is read only when the first comparison holds. *)
Definition within_full_context (total_chars : Z) : Result bool :=
  if (0 <? total_chars)%Z then
    match MAX_FULL_CONTEXT with
    | Some m => Ok (total_chars <? m)%Z
    | None => Raise (OtherException "name 'MAX_FULL_CONTEXT' is not defined")
    end
  else Ok false.

(** The first part of [stream_and_save]: the value of
    [full_source_content] when the stream is started. *)
Definition select_full_context (db : Db)
    (selected_sources : option (list string)) : list (gmap string string) :=
  if truthy_opt_list selected_sources then
    match
      nb ← find_notebook db;
      match nb with
      | Some {| sources := Some nb_sources |} =>
          collected ← collect_selected nb_sources
                        (default [] selected_sources) [] 0;
          within ← within_full_context collected.2;
          if within : bool then Ok collected.1 else Ok []
      | _ => Ok []
      end
    with
    | Ok content => content
    | Raise _ => []
    end
  else [].

(** [stream_and_save] run to its end: the searches, the fragments with
    the way the generator ended, the assistant message handed to the
    database, and the chain. *)
Definition stream_and_save (w : World) (db : Db) (chain : RAGChain)
    (notebook_id : string) (messages : list Message)
    (selected_sources : option (list string))
    : list SearchCall * Gen * list Message * RAGChain :=
  let full_source_content := select_full_context db selected_sources in
  let '(calls, (fragments, outcome), chain1) :=
    stream_chat_response w chain notebook_id messages selected_sources
      (Some full_source_content) in
  match outcome with
  | Some e => (calls, (fragments, Some e), [], chain1)
  | None =>
      let assistant_msg : Message :=
        {[ "role" := "assistant";
           "content" := String.concat EmptyString fragments ]} in
      match push_message db assistant_msg with
      | Ok _ => (calls, (fragments, None), [assistant_msg], chain1)
      | Raise e => (calls, (fragments, Some e), [assistant_msg], chain1)
      end
  end.

(** [chat]: the user message handed to the database (if any), and the
    stream of the response or the exception raised before it starts. *)
Definition chat (w : World) (db : Db) (chain : RAGChain)
    (notebook_id : string) (messages : list Message)
    (selected_sources : option (list string))
    : list Message *
      Result (list SearchCall * Gen * list Message * RAGChain) :=
  match last messages with
  | None => ([], Raise (IndexError "list index out of range"))
  | Some user_msg =>
      match user_msg !! "role" with
      | None => ([], Raise (KeyError "'role'"))
      | Some role =>
          if decide (role = "user") then
            match push_message db user_msg with
            | Raise e => ([user_msg], Raise e)
            | Ok _ =>
                ([user_msg],
                 Ok (stream_and_save w db chain notebook_id messages
                       selected_sources))
            end
          else
            ([], Ok (stream_and_save w db chain notebook_id messages
                       selected_sources))
      end
  end.

End chat.

End Main.

Module MainLaws.

Import PyFacts Providers Registry RagChain Rag StreamingFacts Main.

(** What the loop of [stream_and_save] keeps of a source. *)
Definition is_selected (selected : list string) (s : gmap string string)
    : bool :=
  bool_decide (default EmptyString (s !! "name") ∈ selected)
  && truthy_str (default EmptyString (s !! "content")).

Definition entry_of (s : gmap string string) : gmap string string :=
  {[ "name" := default EmptyString (s !! "name");
     "content" := default EmptyString (s !! "content") ]}.

(** The number of characters of a list of sources. *)
Definition total_chars (content : list (gmap string string)) : Z :=
  foldr (fun s acc =>
           (Z.of_nat (String.length (default EmptyString (s !! "content")))
            + acc)%Z) 0%Z content.

Lemma total_chars_app l1 l2 :
  total_chars (l1 ++ l2) = (total_chars l1 + total_chars l2)%Z.
Proof.
  induction l1 as [|s l1 IH]; [done|].
  cbn [app total_chars foldr]. fold (total_chars (l1 ++ l2)).
  fold (total_chars l1). lia.
Qed.

Lemma total_chars_entry_of s :
  total_chars [entry_of s] =
  Z.of_nat (String.length (default EmptyString (s !! "content"))).
Proof.
  unfold total_chars, entry_of. cbn [foldr].
  rewrite lookup_insert_ne by done. rewrite lookup_singleton_eq.
  cbn. lia.
Qed.

(** The loop in closed form: it ends without an exception exactly when
    every source has a name, and then it has appended the kept sources
    in order and added their lengths. *)
Lemma collect_selected_spec nb_sources selected temp total :
  match collect_selected nb_sources selected temp total with
  | Ok (temp', total') =>
      Forall (fun s => is_Some (s !! "name")) nb_sources /\
      temp' = temp ++ (entry_of <$> filter (is_selected selected) nb_sources) /\
      total' =
        (total +
         total_chars (entry_of <$> filter (is_selected selected) nb_sources))%Z
  | Raise e =>
      e = KeyError "'name'" /\
      ~ Forall (fun s => is_Some (s !! "name")) nb_sources
  end.
Proof.
  revert temp total. induction nb_sources as [|s rest IH]; intros temp total.
  - cbn [collect_selected]. rewrite filter_nil. cbn.
    rewrite app_nil_r. split; [done|]. split; [done|]. lia.
  - cbn [collect_selected].
    destruct (s !! "name") as [name|] eqn:Hname.
    2:{ split; [done|]. intros Hall. apply Forall_cons in Hall as [Hs _].
        rewrite Hname in Hs. by destruct Hs. }
    assert (Hkeep : forall temp2 total2,
      ~ is_selected selected s ->
      match collect_selected rest selected temp2 total2 with
      | Ok (temp', total') =>
          Forall (fun s0 => is_Some (s0 !! "name")) (s :: rest) /\
          temp' = temp2 ++
            (entry_of <$> filter (is_selected selected) (s :: rest)) /\
          total' = (total2 + total_chars
            (entry_of <$> filter (is_selected selected) (s :: rest)))%Z
      | Raise e =>
          e = KeyError "'name'" /\
          ~ Forall (fun s0 => is_Some (s0 !! "name")) (s :: rest)
      end).
    { intros temp2 total2 Hno. specialize (IH temp2 total2).
      destruct (collect_selected rest selected temp2 total2)
        as [[temp' total']|e].
      - destruct IH as (Hall & Htemp & Htotal).
        rewrite filter_cons_False by done.
        split; [|done]. apply Forall_cons. split; [|done].
        by rewrite Hname.
      - destruct IH as [He Hall]. split; [done|].
        intros H. apply Forall_cons in H as [_ H]. by apply Hall. }
    destruct (decide (name ∈ selected)) as [Hin|Hout].
    2:{ apply Hkeep. unfold is_selected. rewrite Hname. cbn [from_option id].
        rewrite bool_decide_eq_false_2 by done. cbn. tauto. }
    destruct (truthy_str (default EmptyString (s !! "content"))) eqn:Hc.
    2:{ apply Hkeep. unfold is_selected. rewrite Hc.
        rewrite andb_false_r. cbn. tauto. }
    assert (Hsel : is_selected selected s).
    { unfold is_selected. rewrite Hname, Hc. cbn [from_option id].
      by rewrite bool_decide_eq_true_2. }
    specialize (IH
      (temp ++ [{[ "name" := name;
                   "content" := default EmptyString (s !! "content") ]}])
      (total + Z.of_nat (String.length (default EmptyString (s !! "content"))))%Z).
    destruct (collect_selected rest selected _ _) as [[temp' total']|e].
    + destruct IH as (Hall & Htemp & Htotal).
      rewrite filter_cons_True by done. rewrite fmap_cons.
      split.
      { apply Forall_cons. split; [|done]. by rewrite Hname. }
      split.
      { rewrite Htemp. rewrite <- app_assoc. f_equal. cbn [app]. f_equal.
        unfold entry_of. by rewrite Hname. }
      rewrite Htotal.
      change (entry_of s :: ?l) with ([entry_of s] ++ l).
      rewrite total_chars_app, total_chars_entry_of. lia.
    + destruct IH as [He Hall]. split; [done|].
      intros H. apply Forall_cons in H as [_ H]. by apply Hall.
Qed.

Lemma total_chars_pos_nonempty content :
  (0 < total_chars content)%Z -> content <> [].
Proof. by destruct content. Qed.

(** X22: the chat endpoint hands whole documents to the chain exactly
    when sources are selected, the notebook is found and has a list of
    sources that all carry a name, the limit [MAX_FULL_CONTEXT] is bound,
    and the selected sources with non-empty content have together more
    than 0 and fewer than [MAX_FULL_CONTEXT] characters; what it hands
    over is then every such source, in notebook order, as its name and
    its whole content.  In every other case (also when the limit is not
    bound) the list is empty and the chain retrieves by similarity. *)
Theorem full_context_selection MAX_FULL_CONTEXT db selected_sources content :
  select_full_context MAX_FULL_CONTEXT db selected_sources = content /\
  content <> []
  <->
  exists selected nb_sources limit,
    selected_sources = Some selected /\
    find_notebook db = Ok (Some {| sources := Some nb_sources |}) /\
    Forall (fun s => is_Some (s !! "name")) nb_sources /\
    MAX_FULL_CONTEXT = Some limit /\
    content = entry_of <$> filter (is_selected selected) nb_sources /\
    (0 < total_chars content < limit)%Z.
Proof.
  unfold select_full_context. split.
  - intros [Hrun Hne].
    destruct selected_sources as [[|x selected]|]; cbn [truthy_opt_list] in Hrun;
      [congruence| |congruence].
    exists (x :: selected).
    destruct (find_notebook db) as [[[[nb_sources|]]|]|e];
      cbn [mbind Result_bind] in Hrun; try congruence.
    exists nb_sources.
    pose proof (collect_selected_spec nb_sources (x :: selected) [] 0) as Hloop.
    cbn [from_option id] in Hrun.
    destruct (collect_selected nb_sources (x :: selected) [] 0)
      as [[temp total]|e]; cbn [mbind Result_bind] in Hrun; [|congruence].
    destruct Hloop as (Hall & Htemp & Htotal). cbn [app] in Htemp.
    cbn [snd fst] in Hrun. unfold within_full_context in Hrun.
    destruct (0 <? total)%Z eqn:Hpos; cbn [mbind Result_bind] in Hrun;
      [|congruence].
    destruct MAX_FULL_CONTEXT as [limit|]; cbn [mbind Result_bind] in Hrun;
      [|congruence].
    exists limit.
    destruct (total <? limit)%Z eqn:Hlim; [|congruence].
    subst content temp. repeat (split; [done|]).
    apply Z.ltb_lt in Hpos. apply Z.ltb_lt in Hlim. lia.
  - intros (selected & nb_sources & limit & -> & -> & Hall & -> & Hc & Hlt).
    assert (Hne : content <> []) by (apply total_chars_pos_nonempty; lia).
    split; [|done].
    assert (Hsel : truthy_opt_list (Some selected) = true).
    { destruct selected as [|x selected]; [|done].
      exfalso. apply Hne. rewrite Hc.
      assert (Hnone : forall l : list (gmap string string),
                filter (is_selected []) l = []).
      { intros l. induction l as [|s l IH]; [done|].
        rewrite filter_cons_False; [done|].
        unfold is_selected. rewrite bool_decide_eq_false_2; [cbn; tauto|].
        apply not_elem_of_nil. }
      by rewrite Hnone. }
    rewrite Hsel. cbn [mbind Result_bind from_option id].
    pose proof (collect_selected_spec nb_sources selected [] 0) as Hloop.
    destruct (collect_selected nb_sources selected [] 0)
      as [[temp total]|e]; cbn [mbind Result_bind].
    + destruct Hloop as (_ & Htemp & Htotal). cbn [app] in Htemp.
      cbn [snd fst]. unfold within_full_context.
      rewrite <- Hc in Htemp, Htotal. subst temp total.
      replace (0 <? 0 + total_chars content)%Z with true
        by (symmetry; apply Z.ltb_lt; lia).
      cbn [mbind Result_bind].
      replace (0 + total_chars content <? limit)%Z with true
        by (symmetry; apply Z.ltb_lt; lia).
      done.
    + by destruct Hloop as [_ Hnot].
Qed.

(** [stream_chat_response] ends without an exception. *)
Lemma stream_chat_response_ends w chain notebook_id messages selected_sources
    full_source_content :
  (stream_chat_response w chain notebook_id messages selected_sources
     full_source_content).1.2.2 = None.
Proof.
  unfold stream_chat_response.
  destruct (stream_response w chain notebook_id messages selected_sources
              full_source_content) as [[calls [fragments [e|]]] chain1]; done.
Qed.

(** A non-empty [full_source_content] keeps [stream_chat_response] from
    searching. *)
Lemma stream_chat_response_full w chain notebook_id messages selected_sources
    fsc :
  fsc <> [] ->
  (stream_chat_response w chain notebook_id messages selected_sources
     (Some fsc)).1.1 = [].
Proof.
  intros Hne. unfold stream_chat_response, stream_response.
  rewrite (build_context_full w chain notebook_id messages selected_sources
             fsc Hne).
  destruct (latest_user_message messages) as [user_message|e]; [|done].
  cbn [mbind Result_bind]. destruct (full_context fsc) as [context citations].
  destruct (get_chat_provider _ _) as [[p|e] reg]; [|done].
  by destruct (stream_chat w p _) as [fragments [e|]].
Qed.

(** X23: a request to [chat] that gets as far as streaming has a last
    message; that message is stored first when (and only when) its role
    is ["user"].  The stream then hands on every fragment of
    [stream_chat_response], called with the documents picked by the first
    part of [stream_and_save]; the assistant message given to the
    database afterwards holds the concatenation of exactly the fragments
    the client received (the citation footer or an error text included);
    the stream ends with an exception only when both ways of storing
    that message raise; and when whole documents were picked no
    similarity search is made. *)
Theorem chat_saves_what_it_streams MAX_FULL_CONTEXT w db chain notebook_id
    messages selected_sources shown calls fragments outcome saved chain1 :
  chat MAX_FULL_CONTEXT w db chain notebook_id messages selected_sources =
    (shown, Ok (calls, (fragments, outcome), saved, chain1)) ->
  let assistant_msg : Message :=
    {[ "role" := "assistant";
       "content" := String.concat EmptyString fragments ]} in
  let picked := select_full_context MAX_FULL_CONTEXT db selected_sources in
  (exists user_msg role,
     last messages = Some user_msg /\ user_msg !! "role" = Some role /\
     shown = if decide (role = "user") then [user_msg] else []) /\
  stream_chat_response w chain notebook_id messages selected_sources
    (Some picked) = (calls, (fragments, None), chain1) /\
  saved = [assistant_msg] /\
  match outcome with
  | None =>
      (exists u, push_by_object_id db assistant_msg = Ok u) \/
      push_by_string_id db assistant_msg = Ok tt
  | Some e =>
      (exists e1, push_by_object_id db assistant_msg = Raise e1) /\
      push_by_string_id db assistant_msg = Raise e
  end /\
  (picked <> [] -> calls = []).
Proof.
  intros Hchat assistant_msg picked.
  assert (Hrun : stream_and_save MAX_FULL_CONTEXT w db chain notebook_id
                   messages selected_sources =
                 (calls, (fragments, outcome), saved, chain1) /\
                 exists user_msg role,
                   last messages = Some user_msg /\
                   user_msg !! "role" = Some role /\
                   shown = if decide (role = "user") then [user_msg] else []).
  { unfold chat in Hchat.
    destruct (last messages) as [user_msg|]; [|done].
    destruct (user_msg !! "role") as [role|] eqn:Hrole; [|done].
    destruct (decide (role = "user")) as [Hu|Hu].
    - destruct (push_message db user_msg) as [u|e]; [|done].
      injection Hchat as <- Hrun. split; [done|].
      exists user_msg, role. rewrite Hrole.
      by rewrite decide_True.
    - injection Hchat as <- Hrun. split; [done|].
      exists user_msg, role. rewrite Hrole.
      by rewrite decide_False. }
  destruct Hrun as [Hrun Hshown]. split; [done|].
  unfold stream_and_save in Hrun. fold picked in Hrun.
  pose proof (stream_chat_response_ends w chain notebook_id messages
                selected_sources (Some picked)) as Hends.
  pose proof (stream_chat_response_full w chain notebook_id messages
                selected_sources picked) as Hfull.
  destruct (stream_chat_response w chain notebook_id messages
              selected_sources (Some picked))
    as [[calls0 [fragments0 outcome0]] chain0].
  cbn [fst snd] in Hends, Hfull. subst outcome0.
  unfold push_message in Hrun.
  destruct (push_by_object_id db _) as [u|e1] eqn:Hfirst.
  - injection Hrun as <- <- <- <- <-.
    split; [done|]. split; [done|]. split; [|done].
    left. exists u. exact Hfirst.
  - destruct (push_by_string_id db _) as [[]|e2] eqn:Hsecond.
    + injection Hrun as <- <- <- <- <-.
      split; [done|]. split; [done|]. split; [|done].
      right. exact Hsecond.
    + injection Hrun as <- <- <- <- <-.
      split; [done|]. split; [done|]. split; [|done].
      split; [by exists e1|exact Hsecond].
Qed.

End MainLaws.

(** ** Worked examples

    Concrete runs of the operations above: a registry that starts
    empty, the two-source store of [Scenario], a backend over integer
    vectors, a Gemini client whose asynchronous stream breaks, and a
    notebook database that knows the notebook under its string id. *)

Module Examples.

Import PyFacts Providers Registry RagChain Rag.
Import CitationFacts RetrievalFacts RetrieveContextFacts RegistryFacts
  StreamingFacts Scenario.
Import RegistryMore RegistryLaws RetrievalLaws RagMore RagLaws IngestionLaws
  Gemini GeminiLaws Main MainLaws.

(** *** The registry *)

(** Choosing Gemini for chat in a fresh registry keeps the invariant. *)
Lemma registry_ok_preserved_witness :
  registry_ok init /\
  registry_ok (set_chat_provider no_env "gemini" (Some "gemini-1.5-pro") init).2.
Proof.
  split; [exact registry_ok_init|].
  destruct (registry_ok_preserved no_env init registry_ok_init)
    as (_ & Hchat & _).
  exact (Hchat "gemini" (Some "gemini-1.5-pro")).
Defined.

(** Client constructors that need a key for every client but the
    Ollama one. *)
Definition keyed_clients : Embeddings -> Result unit := fun args =>
  match emb_client args, emb_api_key args with
  | OllamaProvider, _ | _, Some _ => Ok tt
  | _, None => Raise (ValueError "api_key must be set")
  end.

(** The OpenAI adapter built without a key. *)
Definition openai_instance : Provider :=
  {| cls := OpenAIProvider; api_key := None; base_url := None;
     Providers._chat_model := Some "gpt-4.1-mini";
     Providers._embedding_model := Some "text-embedding-3-small" |}.

(** With OpenAI selected for embeddings and no key, the provider is at
    hand, and what [get_embeddings] raises is the refusal of the
    client. *)
Lemma active_providers_available_witness :
  registry_ok registry_openai /\
  get_embedding_provider no_env registry_openai
    = (Ok openai_instance, registry_openai) /\
  (exists args,
     emb_client args = OpenAIProvider /\
     Providers.get_embeddings keyed_clients openai_instance None
     = (_ ← keyed_clients args; Ok args)) /\
  Providers.get_embeddings keyed_clients openai_instance None
  = Raise (ValueError "api_key must be set").
Proof.
  assert (Hok : registry_ok registry_openai)
    by (apply set_embedding_provider_keeps, registry_ok_init).
  assert (Hrun : get_embedding_provider no_env registry_openai
                 = (Ok openai_instance, registry_openai))
    by (vm_compute; reflexivity).
  split; [exact Hok|]. split; [exact Hrun|]. split; [|reflexivity].
  destruct (active_providers_available no_env registry_openai Hok)
    as (_ & p & reg1 & c & Hget & _ & Hcls & _ & Hemb).
  rewrite Hrun in Hget. injection Hget as <- <-.
  destruct (Hemb keyed_clients None) as (args & Hclient & Heq & _).
  exists args. split; [|exact Heq].
  rewrite Hclient, <- Hcls. reflexivity.
Defined.

(** The first request for OpenAI, and the instance it caches. *)
Definition openai_run : Result Provider * ProviderRegistry :=
  get_provider no_env "openai" init.

Lemma get_provider_cached_witness :
  get_provider no_env "openai" init = (Ok openai_instance, openai_run.2) /\
  get_provider no_env "openai" openai_run.2 = (Ok openai_instance, openai_run.2).
Proof.
  assert (H : get_provider no_env "openai" init
              = (Ok openai_instance, openai_run.2)) by reflexivity.
  split; [exact H|].
  exact (proj1 (get_provider_cached no_env "openai" init openai_instance
                  openai_run.2 H)).
Defined.

(** Selecting Gemini with a model and asking for the chat provider. *)
Lemma set_then_get_chat_provider_witness :
  registry_wf init /\
  od_get "gemini" PROVIDERS = Some GeminiProvider /\
  exists reg1 p reg2,
    set_chat_provider no_env "gemini" (Some "gemini-1.5-pro") init
      = (Ok tt, reg1) /\
    get_chat_provider no_env reg1 = (Ok p, reg2) /\
    cls p = GeminiProvider /\
    Providers._chat_model p = Some "gemini-1.5-pro".
Proof.
  split; [exact registry_wf_init|]. split; [reflexivity|].
  destruct (set_then_get_chat_provider no_env "gemini"
              (Some "gemini-1.5-pro") GeminiProvider init registry_wf_init
              eq_refl)
    as (reg1 & p & reg2 & Hset & Hget & Hcls & _ & _ & Hmodel & _).
  exists reg1, p, reg2. split; [exact Hset|]. split; [exact Hget|].
  split; [exact Hcls|].
  exact (proj1 (Hmodel "gemini-1.5-pro" eq_refl eq_refl)).
Defined.

(** Settings that ask for an embedding provider nobody registered. *)
Definition settings_unknown_embedding : Settings :=
  {| chat_provider := Some "openai";
     chat_model := None;
     embedding_provider := Some "cohere";
     embedding_model := Some "embed-english-v3";
     api_keys := Some [("openai", "sk-test")] |}.

Lemma configure_embedding_selection_witness :
  registry_wf init /\
  set_api_keys no_env [("openai", "sk-test")] init =
    (Ok tt, (set_api_keys no_env [("openai", "sk-test")] init).2) /\
  is_Some (od_get "openai" PROVIDERS) /\
  exists reg',
    configure_from_settings no_env settings_unknown_embedding init
      = (Ok tt, reg') /\
    _embedding_provider_name reg' = "ollama" /\
    Registry._embedding_model reg' = Some "embed-english-v3" /\
    _chat_provider_name reg' = "openai".
Proof.
  assert (Hsome : is_Some (od_get "openai" PROVIDERS))
    by (exists OpenAIProvider; reflexivity).
  split; [exact registry_wf_init|]. split; [reflexivity|].
  split; [exact Hsome|].
  destruct (configure_embedding_selection no_env settings_unknown_embedding
              init (set_api_keys no_env [("openai", "sk-test")] init).2
              registry_wf_init eq_refl Hsome)
    as (reg' & Hrun & Hname & Hmodel & Hchat & _).
  exists reg'. split; [exact Hrun|]. split; [exact Hname|].
  split; [exact Hmodel|exact Hchat].
Defined.

(** A key for OpenAI given to a fresh registry. *)
Lemma set_api_keys_effect_witness :
  NoDup [("openai", "sk-test")].*1 /\
  set_api_keys no_env [("openai", "sk-test")] init =
    (Ok tt, (set_api_keys no_env [("openai", "sk-test")] init).2) /\
  _instances (set_api_keys no_env [("openai", "sk-test")] init).2 !! "gemini"
    = None.
Proof.
  assert (Hnodup : NoDup [("openai", "sk-test")].*1)
    by (apply NoDup_singleton).
  split; [exact Hnodup|]. split; [reflexivity|].
  destruct (set_api_keys_effect no_env [("openai", "sk-test")] init
              (set_api_keys no_env [("openai", "sk-test")] init).2
              Hnodup eq_refl) as [_ Hframe].
  rewrite (Hframe "gemini"); [reflexivity|].
  intros Hin. apply list_elem_of_singleton in Hin. discriminate Hin.
Defined.

(** The provider listing of a fresh registry, the Ollama server being
    reachable. *)
Lemma list_providers_spec_witness :
  registry_wf init /\
  exists result reg',
    list_providers no_env (fun _ => true) init = (Ok result, reg') /\
    od_keys result = ["ollama"; "gemini"; "anthropic"; "openai"].
Proof.
  split; [exact registry_wf_init|].
  destruct (list_providers_spec no_env (fun _ => true) init registry_wf_init)
    as (result & reg' & Hrun & Hkeys & _).
  exists result, reg'. split; [exact Hrun|exact Hkeys].
Defined.

(** *** Retrieval *)

(** The chain of [Scenario] creates its store at the first use; a
    chain whose registry has OpenAI for embeddings and no key fails in
    the constructor of the embeddings client. *)
Definition keyed_world : World :=
  {| getenv := no_env;
     embeddings_client := keyed_clients;
     chroma := fun _ _ _ _ => Ok store;
     RagChain.stream_chat := fun _ _ => answer;
     json_dumps := render |}.

Definition openai_chain : RAGChain := with_registry chain registry_openai.

Lemma vectorstore_created_once_witness :
  registry_ok (registry chain) /\
  (exists p reg1 args,
     get_embedding_provider no_env (registry chain) = (Ok p, reg1) /\
     Providers.get_embeddings (embeddings_client keyed_world) p None
       = (_ ← keyed_clients args; Ok args) /\
     _get_vectorstore keyed_world chain =
       match keyed_clients args with
       | Raise e => (Raise e, with_registry chain reg1)
       | Ok _ => (Ok store, with_vectorstore (with_registry chain reg1) store)
       end) /\
  (_get_vectorstore keyed_world chain).1 = Ok store /\
  (_get_vectorstore keyed_world openai_chain).1
  = Raise (ValueError "api_key must be set").
Proof.
  split; [exact registry_ok_init|]. split; [|split; reflexivity].
  destruct (vectorstore_created_once keyed_world chain registry_ok_init)
    as (_ & Hfresh & _).
  destruct (Hfresh eq_refl) as (p & reg1 & args & Hp & _ & Hemb & Hrun).
  exists p, reg1, args. split; [exact Hp|]. split; [exact Hemb|].
  exact Hrun.
Defined.

(** The global search over the notebook gives three blocks. *)
Lemma retrieve_context_blocks_witness :
  _get_vectorstore (world answer) chain =
    (Ok store, (_get_vectorstore (world answer) chain).2) /\
  (search store "N" "What is X?" None 5).2 = Ok stored /\
  exists parts citations,
    (retrieve_context (world answer) chain "N" "What is X?" None 5).1.2
    = Ok (String.concat (nl +:+ nl) parts, citations) /\
    length parts = 3%nat.
Proof.
  split; [reflexivity|]. split; [reflexivity|].
  destruct (retrieve_context_blocks (world answer) chain "N" "What is X?"
              None 5 store (_get_vectorstore (world answer) chain).2 stored
              eq_refl eq_refl)
    as (parts & citations & Hret & Hall).
  exists parts, citations. split; [exact Hret|].
  apply Forall2_length in Hall. rewrite <- Hall. reflexivity.
Defined.

(** A store whose searches all fail. *)
Definition failing_store : VectorStore := fun _ _ _ =>
  Raise (OtherException "chroma unreachable").

Definition failing_world : World :=
  {| getenv := no_env;
     embeddings_client := fun _ => Ok tt;
     chroma := fun _ _ _ _ => Ok failing_store;
     RagChain.stream_chat := fun _ _ => answer;
     json_dumps := render |}.

(** Two selected sources over the failing store: an empty context. *)
Lemma balanced_retrieval_survives_witness :
  _get_vectorstore failing_world chain =
    (Ok failing_store, (_get_vectorstore failing_world chain).2) /\
  (1 <= length ["intro.txt"; "appendix.txt"] <= 5)%nat /\
  per_source_k 5 ["intro.txt"; "appendix.txt"] = Ok 3%Z /\
  (retrieve_context failing_world chain "N" "What is X?" two_sources 5).1.2
  = Ok (EmptyString, []).
Proof.
  split; [reflexivity|]. split; [simpl; lia|]. split; [reflexivity|].
  destruct (balanced_retrieval_survives failing_world chain "N" "What is X?"
              ["intro.txt"; "appendix.txt"] 5 failing_store
              (_get_vectorstore failing_world chain).2 eq_refl)
    as (Hreturns & _); [simpl; lia|].
  destruct (Hreturns 3%Z eq_refl) as (_ & _ & Hempty).
  apply Hempty. intros s _.
  exists (OtherException "chroma unreachable"). reflexivity.
Defined.

(** The question asked over the failing store without a selection. *)
Lemma global_search_failure_reported_witness :
  latest_user_message question = Ok "What is a vector?" /\
  _get_vectorstore failing_world chain =
    (Ok failing_store, (_get_vectorstore failing_world chain).2) /\
  (stream_chat_response failing_world chain "N" question None None).1.2
  = (["Error generating response: chroma unreachable"], None).
Proof.
  split; [reflexivity|]. split; [reflexivity|].
  rewrite (global_search_failure_reported failing_world chain "N" question
             None None "What is a vector?" failing_store
             (_get_vectorstore failing_world chain).2
             (OtherException "chroma unreachable")
             eq_refl eq_refl eq_refl eq_refl eq_refl).
  reflexivity.
Defined.

(** *** The legacy paths and ingestion *)

(** A backend over integer vectors: every text embeds to one component,
    its length; the splitter cuts at 10 characters. *)
Definition backend : Backend Z :=
  {| embed_query := fun _ text => Ok [Z.of_nat (String.length text)];
     ollama_embeddings := fun _ _ text => Ok [Z.of_nat (String.length text)];
     collection_query := fun _ _ _ =>
       Ok {| documents := Some [["Vectors are arrows in space."]];
             metadatas := Some [[{[ "source_name" := "intro.txt" ]}]] |};
     collection_add := fun _ => Ok tt;
     split_text := fun content =>
       [str_take 10 content; str_drop 10 content];
     store_add_documents := fun _ _ _ => Ok tt |}.

(** The same backend with a collection that cannot be queried. *)
Definition broken_backend : Backend Z :=
  {| embed_query := embed_query backend;
     ollama_embeddings := ollama_embeddings backend;
     collection_query := fun _ _ _ =>
       Raise (OtherException "collection unavailable");
     collection_add := collection_add backend;
     split_text := split_text backend;
     store_add_documents := store_add_documents backend |}.

(** The two dicts of the global query: two names, ids 1 and 2. *)
Lemma query_rag_context_round_trip_witness :
  _get_vectorstore (world answer) chain =
    (Ok store, (_get_vectorstore (world answer) chain).2) /\
  (search store "N" "What is X?" None 5).2 = Ok stored /\
  exists context source_map details,
    (query_rag_context backend (world answer) chain "N" "What is X?" 5
       None).1.2 = Ok (context, source_map, details) /\
    od_keys source_map = ["intro.txt"; "appendix.txt"] /\
    od_keys details = [1; 2]%Z.
Proof.
  split; [reflexivity|]. split; [reflexivity|].
  destruct (query_rag_context_round_trip backend (world answer) chain "N"
              "What is X?" 5 None store
              (_get_vectorstore (world answer) chain).2 stored
              eq_refl eq_refl)
    as (context & source_map & details & Hrun & _ & Hnames & Hids & _).
  exists context, source_map, details. split; [exact Hrun|].
  split; [rewrite Hnames|rewrite Hids]; vm_compute; reflexivity.
Defined.

(** The failing store and the broken collection together. *)
Lemma query_rag_context_raises_only_in_query_witness :
  (query_rag_context broken_backend failing_world chain "N" "What is X?" 5
     None).1.2 = Raise (OtherException "collection unavailable") /\
  exists e0,
    (retrieve_context failing_world chain "N" "What is X?" None 5).1.2
    = Raise e0.
Proof.
  assert (H : (query_rag_context broken_backend failing_world chain "N"
                 "What is X?" 5 None).1.2
              = Raise (OtherException "collection unavailable"))
    by reflexivity.
  split; [exact H|].
  exact (proj1 (query_rag_context_raises_only_in_query broken_backend
                  failing_world chain "N" "What is X?" 5 None
                  (OtherException "collection unavailable") H)).
Defined.

(** A text of 16 characters is stored as two chunks. *)
Definition ingestion :
    option (list NewDocument * list string) * Result nat * RAGChain :=
  add_documents backend (world answer) chain "N" "intro.txt" "text"
    "Vectors are fun.".

Lemma add_documents_batch_witness :
  ingestion = (ingestion.1.1, Ok 2%nat, ingestion.2) /\
  exists docs ids,
    ingestion.1.1 = Some (docs, ids) /\
    ids !! 1%nat = Some "N_intro.txt_1" /\
    NoDup ids.
Proof.
  assert (H : ingestion = (ingestion.1.1, Ok 2%nat, ingestion.2))
    by reflexivity.
  split; [exact H|].
  destruct (add_documents_batch backend (world answer) chain "N" "intro.txt"
              "text" "Vectors are fun." ingestion.1.1 2%nat ingestion.2 H)
    as (_ & _ & docs & ids & Hsent & _ & _ & Hnodup & Hat).
  exists docs, ids. split; [exact Hsent|]. split; [|exact Hnodup].
  rewrite (proj1 (Hat 1%nat "e fun." eq_refl)). vm_compute. reflexivity.
Defined.

(** *** Gemini *)

(** A client whose asynchronous stream breaks after one chunk. *)
Definition client : Client :=
  {| aio_generate_content_stream := fun _ _ =>
       ([Some "Vec"; None], Some (OtherException "stream closed"));
     generate_content_stream := fun _ _ =>
       ([Some "Vectors are arrows "; Some "[1]."], None) |}.




Definition gemini_instance : Provider :=
  {| cls := GeminiProvider; api_key := None; base_url := None;
     Providers._chat_model := Some "gemini-1.5-flash";
     Providers._embedding_model := Some "gemini-embedding-001" |}.


(** *** The chat endpoint *)

(** A notebook with three sources, one of them without content. *)
Definition notebook : NotebookDoc :=
  {| sources := Some
       [{[ "name" := "intro.txt"; "content" := "Vectors are arrows." ]};
        {[ "name" := "empty.txt" ]};
        {[ "name" := "appendix.txt"; "content" := "A matrix is a table." ]}] |}.

(** The notebook id is no [ObjectId]; the notebook is stored under the
    plain string. *)
Definition db : Db :=
  {| find_by_object_id := Raise (OtherException "invalid ObjectId");
     find_by_string_id := Ok (Some notebook);
     push_by_object_id := fun _ =>
       Raise (OtherException "invalid ObjectId");
     push_by_string_id := fun _ => Ok tt |}.

Definition chat_run : list SearchCall * Gen * list Message * RAGChain :=
  stream_and_save (Some 1000%Z) (world answer) db chain "N" question
    (Some ["appendix.txt"; "intro.txt"]).

Lemma chat_saves_what_it_streams_witness :
  chat (Some 1000%Z) (world answer) db chain "N" question
    (Some ["appendix.txt"; "intro.txt"])
  = (question,
     Ok (chat_run.1.1.1, (chat_run.1.1.2.1, chat_run.1.1.2.2), chat_run.1.2,
         chat_run.2)) /\
  chat_run.1.1.1 = [] /\
  chat_run.1.2 =
    [{[ "role" := "assistant";
        "content" := String.concat EmptyString chat_run.1.1.2.1 ]}] /\
  select_full_context (Some 1000%Z) db (Some ["appendix.txt"; "intro.txt"])
  = [{[ "name" := "intro.txt"; "content" := "Vectors are arrows." ]};
     {[ "name" := "appendix.txt"; "content" := "A matrix is a table." ]}].
Proof.
  assert (H : chat (Some 1000%Z) (world answer) db chain "N" question
                (Some ["appendix.txt"; "intro.txt"])
              = (question,
                 Ok (chat_run.1.1.1, (chat_run.1.1.2.1, chat_run.1.1.2.2),
                     chat_run.1.2, chat_run.2)))
    by (vm_compute; reflexivity).
  split; [exact H|].
  destruct (chat_saves_what_it_streams (Some 1000%Z) (world answer) db chain
              "N" question (Some ["appendix.txt"; "intro.txt"]) question
              chat_run.1.1.1 chat_run.1.1.2.1 chat_run.1.1.2.2 chat_run.1.2
              chat_run.2 H)
    as (_ & _ & Hsaved & _ & Hcalls).
  assert (Hpicked :
    select_full_context (Some 1000%Z) db (Some ["appendix.txt"; "intro.txt"])
    = [{[ "name" := "intro.txt"; "content" := "Vectors are arrows." ]};
       {[ "name" := "appendix.txt"; "content" := "A matrix is a table." ]}])
    by (vm_compute; reflexivity).
  split; [|split; [exact Hsaved|exact Hpicked]].
  apply Hcalls. rewrite Hpicked. discriminate.
Defined.

(** The documents picked for the request above, and for the same
    request while [MAX_FULL_CONTEXT] is not bound. *)
Lemma full_context_selection_witness :
  select_full_context (Some 1000%Z) db (Some ["appendix.txt"; "intro.txt"])
  = [{[ "name" := "intro.txt"; "content" := "Vectors are arrows." ]};
     {[ "name" := "appendix.txt"; "content" := "A matrix is a table." ]}] /\
  select_full_context None db (Some ["appendix.txt"; "intro.txt"]) = [].
Proof.
  split.
  - apply (proj2 (full_context_selection (Some 1000%Z) db
                    (Some ["appendix.txt"; "intro.txt"]) _)).
    exists ["appendix.txt"; "intro.txt"].
    exists [{[ "name" := "intro.txt"; "content" := "Vectors are arrows." ]};
            {[ "name" := "empty.txt" ]};
            {[ "name" := "appendix.txt";
               "content" := "A matrix is a table." ]}].
    exists 1000%Z.
    split; [reflexivity|]. split; [reflexivity|]. split.
    { repeat constructor; eexists; reflexivity. }
    split; [reflexivity|]. split; [vm_compute; reflexivity|].
    vm_compute. split; reflexivity.
  - destruct (select_full_context None db (Some ["appendix.txt"; "intro.txt"]))
      as [|s content] eqn:Hrun; [reflexivity|].
    assert (Hne : s :: content <> []) by discriminate.
    destruct (proj1 (full_context_selection None db
                       (Some ["appendix.txt"; "intro.txt"]) (s :: content))
                (conj Hrun Hne))
      as (_ & _ & limit & _ & _ & _ & Hbound & _).
    discriminate Hbound.
Defined.

(** *** Runs of the statements without a precondition *)

(** A key for Ollama given to a fresh registry. *)
Lemma api_key_for_ollama_raises_witness :
  exists msg reg',
    set_api_keys no_env [("ollama", "secret")] init
    = (Raise (TypeError msg), reg').
Proof.
  destruct (api_key_for_ollama_raises no_env init) as (Hraises & _).
  apply (Hraises [("ollama", "secret")]).
  - apply list_elem_of_singleton. reflexivity.
  - reflexivity.
Defined.

(** A request without any message. *)
Lemma unusable_last_message_reported_witness :
  stream_chat_response (world answer) chain "N" [] two_sources None
  = ([], (["Error generating response: list index out of range"], None),
     chain).
Proof.
  destruct (unusable_last_message_reported (world answer) chain "N"
              two_sources None) as (Hempty & _ & Hreport).
  exact (Hreport [] _ Hempty).
Defined.

(** Three chunks of two sources through the legacy loop. *)
Lemma legacy_citations_agree_witness :
  exists lst,
    legacy_loop
      [("Vectors are arrows in space.", {[ "source_name" := "intro.txt" ]});
       ("A matrix is a table of numbers.",
        {[ "source_name" := "appendix.txt" ]});
       ("Arrows can be added tip to tail.",
        {[ "source_name" := "intro.txt" ]})]
      legacy_init = Ok lst /\
    legacy_source_map lst = source_map_spec stored.
Proof.
  destruct (legacy_citations_agree
    [("Vectors are arrows in space.", {[ "source_name" := "intro.txt" ]});
     ("A matrix is a table of numbers.",
      {[ "source_name" := "appendix.txt" ]});
     ("Arrows can be added tip to tail.", {[ "source_name" := "intro.txt" ]})])
    as (st & lst & _ & Hloop & _ & Hmap & _).
  exists lst. split; [exact Hloop|exact Hmap].
Defined.

(** Two notebooks whose first chunks get one id. *)
Lemma document_id_scope_witness :
  document_id "a_b" "c" 0 = document_id "a" "b_c" 0.
Proof.
  exact (proj2 (document_id_scope "a" "b") "a" "b" "c" 0%Z).
Defined.

(** The legacy ingestion of a text of 16 characters: one call. *)
Lemma legacy_ingestion_adds_witness :
  add_id <$>
    (_legacy_process_document backend (world answer) "N" "intro.txt"
       "Vectors are fun." "text" "intro.txt" init).1.1
  = ["N_intro.txt_0"].
Proof.
  destruct (legacy_ingestion_adds backend (world answer) "N" "intro.txt"
              "Vectors are fun." "text" "intro.txt" init)
    as (_ & Hall & _).
  rewrite (Hall eq_refl). vm_compute. reflexivity.
Defined.

(** A conversation that brings its own system message. *)
Definition french_question : list Message :=
  [{[ "role" := "system"; "content" := "Answer in French." ]};
   {[ "role" := "user"; "content" := "What is a vector?" ]}].

Lemma gemini_system_instruction_witness :
  req_system_instruction
    (build_request gemini_instance
       (augmented_messages "Vectors are arrows." french_question) None)
  = Some "Answer in French." /\
  req_system_instruction
    (build_request gemini_instance
       (augmented_messages "Vectors are arrows." question) None)
  = Some (SYSTEM_PROMPT_format "Vectors are arrows.").
Proof.
  split.
  - destruct (gemini_system_instruction gemini_instance "Vectors are arrows."
                french_question None) as (_ & Hlast & _).
    rewrite (Hlast []
               {[ "role" := "system"; "content" := "Answer in French." ]}
               [{[ "role" := "user"; "content" := "What is a vector?" ]}]
               eq_refl).
    + reflexivity.
    + reflexivity.
    + repeat constructor. discriminate.
  - destruct (gemini_system_instruction gemini_instance "Vectors are arrows."
                question None) as (Hnone & _).
    apply Hnone. repeat constructor. discriminate.
Defined.

End Examples.
